(** * vite-worktrees: worktree provisioning and request routing

    A shallow embedding of [src/index.ts]: the command line ([parseArgs]),
    the identity derivation ([isValidWorktreeName], [getWorktreesDir]), the
    checkout inspection
    ([getCurrentBranch], [getWorktreePathForBranch]), the provisioner
    ([createWorktree]) and the request middleware installed by [main].

    External effects (child processes, the file system, the console, the Vite
    server and the process-wide [viteServers] object) are events of a free
    monad; a run interprets them against an arbitrary environment and records
    every event together with its answer. *)

From Stdlib Require Import String Ascii List Bool Arith Lia.
From stdpp Require Import gmap strings.
Import ListNotations.

Local Open Scope string_scope.

(** ** JavaScript string primitives used by the source

    A string is the UTF-8 encoding of the JavaScript string, as the process
    receives its arguments and the output of its commands. *)
Module Js.

Definition LF : string := String (ascii_of_nat 10) "".

(** [s.startsWith(p)] *)
Fixpoint startsWith (p s : string) : bool :=
  match p with
  | EmptyString => true
  | String a p' =>
      match s with
      | EmptyString => false
      | String b s' => Ascii.eqb a b && startsWith p' s'
      end
  end.

(** [s.substring(n)] *)
Fixpoint substring (n : nat) (s : string) : string :=
  match n, s with
  | O, _ => s
  | S _, EmptyString => EmptyString
  | S k, String _ rest => substring k rest
  end.

(** Truthiness of a string: every string but the empty one. *)
Definition truthy (s : string) : bool := negb (s =? "")%string.

(** [a || b] on strings that may be [undefined]. *)
Definition or_else (a : option string) (b : option string) : option string :=
  match a with
  | Some s => if truthy s then a else b
  | None => b
  end.

(** Template-literal rendering of a value that may be [null]/[undefined]. *)
Definition show_null (o : option string) : string :=
  match o with Some s => s | None => "null" end.
Definition show_undefined (o : option string) : string :=
  match o with Some s => s | None => "undefined" end.

(** White space is ECMAScript's WhiteSpace and LineTerminator. Six of its
    characters are ASCII: TAB, LF, VT, FF, CR and SP. *)
Definition is_space (c : ascii) : bool :=
  let n := nat_of_ascii c in
  (((9 <=? n) && (n <=? 13)) || (n =? 32))%nat.

(** U+00A0 takes two bytes. *)
Definition is_space2 (c1 c2 : ascii) : bool :=
  ((nat_of_ascii c1 =? 194) && (nat_of_ascii c2 =? 160))%nat.

(** U+1680, U+2000 to U+200A, U+2028, U+2029, U+202F, U+205F, U+3000 and
    U+FEFF take three. *)
Definition is_space3 (c1 c2 c3 : ascii) : bool :=
  let n1 := nat_of_ascii c1 in
  let n2 := nat_of_ascii c2 in
  let n3 := nat_of_ascii c3 in
  (((n1 =? 225) && (n2 =? 154) && (n3 =? 128))
   || ((n1 =? 226) && (n2 =? 128)
       && (((128 <=? n3) && (n3 <=? 138))
           || (n3 =? 168) || (n3 =? 169) || (n3 =? 175)))
   || ((n1 =? 226) && (n2 =? 129) && (n3 =? 159))
   || ((n1 =? 227) && (n2 =? 128) && (n3 =? 128))
   || ((n1 =? 239) && (n2 =? 187) && (n3 =? 191)))%nat.

Fixpoint trimStart (s : string) : string :=
  match s with
  | EmptyString => EmptyString
  | String c1 rest1 =>
      if is_space c1 then trimStart rest1
      else
        match rest1 with
        | EmptyString => s
        | String c2 rest2 =>
            if is_space2 c1 c2 then trimStart rest2
            else
              match rest2 with
              | EmptyString => s
              | String c3 rest3 =>
                  if is_space3 c1 c2 c3 then trimStart rest3 else s
              end
        end
  end.

(** Drops trailing white space: everything from the first position after
    which only white space follows. *)
Fixpoint trimEnd (s : string) : string :=
  match s with
  | EmptyString => EmptyString
  | String c rest =>
      if (trimStart s =? "")%string then EmptyString
      else String c (trimEnd rest)
  end.

(** [s.trim()] *)
Definition trim (s : string) : string := trimEnd (trimStart s).

(** [s.split(sep)] for a non-empty separator: [skip] counts the characters
    of a separator occurrence still to be dropped, [cur] is the current
    piece, reversed. *)
Fixpoint split_go (sep : string) (skip : nat) (cur : list ascii) (s : string)
  : list string :=
  match s with
  | EmptyString => [string_of_list_ascii (rev cur)]
  | String c rest =>
      match skip with
      | S k => split_go sep k cur rest
      | O =>
          if startsWith sep s
          then string_of_list_ascii (rev cur)
                 :: split_go sep (String.length sep - 1) [] rest
          else split_go sep 0 (c :: cur) rest
      end
  end.

Definition split (sep s : string) : list string := split_go sep 0 [] s.

End Js.

(** ** Node's [path] module (POSIX flavour)

    The source calls [path.join], [path.resolve], [path.basename] and
    [path.dirname]; they are library code, modelled here on path segments. *)
Module NodePath.

Definition slash : ascii := ascii_of_nat 47.

Definition is_slash (c : ascii) : bool := Ascii.eqb c slash.

(** The pieces of [s] between occurrences of [sep]; never the empty list. *)
Fixpoint split_char (sep : ascii) (s : string) : list string :=
  match s with
  | EmptyString => [EmptyString]
  | String c rest =>
      if Ascii.eqb c sep then EmptyString :: split_char sep rest
      else match split_char sep rest with
           | seg :: segs => String c seg :: segs
           | [] => [String c EmptyString]
           end
  end.

(** One segment of [normalizeString]: the stack holds the kept segments,
    last one first. *)
Definition normalize_step (allowAboveRoot : bool) (stack : list string)
    (seg : string) : list string :=
  if (seg =? "")%string || (seg =? ".")%string then stack
  else if (seg =? "..")%string then
    match stack with
    | top :: rest =>
        if (top =? "..")%string
        then (if allowAboveRoot then ".." :: stack else stack)
        else rest
    | [] => if allowAboveRoot then [".."] else []
    end
  else seg :: stack.

Definition normalize_segments (allowAboveRoot : bool) (path : string)
  : list string :=
  fold_left (normalize_step allowAboveRoot) (split_char slash path) [].

Definition normalizeString (path : string) (allowAboveRoot : bool) : string :=
  String.concat "/" (rev (normalize_segments allowAboveRoot path)).

Fixpoint last_char (s : string) : option ascii :=
  match s with
  | EmptyString => None
  | String c EmptyString => Some c
  | String _ rest => last_char rest
  end.

Definition isAbsolute (path : string) : bool :=
  match path with String c _ => is_slash c | EmptyString => false end.

Definition trailingSeparator (path : string) : bool :=
  match last_char path with Some c => is_slash c | None => false end.

(** [path.normalize(path)] *)
Definition normalize (path : string) : string :=
  if (path =? "")%string then "."
  else
    let abs := isAbsolute path in
    let p := normalizeString path (negb abs) in
    if (p =? "")%string then
      (if abs then "/" else if trailingSeparator path then "./" else ".")
    else
      (if abs then "/" else "") ++ p
        ++ (if trailingSeparator path then "/" else "").

(** [path.join(...args)] *)
Definition join (args : list string) : string :=
  match List.filter Js.truthy args with
  | [] => "."
  | parts => normalize (String.concat "/" parts)
  end.

(** The loop of [path.resolve], from the last argument to the first and then
    the working directory, until an absolute piece is met. *)
Fixpoint resolve_loop (pieces : list string) (resolvedPath : string)
  : string * bool :=
  match pieces with
  | [] => (resolvedPath, false)
  | p :: rest =>
      if (p =? "")%string then resolve_loop rest resolvedPath
      else
        let r := p ++ "/" ++ resolvedPath in
        if isAbsolute p then (r, true) else resolve_loop rest r
  end.

(** [path.resolve(...args)] in a process whose working directory is [cwd]. *)
Definition resolve (cwd : string) (args : list string) : string :=
  let '(resolvedPath, resolvedAbsolute) :=
    resolve_loop (rev (cwd :: args)) "" in
  let p := normalizeString resolvedPath (negb resolvedAbsolute) in
  if resolvedAbsolute then "/" ++ p
  else if (p =? "")%string then "." else p.

Fixpoint drop_slashes (l : list ascii) : list ascii :=
  match l with
  | c :: rest => if is_slash c then drop_slashes rest else l
  | [] => []
  end.

Fixpoint take_segment (l : list ascii) : list ascii :=
  match l with
  | c :: rest => if is_slash c then [] else c :: take_segment rest
  | [] => []
  end.

Fixpoint drop_segment (l : list ascii) : list ascii :=
  match l with
  | c :: rest => if is_slash c then l else drop_segment rest
  | [] => []
  end.

(** [path.basename(path)]: the last segment, trailing slashes ignored. *)
Definition basename (path : string) : string :=
  string_of_list_ascii
    (rev (take_segment (drop_slashes (rev (list_ascii_of_string path))))).

(** [path.dirname(path)]: the scan runs from the end down to index 1. *)
Definition dirname (path : string) : string :=
  match path with
  | EmptyString => "."
  | String c0 rest =>
      let hasRoot := is_slash c0 in
      match drop_segment (drop_slashes (rev (list_ascii_of_string rest))) with
      | [] => if hasRoot then "/" else "."
      | _ :: before =>
          match before with
          | [] => if hasRoot then "//" else String c0 EmptyString
          | _ => String c0 (string_of_list_ascii (rev before))
          end
      end
  end.

End NodePath.

(** ** Identity derivation *)

(** [const ACTUAL_MAIN_BRANCH = "main"] *)
Definition ACTUAL_MAIN_BRANCH : string := "main".

(** [getWorktreesDir(repoPath)] *)
Definition getWorktreesDir (repoPath : string) : string :=
  let dirName := NodePath.basename repoPath in
  let parentDir := NodePath.dirname repoPath in
  NodePath.join [parentDir; dirName ++ "-worktrees"].

(** The character class [[a-zA-Z0-9-_]]. *)
Definition is_name_char (c : ascii) : bool :=
  let n := nat_of_ascii c in
  (((97 <=? n) && (n <=? 122)) || ((65 <=? n) && (n <=? 90))
   || ((48 <=? n) && (n <=? 57)) || (n =? 45) || (n =? 95))%nat.

(** [isValidWorktreeName(name)]: [/^[a-zA-Z0-9-_]+$/.test(name)] *)
Definition isValidWorktreeName (name : string) : bool :=
  match list_ascii_of_string name with
  | [] => false
  | cs => forallb is_name_char cs
  end.

(** [`${name}-branch`] *)
Definition branchForWorktree (name : string) : string := name ++ "-branch".

(** [path.join(getWorktreesDir(repoPath), name)] *)
Definition targetWorktreePath (repoPath name : string) : string :=
  NodePath.join [getWorktreesDir repoPath; name].

(** ** Values exchanged with the environment *)

(** What [execCommand] resolves with: [{ stdout, stderr }]. *)
Record ExecOutput := { stdout : string; stderr : string }.

(** What [execCommand] rejects with: [{ error, stderr }]; [error] is kept by
    its message. The rejection object itself has no [message] property. *)
Record ExecRejection := { rej_error : string; rej_stderr : string }.

(** A JavaScript [Error] (thrown by [fs], by Vite, or a [TypeError]). *)
Record JsErr := { err_name : string; err_message : string }.

(** Anything a [catch (error)] clause of the source can receive. *)
Inductive Thrown :=
| Rejected (r : ExecRejection)
| Threw (e : JsErr).

(** [error.stderr], [error.message] and [error.toString()] of a caught value. *)
Definition thrown_stderr (e : Thrown) : option string :=
  match e with Rejected r => Some (rej_stderr r) | Threw _ => None end.

Definition thrown_message (e : Thrown) : option string :=
  match e with Rejected _ => None | Threw x => Some (err_message x) end.

Definition thrown_toString (e : Thrown) : string :=
  match e with
  | Rejected _ => "[object Object]"
  | Threw x =>
      if (err_message x =? "")%string then err_name x
      else if (err_name x =? "")%string then err_message x
      else err_name x ++ ": " ++ err_message x
  end.

(** The outcome of an operation that returns or throws. *)
Inductive Try (E A : Type) : Type :=
| Returned (a : A)
| Raised (e : E).
Arguments Returned {E A} a.
Arguments Raised {E A} e.

(** The options [vite.createServer] receives from the middleware
    ([middlewareMode], [hmr.server] and [appType] are constants there). *)
Record ViteConfig := {
  cfg_root : string;
  cfg_base : string;
  cfg_fs_allow : list string
}.

(** A Vite dev server: the configuration it was created from and the opaque
    instance the library handed back. *)
Record ViteServer := { server_config : ViteConfig; server_instance : nat }.

(** What [viteServers[name]] evaluates to. [viteServers] is a plain object
    literal, so a name of [Object.prototype] reads an inherited member, which
    is truthy but is not a server. *)
Inductive Slot :=
| OwnServer (s : ViteServer)
| InheritedMember
| Undefined.

Definition object_prototype_keys : list string :=
  ["constructor"; "__defineGetter__"; "__defineSetter__"; "hasOwnProperty";
   "__lookupGetter__"; "__lookupSetter__"; "isPrototypeOf";
   "propertyIsEnumerable"; "toString"; "valueOf"; "__proto__";
   "toLocaleString"].

Definition slot_truthy (s : Slot) : bool :=
  match s with Undefined => false | _ => true end.

Inductive Level := LevelLog | LevelWarn | LevelError.

(** ** Events *)

(** Calls that leave the process. *)
Inductive ExtEvent : Type -> Type :=
| ExecCommand (command : string) (cwd : string)
    : ExtEvent (Try ExecRejection ExecOutput)
| ExistsSync (p : string) : ExtEvent bool
| ReaddirSync (p : string) : ExtEvent (Try JsErr (list string))
| MkdirSync (p : string) : ExtEvent (Try JsErr unit)
| CreateServer (cfg : ViteConfig) : ExtEvent (Try JsErr nat)
| ReadFile (p : string) : ExtEvent (Try JsErr string)
| TransformIndexHtml (s : ViteServer) (url html originalUrl : string)
    : ExtEvent (Try JsErr string)
| SsrFixStacktrace (s : ViteServer) (e : JsErr) : ExtEvent unit.

(** All events: external calls, console output (the format string and the
    object passed after it, if any) and accesses to [viteServers]. *)
Inductive Event : Type -> Type :=
| Ext {X : Type} (e : ExtEvent X) : Event X
| Console (lvl : Level) (msg : string) (arg : option Thrown) : Event unit
| GetServer (name : string) : Event Slot
| SetServer (name : string) (s : ViteServer) : Event unit.

(** Programs: finite trees of events. *)
Inductive Prog (A : Type) : Type :=
| Ret (a : A)
| Vis (X : Type) (e : Event X) (k : X -> Prog A).
Arguments Ret {A} a.
Arguments Vis {A X} e k.

Fixpoint bind {A B : Type} (p : Prog A) (f : A -> Prog B) : Prog B :=
  match p with
  | Ret a => f a
  | Vis e k => Vis e (fun x => bind (k x) f)
  end.

Definition trigger {X : Type} (e : Event X) : Prog X := Vis e Ret.

Declare Scope prog_scope.
Delimit Scope prog_scope with prog.
Bind Scope prog_scope with Prog.
Notation "x <- p ;; k" := (bind p (fun x => k))
  (at level 100, p at next level, right associativity) : prog_scope.
Notation "p ;; k" := (bind p (fun _ => k))
  (at level 100, right associativity) : prog_scope.
(** Inside a [try] block: a raised value skips the rest of the block. *)
Notation "x <-? p ;; k" :=
  (bind p (fun r => match r with
                    | Returned x => k
                    | Raised e => Ret (Raised e)
                    end))
  (at level 100, p at next level, right associativity) : prog_scope.

Local Open Scope prog_scope.

Definition console_log (msg : string) : Prog unit :=
  trigger (Console LevelLog msg None).
Definition console_warn (msg : string) : Prog unit :=
  trigger (Console LevelWarn msg None).
Definition console_error (msg : string) (arg : option Thrown) : Prog unit :=
  trigger (Console LevelError msg arg).

(** [execCommand(command, cwd)] *)
Definition execCommand (command cwd : string)
  : Prog (Try ExecRejection ExecOutput) :=
  trigger (Ext (ExecCommand command cwd)).

(** An awaited [execCommand] inside a [try] block that catches everything. *)
Definition awaitExec (command cwd : string) : Prog (Try Thrown ExecOutput) :=
  r <- execCommand command cwd ;;
  Ret (match r with
       | Returned out => Returned out
       | Raised rej => Raised (Rejected rej)
       end).

(** A synchronous [fs] call inside such a block. *)
Definition fsCall {X : Type} (e : ExtEvent (Try JsErr X)) : Prog (Try Thrown X) :=
  r <- trigger (Ext e) ;;
  Ret (match r with
       | Returned x => Returned x
       | Raised err => Raised (Threw err)
       end).

(** ** The program *)

(** The result object of [createWorktree]: [{ success, message, details? }]. *)
Inductive Details :=
| NoDetails
| AddOutput (addCmdOutput : ExecOutput)
| ErrorDetails (stderr message : option string) (errorObject : string).

Record Result := { success : bool; message : string; details : Details }.

(** The [return] statement an attempt leaves [createWorktree] through, with
    the values its message interpolates. *)
Inductive Outcome :=
| AlreadyExists
| BranchCheckedOutElsewhere (existingPathForBranch : string)
| PathOccupiedByOtherBranch (currentEntryBranch : string)
| NonEmptyDirectory
| InvalidBaseBranch (checkError : ExecRejection)
| Created (addCmdOutput : ExecOutput)
| Failed (error : Thrown).

(** The request as the middleware reads it. *)
Record Request := {
  req_worktree : string;      (* req.params.worktree *)
  req_path : string;          (* req.path *)
  req_originalUrl : string    (* req.originalUrl *)
}.

(** What the middleware does with the response. *)
Inductive Response :=
| Middlewares (s : ViteServer)      (* server.middlewares(req, res, next) *)
| Unhandled (e : JsErr)             (* the handler's promise rejects *)
| Next                              (* next() *)
| NextError (e : JsErr)             (* next(e) *)
| Json (status : nat) (error : string) (details : option string)
| Html (status : nat) (body : string).

Definition list_cmd : string := "git worktree list --porcelain".
Definition pnpm_cmd : string := "pnpm install".
Definition verify_cmd : string :=
  "git rev-parse --verify " ++ ACTUAL_MAIN_BRANCH ++ "^{commit}".
Definition show_ref_cmd (branch : string) : string :=
  "git show-ref --verify --quiet refs/heads/" ++ branch.
Definition add_new_branch_cmd (branch target : string) : string :=
  "git worktree add -b " ++ branch ++ " " ++ target ++ " " ++ ACTUAL_MAIN_BRANCH.
Definition add_existing_branch_cmd (branch target : string) : string :=
  "git worktree add " ++ target ++ " " ++ branch.

(** The [worktree] and [branch refs/heads/] lines of one porcelain entry; a
    later line overwrites an earlier one. *)
Definition parseEntry (lines : list string) : string * string :=
  fold_left
    (fun (acc : string * string) (line : string) =>
       if Js.startsWith "worktree " line
       then (Js.substring (String.length "worktree ") line, snd acc)
       else if Js.startsWith "branch refs/heads/" line
       then (fst acc, Js.substring (String.length "branch refs/heads/") line)
       else acc)
    lines ("", "").

(** Lines 416-422: the path handed to Vite, with its leading slash. *)
Definition actualReqPathForVite (reqPath : string) : string :=
  let p := if Js.startsWith "/" reqPath then reqPath else "/" ++ reqPath in
  if (p =? "//")%string then "/" else p.

Definition not_a_function (what : string) : JsErr :=
  {| err_name := "TypeError"; err_message := what ++ " is not a function" |}.

Definition undefined_property (prop : string) : JsErr :=
  {| err_name := "TypeError";
     err_message :=
       "Cannot read properties of undefined (reading '" ++ prop ++ "')" |}.

Section Process.

(** [process.cwd()], which [path.resolve] falls back on. *)
Variable cwd : string.

Definition path_resolve (p : string) : string := NodePath.resolve cwd [p].

(** The loop of [getWorktreePathForBranch] over the porcelain entries. *)
Fixpoint findBranchEntry (branchName : string) (entries : list string)
  : option string :=
  match entries with
  | [] => None
  | entry :: rest =>
      if negb (Js.truthy (Js.trim entry)) then findBranchEntry branchName rest
      else
        let '(currentPath, currentBranch) := parseEntry (Js.split Js.LF entry) in
        if Js.truthy currentPath && (currentBranch =? branchName)%string
        then Some (path_resolve currentPath)
        else findBranchEntry branchName rest
  end.

(** The loop of [createWorktree] over the porcelain entries: the branch of
    the first entry at the target path that is bound to another branch. *)
Fixpoint findPathConflict (target branch : string) (entries : list string)
  : option string :=
  match entries with
  | [] => None
  | entry :: rest =>
      if negb (Js.truthy (Js.trim entry)) then findPathConflict target branch rest
      else
        let '(currentEntryPath, currentEntryBranch) :=
          parseEntry (Js.split Js.LF entry) in
        if (path_resolve currentEntryPath =? path_resolve target)%string
           && negb (currentEntryBranch =? branch)%string
        then Some currentEntryBranch
        else findPathConflict target branch rest
  end.

(** The [catch] clause of [getCurrentBranch]: the caught value is the rejection
    object of [execCommand], which has neither [message] nor [stack]. *)
Definition getCurrentBranch_catch : Prog (option string) :=
  console_error "[getCurrentBranch] Error: undefined. Stack: undefined" None ;;
  console_log "[getCurrentBranch] Error caught. Returning null." ;;
  Ret None.

(** [getCurrentBranch(repoPath)] *)
Definition getCurrentBranch (repoPath : string) : Prog (option string) :=
  console_log ("[getCurrentBranch] Called with repoPath: " ++ repoPath) ;;
  r <- execCommand "git rev-parse --is-inside-work-tree" repoPath ;;
  match r with
  | Raised _ => getCurrentBranch_catch
  | Returned isGitRepoOut =>
      let isGitRepo := Js.trim (stdout isGitRepoOut) in
      console_log ("[getCurrentBranch] isGitRepo command output: '"
                   ++ isGitRepo ++ "'") ;;
      if negb (isGitRepo =? "true")%string then
        console_log "[getCurrentBranch] Not a git repo or not inside work tree. Returning null." ;;
        Ret None
      else
        r2 <- execCommand "git rev-parse --abbrev-ref HEAD" repoPath ;;
        match r2 with
        | Raised _ => getCurrentBranch_catch
        | Returned branchOut =>
            let branch := Js.trim (stdout branchOut) in
            console_log ("[getCurrentBranch] branch command output: '"
                         ++ branch ++ "'") ;;
            let result := if (branch =? "HEAD")%string then None else Some branch in
            console_log ("[getCurrentBranch] Returning: " ++ Js.show_null result) ;;
            Ret result
        end
  end.

(** [getWorktreePathForBranch(branchName, repoPath)] *)
Definition getWorktreePathForBranch (branchName repoPath : string)
  : Prog (option string) :=
  console_log ("[getWorktreePathForBranch] Called with branchName: '"
               ++ branchName ++ "', repoPath: '" ++ repoPath ++ "'") ;;
  r <- execCommand list_cmd repoPath ;;
  match r with
  | Returned out =>
      (* the [for] loop, then [return null] still inside the [try] *)
      Ret (findBranchEntry branchName (Js.split (Js.LF ++ Js.LF) (stdout out)))
  | Raised rej =>
      console_error ("Error parsing worktree list for branch '"
                     ++ branchName ++ "':") (Some (Rejected rej)) ;;
      console_log ("[getWorktreePathForBranch] Porcelain check did not find or errored for branch '"
                   ++ branchName ++ "'.") ;;
      currentBranchOfCwd <- getCurrentBranch repoPath ;;
      console_log ("[getWorktreePathForBranch] currentBranchOfCwd: '"
                   ++ Js.show_null currentBranchOfCwd
                   ++ "' (comparing with '" ++ branchName ++ "')") ;;
      match currentBranchOfCwd with
      | Some b =>
          if (b =? branchName)%string then
            let result := path_resolve repoPath in
            console_log ("[getWorktreePathForBranch] CWD is on branch '"
                         ++ branchName ++ "'. Returning path: '" ++ result ++ "'") ;;
            Ret (Some result)
          else
            console_log ("[getWorktreePathForBranch] Branch '" ++ branchName
                         ++ "' not found in CWD or linked worktrees. Returning null.") ;;
            Ret None
      | None =>
          console_log ("[getWorktreePathForBranch] Branch '" ++ branchName
                       ++ "' not found in CWD or linked worktrees. Returning null.") ;;
          Ret None
      end
  end.

(** The dependency installation after a successful [git worktree add]. *)
Definition createWorktree_install (target : string) : Prog unit :=
  console_log ("[createWorktree] Running pnpm install in " ++ target) ;;
  r <- execCommand pnpm_cmd target ;;
  match r with
  | Returned out =>
      console_log ("[createWorktree] Successfully ran pnpm install in " ++ target) ;;
      if Js.truthy (stderr out)
      then console_warn ("[createWorktree] pnpm install warnings: " ++ stderr out)
      else Ret tt
  | Raised installError =>
      console_error
        ("[createWorktree] Error running pnpm install: "
         ++ Js.show_undefined
              (Js.or_else None
                 (Js.or_else (Some (rej_stderr installError)) (Some "Unknown error")))
         ++ ". Worktree created, but dependencies not installed.") None
  end.

(** Lines 292-361: the branch existence check, [git worktree add], the
    dependency installation and the final [return]. *)
Definition createWorktree_add (name repoPath : string)
  : Prog (Try Thrown Outcome) :=
  let target := targetWorktreePath repoPath name in
  let branch := branchForWorktree name in
  r <- execCommand (show_ref_cmd branch) repoPath ;;
  branchDidExist <-
    match r with
    | Returned _ =>
        console_log ("[createWorktree] Branch '" ++ branch
                     ++ "' already exists (but is not checked out by CWD or other linked worktrees).") ;;
        Ret true
    | Raised _ =>
        console_log ("[createWorktree] Branch '" ++ branch
                     ++ "' does not exist yet.") ;;
        Ret false
    end ;;
  let addCmd :=
    if negb branchDidExist
    then add_new_branch_cmd branch target
    else add_existing_branch_cmd branch target in
  console_log ("[createWorktree] Attempting: " ++ addCmd) ;;
  addCmdOutput <-? awaitExec addCmd repoPath ;;
  createWorktree_install target ;;
  Ret (Returned (Created addCmdOutput)).

(** Lines 270-290: the container directory and the base branch check. *)
Definition createWorktree_prepare (name repoPath : string)
  : Prog (Try Thrown Outcome) :=
  let worktreesDir := getWorktreesDir repoPath in
  dirExists <- trigger (Ext (ExistsSync worktreesDir)) ;;
  _ <-? (if negb dirExists then fsCall (MkdirSync worktreesDir)
         else Ret (Returned tt)) ;;
  r <- execCommand verify_cmd repoPath ;;
  match r with
  | Raised checkError => Ret (Returned (InvalidBaseBranch checkError))
  | Returned _ => createWorktree_add name repoPath
  end.

(** Lines 258-268: the occupancy check of the target directory. *)
Definition createWorktree_directory (name repoPath : string)
  : Prog (Try Thrown Outcome) :=
  let target := targetWorktreePath repoPath name in
  targetExists <- trigger (Ext (ExistsSync target)) ;;
  if (targetExists : bool) then
    filesInDir <-? fsCall (ReaddirSync target) ;;
    if (0 <? List.length filesInDir)%nat
    then Ret (Returned NonEmptyDirectory)
    else createWorktree_prepare name repoPath
  else createWorktree_prepare name repoPath.

(** Lines 227-256: is the target path a worktree of another branch? *)
Definition createWorktree_path (name repoPath : string)
  : Prog (Try Thrown Outcome) :=
  let target := targetWorktreePath repoPath name in
  let branch := branchForWorktree name in
  wtList <-? awaitExec list_cmd repoPath ;;
  match findPathConflict target branch
          (Js.split (Js.LF ++ Js.LF) (stdout wtList)) with
  | Some currentEntryBranch =>
      Ret (Returned (PathOccupiedByOtherBranch currentEntryBranch))
  | None => createWorktree_directory name repoPath
  end.

(** The body of the [try] block of [createWorktree], lines 202-361. *)
Definition createWorktree_try (name repoPath : string)
  : Prog (Try Thrown Outcome) :=
  let target := targetWorktreePath repoPath name in
  let branch := branchForWorktree name in
  existingPathForBranch <- getWorktreePathForBranch branch repoPath ;;
  console_log ("[createWorktree] existingPathForBranch for '" ++ branch
               ++ "': '" ++ Js.show_null existingPathForBranch ++ "'") ;;
  match existingPathForBranch with
  | Some existing =>
      if Js.truthy existing then
        if (path_resolve existing =? path_resolve target)%string
        then Ret (Returned AlreadyExists)
        else Ret (Returned (BranchCheckedOutElsewhere existing))
      else createWorktree_path name repoPath
  | None => createWorktree_path name repoPath
  end.

(** The attempt with its [catch] clause: which [return] it ends in. *)
Definition createWorktree_outcome (name repoPath : string) : Prog Outcome :=
  console_log ("[createWorktree] For name '" ++ name
               ++ "', using branchForWorktree: '" ++ branchForWorktree name
               ++ "', targetWorktreePath: '"
               ++ targetWorktreePath repoPath name ++ "'") ;;
  r <- createWorktree_try name repoPath ;;
  match r with
  | Returned o => Ret o
  | Raised error =>
      console_error "Error creating worktree:" (Some error) ;;
      Ret (Failed error)
  end.

(** The object each [return] statement builds. *)
Definition toResult (name repoPath : string) (o : Outcome) : Result :=
  let target := targetWorktreePath repoPath name in
  let branch := branchForWorktree name in
  match o with
  | AlreadyExists =>
      {| success := true;
         message := "Worktree '" ++ name ++ "' for branch '" ++ branch
                    ++ "' already exists at '" ++ target ++ "'.";
         details := NoDetails |}
  | BranchCheckedOutElsewhere existing =>
      {| success := false;
         message := "Failed to create worktree: Branch '" ++ branch
                    ++ "' is already checked out by another worktree at '"
                    ++ existing
                    ++ "'. Please use a different worktree name or resolve the conflict.";
         details := NoDetails |}
  | PathOccupiedByOtherBranch currentEntryBranch =>
      {| success := false;
         message := "Failed to create worktree: Directory '" ++ target
                    ++ "' is already a worktree for branch '"
                    ++ currentEntryBranch ++ "'. Cannot use it for branch '"
                    ++ branch ++ "'.";
         details := NoDetails |}
  | NonEmptyDirectory =>
      {| success := false;
         message := "Failed to create worktree: Directory '" ++ target
                    ++ "' already exists and is not empty. Please remove it or use a different name.";
         details := NoDetails |}
  | InvalidBaseBranch checkError =>
      {| success := false;
         message := "Failed to create worktree: The base branch '"
                    ++ ACTUAL_MAIN_BRANCH
                    ++ "' for new branches is not a valid commit or does not exist. Details: "
                    ++ Js.show_undefined
                         (Js.or_else (Some (rej_stderr checkError)) None);
         details := NoDetails |}
  | Created addCmdOutput =>
      {| success := true;
         message := "Successfully created worktree '" ++ name
                    ++ "' on branch '" ++ branch ++ "' at '" ++ target ++ "'";
         details := AddOutput addCmdOutput |}
  | Failed error =>
      {| success := false;
         message := "Failed to create worktree: "
                    ++ Js.show_undefined
                         (Js.or_else (thrown_stderr error)
                            (Js.or_else (thrown_message error)
                               (Some "Unknown error")));
         details := ErrorDetails (thrown_stderr error) (thrown_message error)
                      (thrown_toString error) |}
  end.

(** [createWorktree(name, repoPath)] *)
Definition createWorktree (name repoPath : string) : Prog Result :=
  o <- createWorktree_outcome name repoPath ;;
  Ret (toResult name repoPath o).

(** The dependency installation of the [main] workspace, lines 452-473. *)
Definition main_install (repoPath : string) : Prog unit :=
  console_log ("[Server] Running pnpm install in main repo " ++ repoPath) ;;
  r <- execCommand pnpm_cmd repoPath ;;
  match r with
  | Returned out =>
      console_log ("[Server] pnpm install in main repo stdout: " ++ stdout out) ;;
      if Js.truthy (stderr out)
      then console_warn ("[Server] pnpm install in main repo stderr: " ++ stderr out)
      else Ret tt
  | Raised installError =>
      console_error
        ("[Server] Error running pnpm install in main repo: "
         ++ Js.show_undefined
              (Js.or_else None
                 (Js.or_else (Some (rej_stderr installError)) (Some "Unknown error"))))
        None
  end.

(** Lines 517-541: serve the transformed [index.html] of the environment. *)
Definition main_serve (req : Request) (worktree rootPathForVite : string)
    (actualReqPathForVite : string) : Prog Response :=
  server <- trigger (GetServer worktree) ;;
  let indexPath := NodePath.resolve cwd [rootPathForVite; "index.html"] in
  let failed (e : JsErr) : Prog Response :=
    match server with
    | OwnServer s => trigger (Ext (SsrFixStacktrace s e))
    | _ => Ret tt
    end ;;
    console_error ("[Fallback] Error during Vite processing/serving index.html for '"
                   ++ worktree ++ "' at " ++ req_originalUrl req ++ ":")
      (Some (Threw e)) ;;
    Ret (NextError e) in
  r <- trigger (Ext (ReadFile indexPath)) ;;
  match r with
  | Raised e => failed e
  | Returned htmlContent =>
      console_log ("[Fallback] Serving transformed index.html for '" ++ worktree
                   ++ "'. Original path: '" ++ req_originalUrl req
                   ++ "', Vite transform path: '" ++ actualReqPathForVite ++ "'") ;;
      match server with
      | OwnServer s =>
          t <- trigger (Ext (TransformIndexHtml s actualReqPathForVite
                               htmlContent (req_originalUrl req))) ;;
          match t with
          | Returned template => Ret (Html 200 template)
          | Raised e => failed e
          end
      | InheritedMember => failed (not_a_function "server.transformIndexHtml")
      | Undefined => failed (undefined_property "transformIndexHtml")
      end
  end.

(** Lines 492-515 and the outer [catch]: create the Vite server unless the
    name already has one, then serve. *)
Definition main_ensure_server (repoPath : string) (req : Request)
    (worktree rootPathForVite effectiveViteBasePath : string)
    (actualReqPathForVite : string) : Prog Response :=
  existing <- trigger (GetServer worktree) ;;
  if slot_truthy existing then
    main_serve req worktree rootPathForVite actualReqPathForVite
  else
    console_log ("[Server] Creating Vite server for '" ++ worktree
                 ++ "' with base '" ++ effectiveViteBasePath
                 ++ "' and root '" ++ rootPathForVite ++ "'") ;;
    let cfg := {| cfg_root := rootPathForVite;
                  cfg_base := effectiveViteBasePath;
                  cfg_fs_allow := [repoPath; getWorktreesDir repoPath] |} in
    r <- trigger (Ext (CreateServer cfg)) ;;
    match r with
    | Returned instance =>
        trigger (SetServer worktree
                   {| server_config := cfg; server_instance := instance |}) ;;
        main_serve req worktree rootPathForVite actualReqPathForVite
    | Raised error =>
        console_error ("[Server] Error handling request for "
                       ++ req_originalUrl req ++ ":") (Some (Threw error)) ;;
        Ret (Json 500
               ("Failed to process request: "
                ++ Js.show_undefined
                     (Js.or_else (Some (err_message error)) (Some "Unknown error")))
               None)
    end.

(** The middleware [main] registers with [app.use("/:worktree", ...)]. *)
Definition main_middleware (repoPath : string) (req : Request) : Prog Response :=
  let worktreeFromParam := req_worktree req in
  server <- trigger (GetServer worktreeFromParam) ;;
  match server with
  | OwnServer s => Ret (Middlewares s)
  | InheritedMember => Ret (Unhandled (not_a_function "server.middlewares"))
  | Undefined =>
      if Js.truthy worktreeFromParam && isValidWorktreeName worktreeFromParam then
        let worktree := worktreeFromParam in
        let viteBasePath := "/" ++ worktree ++ "/" in
        let actualReqPathForVite := actualReqPathForVite (req_path req) in
        if negb (Js.truthy worktree) then
          Ret (Json 400
                 "Invalid request: Worktree could not be determined or is empty"
                 None)
        else if (worktree =? "main")%string then
          console_log ("[Server] Handling 'main' branch. Using repo path: "
                       ++ repoPath) ;;
          main_install repoPath ;;
          main_ensure_server repoPath req worktree repoPath "/main/"
            actualReqPathForVite
        else
          createWorktreeResult <- createWorktree worktree repoPath ;;
          if negb (success createWorktreeResult) then
            console_error ("[Server] Failed to create or prepare worktree '"
                           ++ worktree ++ "': " ++ message createWorktreeResult)
              None ;;
            Ret (Json 500 ("Failed to prepare worktree '" ++ worktree ++ "'")
                   (Some (message createWorktreeResult)))
          else
            main_ensure_server repoPath req worktree
              (NodePath.join [getWorktreesDir repoPath; worktree]) viteBasePath
              actualReqPathForVite
      else
        console_warn ("[Server] Route /:worktree/* matched, but worktree param '"
                      ++ worktreeFromParam ++ "' is invalid. Original URL: "
                      ++ req_originalUrl req ++ ". Passing to next handler.") ;;
        Ret Next
  end.

End Process.

Arguments getCurrentBranch : simpl never.
Arguments getWorktreePathForBranch : simpl never.
Arguments createWorktree_install : simpl never.
Arguments createWorktree_add : simpl never.
Arguments createWorktree_prepare : simpl never.
Arguments createWorktree_directory : simpl never.
Arguments createWorktree_path : simpl never.
Arguments createWorktree_try : simpl never.
Arguments createWorktree_outcome : simpl never.
Arguments createWorktree : simpl never.
Arguments main_install : simpl never.
Arguments main_serve : simpl never.
Arguments main_ensure_server : simpl never.
Arguments main_middleware : simpl never.

(** ** The command line *)

Definition is_digit (c : ascii) : bool :=
  let n := nat_of_ascii c in ((48 <=? n) && (n <=? 57))%nat.

Definition digit_value (c : ascii) : Z := Z.of_nat (nat_of_ascii c - 48).

(** The longest run of decimal digits at the start of [s]; [seen] is the
    value of the digits read so far, [None] before the first one. *)
Fixpoint leading_digits (s : string) (seen : option Z) : option Z :=
  match s with
  | String c rest =>
      if is_digit c
      then leading_digits rest
             (Some (10 * (match seen with Some v => v | None => 0 end)
                    + digit_value c)%Z)
      else seen
  | EmptyString => seen
  end.

(** [parseInt(s, 10)]: leading white space is skipped, then an optional sign
    is read, then the longest run of decimal digits; [None] is [NaN], which
    is all [parseArgs] asks of the result. [Some n] stands for the number
    JavaScript makes of the integer [n] the signed digits denote: [n] itself
    up to 2^53, the nearest double beyond, and [-0] for the digits of zero
    after a minus sign. *)
Definition parseInt (s : string) : option Z :=
  match Js.trimStart s with
  | String c rest =>
      if Ascii.eqb c "-" then option_map Z.opp (leading_digits rest None)
      else if Ascii.eqb c "+" then leading_digits rest None
      else leading_digits (String c rest) None
  | EmptyString => None
  end.

(** How [parseArgs] ends: it returns [{ port, repoPath }], or it logs an
    error and calls [process.exit]. *)
Inductive Parsed :=
| Args (port : Z) (repoPath : string)
| Exit (code : nat) (logged : string).

(** The loop of [parseArgs] from index [i] on: [args] is what is left of the
    arguments at [i]. A flag is only recognised when an argument follows it,
    and that argument is skipped. *)
Fixpoint parseArgs_loop (cwd : string) (args : list string) (port : Z)
    (repoPath : string) : Parsed :=
  match args with
  | [] => Args port repoPath
  | a :: rest =>
      match rest with
      | [] => Args port repoPath
      | v :: rest' =>
          if (a =? "--port")%string then
            match parseInt v with
            | Some parsedPort => parseArgs_loop cwd rest' parsedPort repoPath
            | None => Exit 1 ("Invalid port: " ++ v)
            end
          else if (a =? "--repo-path")%string then
            parseArgs_loop cwd rest' port (NodePath.resolve cwd [v])
          else parseArgs_loop cwd rest port repoPath
      end
  end.

(** [parseArgs()] in a process with working directory [cwd] and arguments
    [argv] ([process.argv], whose first two entries are skipped). *)
Definition parseArgs (cwd : string) (argv : list string) : Parsed :=
  parseArgs_loop cwd (skipn 2 argv) 5173%Z cwd.

Definition is_flag (a : string) : bool :=
  (a =? "--port")%string || (a =? "--repo-path")%string.

(** ** Observations *)

(** One event of a run with the answer it received. *)
Inductive Obs : Type := Observed (X : Type) (e : Event X) (x : X).
Arguments Observed {X} e x.

(** The shell command of an [execCommand] observation. *)
Definition obs_command (o : Obs) : option string :=
  match o with
  | Observed e _ =>
      match e with
      | Ext e' => match e' with ExecCommand c _ => Some c | _ => None end
      | _ => None
      end
  end.

Definition commands (t : list Obs) : list string := omap obs_command t.

(** The two checkout-creation commands both start with [git worktree add]. *)
Definition is_creation_command (c : string) : bool :=
  Js.startsWith "git worktree add " c.

Definition creations (t : list Obs) : list string :=
  List.filter is_creation_command (commands t).

(** The command of a [git worktree add] that resolved. *)
Definition obs_created (o : Obs) : bool :=
  match o with
  | Observed e x =>
      match e in Event X return X -> bool with
      | Ext e' =>
          match e' in ExtEvent X return X -> bool with
          | ExecCommand c _ =>
              fun r => match r with
                       | Returned _ => is_creation_command c
                       | Raised _ => false
                       end
          | _ => fun _ => false
          end
      | _ => fun _ => false
      end x
  end.

(** A [pnpm install] that rejected. *)
Definition obs_install_failed (o : Obs) : bool :=
  match o with
  | Observed e x =>
      match e in Event X return X -> bool with
      | Ext e' =>
          match e' in ExtEvent X return X -> bool with
          | ExecCommand c _ =>
              fun r => match r with
                       | Returned _ => false
                       | Raised _ => (c =? pnpm_cmd)%string
                       end
          | _ => fun _ => false
          end
      | _ => fun _ => false
      end x
  end.

(** Operations that change the repository or the file system: creating a
    directory, adding a worktree (and branch), installing dependencies. The
    other commands of the source ([git worktree list], [git rev-parse],
    [git show-ref]) and [existsSync]/[readdirSync] only read. *)
Definition obs_mutating (o : Obs) : bool :=
  match o with
  | Observed e _ =>
      match e with
      | Ext e' =>
          match e' with
          | ExecCommand c _ => is_creation_command c || (c =? pnpm_cmd)%string
          | MkdirSync _ => true
          | _ => false
          end
      | _ => false
      end
  end.

(** Any call that leaves the process. *)
Definition obs_external (o : Obs) : bool :=
  match o with
  | Observed e _ => match e with Ext _ => true | _ => false end
  end.

Definition obs_console (lvl : Level) (o : Obs) : option string :=
  match o with
  | Observed e _ =>
      match e with
      | Console l msg _ =>
          match l, lvl with
          | LevelLog, LevelLog | LevelWarn, LevelWarn | LevelError, LevelError =>
              Some msg
          | _, _ => None
          end
      | _ => None
      end
  end.

(** The [execCommand] calls of a run, with their working directories. *)
Definition obs_exec (o : Obs) : option (string * string) :=
  match o with
  | Observed e _ =>
      match e with
      | Ext e' => match e' with ExecCommand c d => Some (c, d) | _ => None end
      | _ => None
      end
  end.

(** The configurations [vite.createServer] was called with. *)
Definition obs_create_server (o : Obs) : option ViteConfig :=
  match o with
  | Observed e _ =>
      match e with
      | Ext e' => match e' with CreateServer cfg => Some cfg | _ => None end
      | _ => None
      end
  end.

(** ** Runs *)

(** [viteServers[name]]: own properties first, then [Object.prototype]. *)
Definition lookup_slot (servers : gmap string ViteServer) (name : string) : Slot :=
  match servers !! name with
  | Some s => OwnServer s
  | None =>
      if existsb (String.eqb name) object_prototype_keys
      then InheritedMember else Undefined
  end.

Section Semantics.

(** The environment: a state and its answer to every external call. *)
Variable W : Type.
Variable handle : forall X : Type, ExtEvent X -> W -> X * W.

(** The environment and the process-wide [viteServers] object. *)
Record State := { world : W; viteServers : gmap string ViteServer }.

(** What the environment answers to a call made in state [st], and the
    state the call leaves. *)
Definition answer {X : Type} (e : ExtEvent X) (st : State) : X :=
  fst (handle X e (world st)).
Definition after {X : Type} (e : ExtEvent X) (st : State) : State :=
  {| world := snd (handle X e (world st)); viteServers := viteServers st |}.

Definition step {X : Type} (e : Event X) (st : State) : X * State :=
  match e in Event X return X * State with
  | Ext e' => (answer e' st, after e' st)
  | Console _ _ _ => (tt, st)
  | GetServer name => (lookup_slot (viteServers st) name, st)
  | SetServer name s =>
      (tt, {| world := world st; viteServers := <[name := s]> (viteServers st) |})
  end.

Record Run (A : Type) := { value : A; trace : list Obs; final : State }.
Arguments value {A} r.
Arguments trace {A} r.
Arguments final {A} r.

(** Run a program to completion. *)
Fixpoint run {A : Type} (p : Prog A) (st : State) : Run A :=
  match p with
  | Ret a => {| value := a; trace := []; final := st |}
  | Vis e k =>
      let r := step e st in
      let rest := run (k (fst r)) (snd r) in
      {| value := value rest;
         trace := Observed e (fst r) :: trace rest;
         final := final rest |}
  end.

(** *** Interleaved requests

    An [async] function runs synchronously up to its next [await]; only
    there can another request run. The awaited operations of the source are
    [execCommand], [vite.createServer], [fs.promises.readFile] and
    [server.transformIndexHtml]. *)
Definition is_await {X : Type} (e : Event X) : bool :=
  match e with
  | Ext e' =>
      match e' with
      | ExecCommand _ _ | CreateServer _ | ReadFile _
      | TransformIndexHtml _ _ _ _ => true
      | _ => false
      end
  | _ => false
  end.

(** Run up to the next awaited operation (not performed) or to the end. *)
Fixpoint advance {A : Type} (p : Prog A) (st : State) : Run (Prog A) :=
  match p with
  | Ret a => {| value := p; trace := []; final := st |}
  | Vis e k =>
      if is_await e then {| value := p; trace := []; final := st |}
      else
        let r := step e st in
        let rest := advance (k (fst r)) (snd r) in
        {| value := value rest;
           trace := Observed e (fst r) :: trace rest;
           final := final rest |}
  end.

(** Perform the awaited operation a request is suspended on and continue
    to its next one. *)
Definition resume {A : Type} (p : Prog A) (st : State) : Run (Prog A) :=
  match p with
  | Ret a => {| value := p; trace := []; final := st |}
  | Vis e k =>
      let r := step e st in
      let rest := advance (k (fst r)) (snd r) in
      {| value := value rest;
         trace := Observed e (fst r) :: trace rest;
         final := final rest |}
  end.

(** The requests in flight, each suspended or finished, the observations so
    far and the shared state. *)
Record Pool := {
  requests : list (Prog Response);
  observed : list Obs;
  shared : State
}.

Inductive Action :=
| Arrive (req : Request)     (* a request reaches the middleware *)
| Resume (i : nat).          (* the awaited operation of request [i] settles *)

Definition act (cwd repoPath : string) (pl : Pool) (a : Action) : Pool :=
  match a with
  | Arrive req =>
      let r := advance (main_middleware cwd repoPath req) (shared pl) in
      {| requests := requests pl ++ [value r];
         observed := observed pl ++ trace r;
         shared := final r |}
  | Resume i =>
      match requests pl !! i with
      | Some p =>
          let r := resume p (shared pl) in
          {| requests := <[i := value r]> (requests pl);
             observed := observed pl ++ trace r;
             shared := final r |}
      | None => pl
      end
  end.

Definition schedule (cwd repoPath : string) (st : State) (acts : list Action)
  : Pool :=
  fold_left (act cwd repoPath) acts
    {| requests := []; observed := []; shared := st |}.

(** The response of request [i], once it has finished. *)
Definition response (pl : Pool) (i : nat) : option Response :=
  match requests pl !! i with
  | Some (Ret r) => Some r
  | _ => None
  end.

End Semantics.

Arguments world {W} s.
Arguments viteServers {W} s.
Arguments value {W A} r.
Arguments trace {W A} r.
Arguments final {W A} r.
Arguments requests {W} p.
Arguments observed {W} p.
Arguments shared {W} p.
Arguments answer {W} handle {X} e st : simpl never.
Arguments after {W} handle {X} e st : simpl never.
Arguments step {W} handle {X} e st.
Arguments run {W} handle {A} p st.
Arguments advance {W} handle {A} p st.
Arguments resume {W} handle {A} p st.
Arguments act {W} handle cwd repoPath pl a.
Arguments schedule {W} handle cwd repoPath st acts.
Arguments response {W} pl i.

(** ** Properties of every run

    [Ensures p Q]: whatever the environment answers, the observations [t] and
    the value [a] of a run of [p] satisfy [Q t a]. *)
Fixpoint Ensures {A : Type} (p : Prog A) (Q : list Obs -> A -> Prop) : Prop :=
  match p with
  | Ret a => Q [] a
  | Vis e k => forall x, Ensures (k x) (fun t a => Q (Observed e x :: t) a)
  end.

(** ** A reference environment

    A small scripted repository and file system, used to run the program on
    concrete inputs. What [git worktree list] prints and what
    [git rev-parse --abbrev-ref HEAD] prints are independent fields, so any
    pair of tool outputs can be scripted. *)
Module Sim.

Record Env := {
  list_ok : bool;                              (* does the listing succeed? *)
  worktrees : list (string * option string);   (* listed path, bound branch *)
  inside_work_tree : bool;
  head : option string;                        (* branch of the primary copy *)
  branches : list string;                      (* existing refs/heads/... *)
  base_ok : bool;                              (* is the base branch a commit? *)
  pnpm_ok : bool;
  dirs : list (string * list string);          (* directories, their entries *)
  files : list (string * string);              (* files, their contents *)
  vite_ok : bool;
  next_instance : nat
}.

Definition ok (out : string) : Try ExecRejection ExecOutput :=
  Returned {| stdout := out; stderr := "" |}.

Definition fail (err : string) : Try ExecRejection ExecOutput :=
  Raised {| rej_error := "Command failed"; rej_stderr := err |}.

Definition render_entry (e : string * option string) : string :=
  "worktree " ++ fst e ++ Js.LF ++ "HEAD 0000000000000000000000000000000000000000"
  ++ Js.LF
  ++ match snd e with
     | Some b => "branch refs/heads/" ++ b
     | None => "detached"
     end
  ++ Js.LF ++ Js.LF.

Definition render_list (l : list (string * option string)) : string :=
  String.concat "" (map render_entry l).

Definition mem (x : string) (l : list string) : bool := existsb (String.eqb x) l.

Fixpoint assoc {A : Type} (k : string) (l : list (string * A)) : option A :=
  match l with
  | [] => None
  | (k', v) :: rest => if (k =? k')%string then Some v else assoc k rest
  end.

Definition checked_out (b : string) (e : Env) : bool :=
  existsb (fun w => match snd w with
                    | Some b' => (b =? b')%string
                    | None => false
                    end) (worktrees e).

Definition occupied (p : string) (e : Env) : bool :=
  match assoc p (dirs e) with
  | Some (_ :: _) => true
  | _ => false
  end.

Definition add_worktree (p b : string) (e : Env) : Env :=
  {| list_ok := list_ok e;
     worktrees := worktrees e ++ [(p, Some b)];
     inside_work_tree := inside_work_tree e;
     head := head e;
     branches := if mem b (branches e) then branches e else branches e ++ [b];
     base_ok := base_ok e;
     pnpm_ok := pnpm_ok e;
     dirs := (p, [".git"; "index.html"]) :: dirs e;
     files := (p ++ "/index.html", "<html></html>") :: files e;
     vite_ok := vite_ok e;
     next_instance := next_instance e |}.

Definition make_dir (p : string) (e : Env) : Env :=
  {| list_ok := list_ok e;
     worktrees := worktrees e;
     inside_work_tree := inside_work_tree e;
     head := head e;
     branches := branches e;
     base_ok := base_ok e;
     pnpm_ok := pnpm_ok e;
     dirs := dirs e ++ [(p, [])];
     files := files e;
     vite_ok := vite_ok e;
     next_instance := next_instance e |}.

Definition bump (e : Env) : Env :=
  {| list_ok := list_ok e;
     worktrees := worktrees e;
     inside_work_tree := inside_work_tree e;
     head := head e;
     branches := branches e;
     base_ok := base_ok e;
     pnpm_ok := pnpm_ok e;
     dirs := dirs e;
     files := files e;
     vite_ok := vite_ok e;
     next_instance := S (next_instance e) |}.

Definition exec (c : string) (e : Env) : Try ExecRejection ExecOutput * Env :=
  if (c =? list_cmd)%string then
    ((if list_ok e then ok (render_list (worktrees e))
      else fail "fatal: not a git repository"), e)
  else if (c =? "git rev-parse --is-inside-work-tree")%string then
    (ok ((if inside_work_tree e then "true" else "false") ++ Js.LF), e)
  else if (c =? "git rev-parse --abbrev-ref HEAD")%string then
    (ok (match head e with Some b => b | None => "HEAD" end ++ Js.LF), e)
  else if (c =? verify_cmd)%string then
    ((if base_ok e then ok ("0000000000000000000000000000000000000000" ++ Js.LF)
      else fail "fatal: Needed a single revision"), e)
  else if Js.startsWith "git show-ref --verify --quiet refs/heads/" c then
    let b := Js.substring (String.length "git show-ref --verify --quiet refs/heads/") c in
    ((if mem b (branches e) then ok "" else fail ""), e)
  else if Js.startsWith "git worktree add -b " c then
    match Js.split " " (Js.substring (String.length "git worktree add -b ") c) with
    | [b; p; _] =>
        if mem b (branches e)
        then (fail ("fatal: a branch named '" ++ b ++ "' already exists"), e)
        else if occupied p e
        then (fail ("fatal: '" ++ p ++ "' already exists"), e)
        else (ok "", add_worktree p b e)
    | _ => (fail "usage: git worktree add", e)
    end
  else if Js.startsWith "git worktree add " c then
    match Js.split " " (Js.substring (String.length "git worktree add ") c) with
    | [p; b] =>
        if checked_out b e
        then (fail ("fatal: '" ++ b ++ "' is already checked out"), e)
        else if occupied p e
        then (fail ("fatal: '" ++ p ++ "' already exists"), e)
        else (ok "", add_worktree p b e)
    | _ => (fail "usage: git worktree add", e)
    end
  else if (c =? pnpm_cmd)%string then
    ((if pnpm_ok e then ok "Done" else fail "ERR_PNPM_NO_PKG_MANIFEST"), e)
  else (fail "command not found", e).

Definition enoent (p : string) : JsErr :=
  {| err_name := "Error";
     err_message := "ENOENT: no such file or directory, '" ++ p ++ "'" |}.

Definition handle (X : Type) (ev : ExtEvent X) (e : Env) : X * Env :=
  match ev in ExtEvent X return X * Env with
  | ExecCommand c _ => exec c e
  | ExistsSync p =>
      (match assoc p (dirs e) with Some _ => true | None => false end, e)
  | ReaddirSync p =>
      (match assoc p (dirs e) with
       | Some entries => Returned entries
       | None => Raised (enoent p)
       end, e)
  | MkdirSync p =>
      (Returned tt,
       match assoc p (dirs e) with Some _ => e | None => make_dir p e end)
  | CreateServer _ =>
      if vite_ok e then (Returned (next_instance e), bump e)
      else (Raised {| err_name := "Error"; err_message := "failed to load config" |}, e)
  | ReadFile p =>
      (match assoc p (files e) with
       | Some content => Returned content
       | None => Raised (enoent p)
       end, e)
  | TransformIndexHtml _ _ html _ => (Returned html, e)
  | SsrFixStacktrace _ _ => (tt, e)
  end.

(** A repository at [/home/u/repo] on branch [main], no linked worktree. *)
Definition fresh : Env :=
  {| list_ok := true;
     worktrees := [("/home/u/repo", Some "main")];
     inside_work_tree := true;
     head := Some "main";
     branches := ["main"];
     base_ok := true;
     pnpm_ok := true;
     dirs := [("/home/u/repo", [".git"; "index.html"; "package.json"])];
     files := [("/home/u/repo/index.html", "<html></html>")];
     vite_ok := true;
     next_instance := 0 |}.

Definition start (e : Env) : State Env :=
  {| world := e; viteServers := ∅ |}.

Definition run {A : Type} (p : Prog A) (e : Env) : Run Env A :=
  run handle p (start e).

(** The branch of [feature1] is checked out at [/X]. *)
Definition branch_elsewhere : Env :=
  {| list_ok := true;
     worktrees := [("/home/u/repo", Some "main"); ("/X", Some "feature1-branch")];
     inside_work_tree := true;
     head := Some "main";
     branches := ["main"; "feature1-branch"];
     base_ok := true;
     pnpm_ok := true;
     dirs := [("/home/u/repo", [".git"; "index.html"]); ("/X", [".git"])];
     files := [];
     vite_ok := true;
     next_instance := 0 |}.

(** The target directory of [feature1] exists and holds [entries]. *)
Definition with_target (entries : list string) : Env :=
  {| list_ok := true;
     worktrees := [("/home/u/repo", Some "main")];
     inside_work_tree := true;
     head := Some "main";
     branches := ["main"];
     base_ok := true;
     pnpm_ok := true;
     dirs := [("/home/u/repo", [".git"; "index.html"]);
              ("/home/u/repo-worktrees", ["feature1"]);
              ("/home/u/repo-worktrees/feature1", entries)];
     files := [];
     vite_ok := true;
     next_instance := 0 |}.

(** [main] is not a commit (a repository without commits on it). *)
Definition no_base : Env :=
  {| list_ok := true;
     worktrees := [("/home/u/repo", Some "trunk")];
     inside_work_tree := true;
     head := Some "trunk";
     branches := ["trunk"];
     base_ok := false;
     pnpm_ok := true;
     dirs := [("/home/u/repo", [".git"; "index.html"])];
     files := [];
     vite_ok := true;
     next_instance := 0 |}.

(** [pnpm install] fails everywhere. *)
Definition no_pnpm : Env :=
  {| list_ok := true;
     worktrees := [("/home/u/repo", Some "main")];
     inside_work_tree := true;
     head := Some "main";
     branches := ["main"];
     base_ok := true;
     pnpm_ok := false;
     dirs := [("/home/u/repo", [".git"; "index.html"])];
     files := [("/home/u/repo/index.html", "<html></html>")];
     vite_ok := true;
     next_instance := 0 |}.

(** The listing succeeds and shows no entry bound to [feature1-branch],
    while [git rev-parse --abbrev-ref HEAD] prints [feature1-branch]. *)
Definition primary_on_branch (listing : bool) : Env :=
  {| list_ok := listing;
     worktrees := [("/home/u/elsewhere", None)];
     inside_work_tree := true;
     head := Some "feature1-branch";
     branches := ["main"; "feature1-branch"];
     base_ok := true;
     pnpm_ok := true;
     dirs := [("/home/u/repo", [".git"; "index.html"])];
     files := [];
     vite_ok := true;
     next_instance := 0 |}.

Definition request (name : string) : Request :=
  {| req_worktree := name; req_path := "/";
     req_originalUrl := "/" ++ name ++ "/" |}.

(** Two requests for [feature1] arrive before either has finished; their
    awaited operations then settle in turn. *)
Definition two_requests : list Action :=
  [Arrive (request "feature1"); Arrive (request "feature1");
   Resume 0; Resume 1; Resume 0; Resume 1; Resume 0; Resume 1;
   Resume 0; Resume 1; Resume 0; Resume 1;
   Resume 0; Resume 0; Resume 0; Resume 0].

End Sim.


(** ** Vocabulary of the properties *)

Definition is_created (o : Outcome) : bool :=
  match o with Created _ => true | _ => false end.

(** The conflict failures: the branch or the path is taken, the directory is
    occupied, or the base branch is unusable. *)
Definition is_conflict (o : Outcome) : bool :=
  match o with
  | BranchCheckedOutElsewhere _ | PathOccupiedByOtherBranch _
  | NonEmptyDirectory | InvalidBaseBranch _ => true
  | _ => false
  end.

(** A [mkdirSync] of the directory [dir]. *)
Definition obs_mkdir_at (dir : string) (o : Obs) : bool :=
  match o with
  | Observed e _ =>
      match e with
      | Ext e' => match e' with MkdirSync p => (p =? dir)%string | _ => false end
      | _ => false
      end
  end.

(** The [console.error] that reports a failed dependency installation. *)
Definition install_failure_logged (t : list Obs) : bool :=
  existsb (fun o => match obs_console LevelError o with
                    | Some m =>
                        Js.startsWith "[createWorktree] Error running pnpm install: " m
                    | None => false
                    end) t.

(** No mutating operation at all. *)
Definition inert (t : list Obs) : bool :=
  forallb (fun o => negb (obs_mutating o)) t.

(** No mutating operation but creating the directory [dir]. *)
Definition only_mkdir (dir : string) (t : list Obs) : bool :=
  forallb (fun o => negb (obs_mutating o) || obs_mkdir_at dir o) t.

(** Once [git worktree add] has resolved the outcome is [Created], and a
    rejected installation has been logged. *)
Definition best_effort_install (t : list Obs) (o : Outcome) : bool :=
  implb (existsb obs_created t)
    (is_created o
     && implb (existsb obs_install_failed t) (install_failure_logged t)).

(** What has been mutated when an attempt ends in a conflict failure. *)
Definition conflict_discipline (dir : string) (t : list Obs) (o : Outcome) : bool :=
  match o with
  | BranchCheckedOutElsewhere _ | PathOccupiedByOtherBranch _ | NonEmptyDirectory =>
      inert t
  | InvalidBaseBranch _ => only_mkdir dir t
  | _ => true
  end.

(** Both, for the [try] block: a raised value means no worktree was added. *)
Definition attempt_ok (dir : string) (t : list Obs) (r : Try Thrown Outcome) : bool :=
  match r with
  | Returned o => best_effort_install t o && conflict_discipline dir t o
  | Raised _ => negb (existsb obs_created t)
  end.

(** The results that remain possible after the occupancy check. *)
Definition late (r : Try Thrown Outcome) : bool :=
  match r with
  | Returned (InvalidBaseBranch _) | Returned (Created _) | Raised _ => true
  | _ => false
  end.

(** Path segments that [normalizeString] keeps as they are. *)
Record plain_segment (n : string) : Prop := {
  seg_no_slash :
    forallb (fun c => negb (Ascii.eqb c NodePath.slash)) (list_ascii_of_string n) = true;
  seg_nonempty : n <> "";
  seg_not_dot : n <> ".";
  seg_not_dotdot : n <> "..";
  seg_first : NodePath.isAbsolute n = false;
  seg_last : forall a, NodePath.trailingSeparator (a ++ n) = false
}.

(** The text [normalizeString] puts before a plain last segment. *)
Definition stem (allow : bool) (d : string) : string :=
  match rev (NodePath.normalize_segments allow d) with
  | [] => ""
  | l => String.concat "/" l ++ "/"
  end.

(** The text [path.join] puts before a plain last argument. *)
Definition join_stem (d : string) : string :=
  if (d =? "")%string then ""
  else (if NodePath.isAbsolute d then "/" else "")
       ++ stem (negb (NodePath.isAbsolute d)) d.

(** A write to [viteServers]. *)
Definition obs_set (o : Obs) : option (string * ViteServer) :=
  match o with
  | Observed e _ =>
      match e with
      | SetServer name s => Some (name, s)
      | _ => None
      end
  end.

(** An observation that does not touch [viteServers]. *)
Definition obs_local (o : Obs) : bool :=
  match o with
  | Observed e _ =>
      match e with
      | GetServer _ | SetServer _ _ => false
      | _ => true
      end
  end.

(** [viteServers] after the writes of a trace. *)
Definition registry_after (t : list Obs) (m : gmap string ViteServer)
  : gmap string ViteServer :=
  fold_left (fun m o => match obs_set o with
                        | Some (name, s) => <[name := s]> m
                        | None => m
                        end) t m.

(** The configuration the middleware builds for a workspace. *)
Definition config_for (repoPath name : string) : ViteConfig :=
  {| cfg_root := if (name =? "main")%string then repoPath
                 else NodePath.join [getWorktreesDir repoPath; name];
     cfg_base := "/" ++ name ++ "/";
     cfg_fs_allow := [repoPath; getWorktreesDir repoPath] |}.

(** The registry as the middleware leaves it: servers are stored under valid
    names, each with the configuration of its workspace. *)
Definition registry_wf (repoPath : string) (m : gmap string ViteServer) : Prop :=
  forall name s,
    m !! name = Some s ->
    isValidWorktreeName name = true /\ server_config s = config_for repoPath name.

(** A write that keeps the registry well formed. *)
Definition set_ok (repoPath : string) (o : Obs) : Prop :=
  forall name s,
    obs_set o = Some (name, s) ->
    isValidWorktreeName name = true /\ server_config s = config_for repoPath name.

(** The only write of [main_ensure_server] stores, under the name it was
    called with, a server built from the root and base it was called with. *)
Definition stores (worktree : string) (cfg : ViteConfig) (o : Obs) : Prop :=
  forall name s,
    obs_set o = Some (name, s) -> name = worktree /\ server_config s = cfg.

(** The process and the repository of the concrete runs. *)
Definition cwd0 : string := "/home/u/repo".
Definition repo0 : string := "/home/u/repo".

(** ** Canonical paths *)

(** A segment [normalizeString] keeps: not empty, not [.], without slash. *)
Definition seg_clean (s : string) : bool :=
  negb (s =? "")%string && negb (s =? ".")%string
  && forallb (fun c => negb (Ascii.eqb c NodePath.slash)) (list_ascii_of_string s).

(** The stacks [normalizeString] builds, last segment first: clean segments,
    with [..] only at the bottom and only when going above the root is
    allowed. *)
Fixpoint good_stack (allow : bool) (stack : list string) : bool :=
  match stack with
  | [] => true
  | top :: rest =>
      seg_clean top
      && (if (top =? "..")%string
          then allow && forallb (String.eqb "..") rest
          else true)
      && good_stack allow rest
  end.

(** An absolute path in the form [path.resolve] returns. *)
Definition resolved_form (p : string) : Prop :=
  exists stack,
    good_stack false stack = true /\ p = "/" ++ String.concat "/" (rev stack).

(** A normalised path with at least one segment, absolute or not. *)
Definition canonical_form (p : string) : Prop :=
  exists (abs : bool) (stack : list string),
    stack <> [] /\ good_stack (negb abs) stack = true
    /\ p = (if abs then "/" else "") ++ String.concat "/" (rev stack).

(** A run of characters without a slash. *)
Definition no_slash (l : list ascii) : Prop :=
  forallb (fun c => negb (NodePath.is_slash c)) l = true.

(** The commands an attempt for [name] may run, each with the directory it
    runs in. *)
Definition attempt_commands (repoPath name : string) : list (string * string) :=
  let branch := branchForWorktree name in
  let target := targetWorktreePath repoPath name in
  [ (list_cmd, repoPath);
    ("git rev-parse --is-inside-work-tree", repoPath);
    ("git rev-parse --abbrev-ref HEAD", repoPath);
    (verify_cmd, repoPath);
    (show_ref_cmd branch, repoPath);
    (add_new_branch_cmd branch target, repoPath);
    (add_existing_branch_cmd branch target, repoPath);
    (pnpm_cmd, target) ].

(** Every command of the trace [t] is one of [cmds]. *)
Definition runs_only (cmds : list (string * string)) (t : list Obs) : Prop :=
  Forall (fun c => In c cmds) (omap obs_exec t).

(** The operations of an attempt that change something, in the order they
    were made: [mkdirSync], a [git worktree add] that resolved or rejected,
    [pnpm install]. *)
Inductive Mutation :=
| Mkdir (dir : string)
| AddResolved
| AddRejected
| Install (dir : string).

Definition obs_mutation (o : Obs) : option Mutation :=
  match o with
  | Observed e x =>
      match e in Event X return X -> option Mutation with
      | Ext e' =>
          match e' in ExtEvent X return X -> option Mutation with
          | ExecCommand c d =>
              fun r =>
                if is_creation_command c then
                  Some (match r with
                        | Returned _ => AddResolved
                        | Raised _ => AddRejected
                        end)
                else if (c =? pnpm_cmd)%string then Some (Install d)
                else None
          | MkdirSync p => fun _ => Some (Mkdir p)
          | _ => fun _ => None
          end
      | _ => fun _ => None
      end x
  end.

Definition mutations (t : list Obs) : list Mutation := omap obs_mutation t.

(** The sequences of mutations an attempt for [name] can make. *)
Definition protocol (repoPath name : string) : list (list Mutation) :=
  let mk := Mkdir (getWorktreesDir repoPath) in
  let install := Install (targetWorktreePath repoPath name) in
  [ []; [AddRejected]; [AddResolved; install];
    [mk]; [mk; AddRejected]; [mk; AddResolved; install] ].

Definition try_created (r : Try Thrown Outcome) : bool :=
  match r with Returned o => is_created o | Raised _ => false end.

(** What follows the base branch check: nothing, a rejected
    [git worktree add], or a resolved one and the installation. *)
Definition add_protocol (target : string) (ms : list Mutation) (created : bool)
  : Prop :=
  (ms = [] /\ created = false)
  \/ (ms = [AddRejected] /\ created = false)
  \/ (ms = [AddResolved; Install target] /\ created = true).

(** The same after an optional [mkdirSync] of the worktrees directory. *)
Definition attempt_protocol (repoPath name : string) (ms : list Mutation)
    (created : bool) : Prop :=
  add_protocol (targetWorktreePath repoPath name) ms created
  \/ exists ms',
       ms = Mkdir (getWorktreesDir repoPath) :: ms'
       /\ add_protocol (targetWorktreePath repoPath name) ms' created.

(** The events of provisioning: console output, shell commands and the
    synchronous file-system calls. *)
Definition obs_provisioning (o : Obs) : bool :=
  match o with
  | Observed e _ =>
      match e with
      | Console _ _ _ => true
      | Ext e' =>
          match e' with
          | ExecCommand _ _ | ExistsSync _ | ReaddirSync _ | MkdirSync _ => true
          | _ => false
          end
      | _ => false
      end
  end.

(** The statuses the middleware answers with when it answers itself. *)
Definition response_status (r : Response) : option nat :=
  match r with
  | Json status _ _ | Html status _ => Some status
  | _ => None
  end.

(** The files read with [fs.promises.readFile]. *)
Definition obs_read (o : Obs) : option string :=
  match o with
  | Observed e _ =>
      match e with
      | Ext e' => match e' with ReadFile p => Some p | _ => None end
      | _ => None
      end
  end.

(** A write to [viteServers] under the name [name] only. *)
Definition writes_only (name : string) (o : Obs) : Prop :=
  forall n s, obs_set o = Some (n, s) -> n = name.

(** A text without a line feed. *)
Definition line_text (s : string) : bool :=
  forallb (fun c => negb (Ascii.eqb c (ascii_of_nat 10))) (list_ascii_of_string s).

(** A text without an empty line that does not end in a line feed. *)
Fixpoint entry_text (s : string) : bool :=
  match s with
  | EmptyString => true
  | String c rest =>
      (if Ascii.eqb c (ascii_of_nat 10)
       then match rest with
            | String c' _ => negb (Ascii.eqb c' (ascii_of_nat 10))
            | EmptyString => false
            end
       else true)
      && entry_text rest
  end.

(** One record of [git worktree list --porcelain]: the path of a checkout,
    the commit it is at, and its branch unless it is detached. *)
Record Worktree := {
  wt_path : string;
  wt_head : string;
  wt_branch : option string
}.

(** The lines of a record, without the empty line that ends it. *)
Definition entry_body (w : Worktree) : string :=
  "worktree " ++ wt_path w ++ Js.LF ++ "HEAD " ++ wt_head w ++ Js.LF
  ++ match wt_branch w with
     | Some b => "branch refs/heads/" ++ b
     | None => "detached"
     end.

(** What the command prints for the checkouts [l]. *)
Definition porcelain (l : list Worktree) : string :=
  String.concat "" (map (fun w => entry_body w ++ Js.LF ++ Js.LF) l).

(** The branch text the scans read from a record. *)
Definition entry_branch (w : Worktree) : string :=
  match wt_branch w with Some b => b | None => "" end.


(** Records whose path, commit and branch fit on a line. *)
Definition listing_ok (l : list Worktree) : bool :=
  forallb (fun w => line_text (wt_path w) && line_text (wt_head w)
                    && line_text (entry_branch w)) l.

(** The reads of [viteServers], the results [transformIndexHtml] returned
    and the errors handed to [ssrFixStacktrace]. *)
Definition obs_get (o : Obs) : option (string * Slot) :=
  match o with
  | Observed e x =>
      match e in Event X return X -> option (string * Slot) with
      | GetServer name => fun slot => Some (name, slot)
      | _ => fun _ => None
      end x
  end.

Definition obs_transformed (o : Obs) : option string :=
  match o with
  | Observed e x =>
      match e in Event X return X -> option string with
      | Ext e' =>
          match e' in ExtEvent X return X -> option string with
          | TransformIndexHtml _ _ _ _ =>
              fun r => match r with Returned template => Some template
                                    | Raised _ => None end
          | _ => fun _ => None
          end
      | _ => fun _ => None
      end x
  end.

Definition obs_fixed (o : Obs) : option (ViteServer * JsErr) :=
  match o with
  | Observed e _ =>
      match e with
      | Ext e' => match e' with SsrFixStacktrace s err => Some (s, err) | _ => None end
      | _ => None
      end
  end.

(** How [main_serve] may end for the workspace [worktree]: with the page
    [transformIndexHtml] returned, or with the error handed to [next], which
    went through [ssrFixStacktrace] when the name has a server. *)
Definition serve_ok (worktree : string) (t : list Obs) (v : Response) : Prop :=
  exists slot,
    omap obs_get t = [(worktree, slot)]
    /\ match v with
       | Html status body => status = 200 /\ omap obs_transformed t = [body]
       | NextError e =>
           omap obs_transformed t = []
           /\ omap obs_fixed t
              = match slot with OwnServer s => [(s, e)] | _ => [] end
       | _ => False
       end.

Definition rev_parse_cmds (repoPath : string) : list (string * string) :=
  [("git rev-parse --is-inside-work-tree", repoPath);
   ("git rev-parse --abbrev-ref HEAD", repoPath)].

(** A repository in which [vite.createServer] fails. *)
Definition no_vite : Sim.Env :=
  {| Sim.list_ok := true;
     Sim.worktrees := [("/home/u/repo", Some "main")];
     Sim.inside_work_tree := true;
     Sim.head := Some "main";
     Sim.branches := ["main"];
     Sim.base_ok := true;
     Sim.pnpm_ok := true;
     Sim.dirs := [("/home/u/repo", [".git"; "index.html"; "package.json"])];
     Sim.files := [("/home/u/repo/index.html", "<html></html>")];
     Sim.vite_ok := false;
     Sim.next_instance := 0 |}.

(** * Properties *)

Example dirname_samples :
  map NodePath.dirname ["/home/u/repo"; "/repo"; "repo"; "a/b/"; "/"; "//a"; "a//b"; ""]
  = ["/home/u"; "/"; "."; "a"; "/"; "//"; "a/"; "."].
Proof. reflexivity. Qed.

Example basename_samples :
  map NodePath.basename ["/home/u/repo"; "/repo/"; "repo"; "/"; ""]
  = ["repo"; "repo"; "repo"; ""; ""].
Proof. reflexivity. Qed.

Example join_samples :
  map NodePath.join [["/a"; "b"]; ["/a/"; "../b"]; [""; "x"]; ["a"; ".."]; ["/"; ".."]; ["../x"; "y/"]]
  = ["/a/b"; "/b"; "x"; "."; "/"; "../x/y/"].
Proof. reflexivity. Qed.

Example resolve_samples :
  map (NodePath.resolve "/cwd") [["/a/b/"]; ["x"]; [""]; ["/a"; "index.html"]; ["/a/../.."]]
  = ["/a/b"; "/cwd/x"; "/cwd"; "/a/index.html"; "/"].
Proof. reflexivity. Qed.

Example split_samples :
  Js.split (Js.LF ++ Js.LF) ("a" ++ Js.LF ++ Js.LF ++ Js.LF ++ "b" ++ Js.LF ++ Js.LF)
  = ["a"; Js.LF ++ "b"; ""].
Proof. reflexivity. Qed.

Example getWorktreesDir_sample :
  getWorktreesDir "/home/u/repo" = "/home/u/repo-worktrees"
  /\ targetWorktreePath "/home/u/repo" "feature1" = "/home/u/repo-worktrees/feature1".
Proof. split; reflexivity. Qed.


(** ** Strings and paths *)

Lemma append_cons (c : ascii) (a b : string) : String c a ++ b = String c (a ++ b).
Proof. reflexivity. Qed.

Lemma append_empty_l (s : string) : "" ++ s = s.
Proof. reflexivity. Qed.

Lemma append_empty_r (s : string) : s ++ "" = s.
Proof.
  induction s as [|c s IH]; [reflexivity |].
  rewrite append_cons, IH. reflexivity.
Qed.

Lemma append_assoc (a b c : string) : (a ++ b) ++ c = a ++ (b ++ c).
Proof.
  induction a as [|x a IH]; [reflexivity |].
  rewrite !append_cons, IH. reflexivity.
Qed.

Lemma append_length (a b : string) :
  String.length (a ++ b) = String.length a + String.length b.
Proof.
  induction a as [|x a IH]; [reflexivity |].
  rewrite append_cons. cbn [String.length]. rewrite IH. reflexivity.
Qed.

Lemma append_inj_l (a b c : string) : a ++ b = a ++ c -> b = c.
Proof.
  induction a as [|x a IH]; intros H; [exact H |].
  rewrite !append_cons in H. injection H as H. auto.
Qed.

Lemma append_inj_r (a b c : string) : a ++ c = b ++ c -> a = b.
Proof.
  revert b. induction a as [|x a IH]; intros [|y b] H.
  - reflexivity.
  - exfalso. apply (f_equal String.length) in H.
    rewrite !append_length in H. cbn [String.length] in H. lia.
  - exfalso. apply (f_equal String.length) in H.
    rewrite !append_length in H. cbn [String.length] in H. lia.
  - rewrite !append_cons in H. injection H as -> H. f_equal. auto.
Qed.

Lemma append_nonempty_r (a n : string) : n <> "" -> a ++ n <> "".
Proof. destruct a; [auto | discriminate]. Qed.

Module PathFacts.
Import NodePath.

Lemma split_char_nonempty (sep : ascii) (s : string) : split_char sep s <> [].
Proof.
  induction s as [|c s IH]; simpl; [discriminate |].
  destruct (Ascii.eqb c sep); [discriminate |].
  destruct (split_char sep s); [contradiction | discriminate].
Qed.

Lemma split_char_app (sep : ascii) (a b : string) :
  split_char sep (a ++ String sep b)
  = (split_char sep a ++ split_char sep b)%list.
Proof.
  induction a as [|c a IH].
  - rewrite append_empty_l. cbn [split_char].
    rewrite Ascii.eqb_refl. reflexivity.
  - rewrite append_cons. cbn [split_char].
    destruct (Ascii.eqb c sep); [rewrite IH; reflexivity |].
    rewrite IH. pose proof (split_char_nonempty sep a) as Hne.
    destruct (split_char sep a); [contradiction | reflexivity].
Qed.

(** A string without separator is a single piece. *)
Lemma split_char_single (sep : ascii) (s : string) :
  forallb (fun c => negb (Ascii.eqb c sep)) (list_ascii_of_string s) = true ->
  split_char sep s = [s].
Proof.
  induction s as [|c s IH]; cbn; [reflexivity |].
  intros H. apply andb_prop in H as [Hc Hs].
  destruct (Ascii.eqb c sep); [discriminate |].
  rewrite (IH Hs). reflexivity.
Qed.

Lemma concat_snoc (sep : string) (l : list string) (n : string) :
  String.concat sep (l ++ [n])%list
  = match l with
    | [] => n
    | _ => String.concat sep l ++ sep ++ n
    end.
Proof.
  induction l as [|x l IH]; [reflexivity |].
  destruct l as [|y l]; [reflexivity |].
  change (String.concat sep ((x :: y :: l) ++ [n])%list)
    with (x ++ sep ++ String.concat sep ((y :: l) ++ [n])%list).
  rewrite IH.
  change (String.concat sep (x :: y :: l))
    with (x ++ sep ++ String.concat sep (y :: l)).
  rewrite !append_assoc. reflexivity.
Qed.

Lemma name_char_not_slash (c : ascii) :
  is_name_char c = true -> Ascii.eqb c slash = false.
Proof.
  intros H. destruct (Ascii.eqb_spec c slash) as [-> | ]; [| reflexivity].
  vm_compute in H. discriminate.
Qed.

Lemma last_char_app (a : string) (c : ascii) (n : string) :
  last_char (a ++ String c n) = last_char (String c n).
Proof.
  induction a as [|x a IH]; [reflexivity |].
  rewrite append_cons.
  change (last_char (String x (a ++ String c n)))
    with (match a ++ String c n with
          | EmptyString => Some x
          | _ => last_char (a ++ String c n)
          end).
  rewrite IH. destruct a; reflexivity.
Qed.

Lemma last_char_name (n : string) (c : ascii) :
  forallb is_name_char (list_ascii_of_string n) = true ->
  last_char n = Some c -> is_name_char c = true.
Proof.
  induction n as [|x n IH]; [discriminate |].
  cbn [list_ascii_of_string forallb]. intros H Hl.
  apply andb_prop in H as [Hx Hn].
  destruct n as [|y n]; [injection Hl as <-; exact Hx |].
  apply IH; [exact Hn | exact Hl].
Qed.

(** A valid workspace name is a plain path segment. *)
Lemma valid_name_segment (n : string) :
  isValidWorktreeName n = true -> plain_segment n.
Proof.
  unfold isValidWorktreeName. intros H.
  destruct n as [|c n]; [discriminate |].
  cbn [list_ascii_of_string] in H.
  assert (Hall : forallb is_name_char (list_ascii_of_string (String c n)) = true)
    by exact H.
  cbn [list_ascii_of_string forallb] in H. apply andb_prop in H as [Hc Hn].
  split.
  - clear Hc Hn. revert Hall. generalize (String c n). intros s.
    induction s as [|x s IH]; [reflexivity |].
    cbn [list_ascii_of_string forallb]. intros H.
    apply andb_prop in H as [Hx Hs].
    rewrite (name_char_not_slash _ Hx), (IH Hs). reflexivity.
  - discriminate.
  - intros E. injection E as -> _. vm_compute in Hc. discriminate.
  - intros E. injection E as -> _. vm_compute in Hc. discriminate.
  - cbn. exact (name_char_not_slash _ Hc).
  - intros a. unfold trailingSeparator. rewrite last_char_app.
    destruct (last_char (String c n)) as [x|] eqn:E; [| reflexivity].
    exact (name_char_not_slash _ (last_char_name _ _ Hall E)).
Qed.

Lemma normalize_step_plain (allow : bool) (stack : list string) (n : string) :
  plain_segment n -> normalize_step allow stack n = n :: stack.
Proof.
  intros [_ H0 H1 H2 _ _]. unfold normalize_step.
  apply String.eqb_neq in H0, H1, H2. rewrite H0, H1, H2. reflexivity.
Qed.

Lemma normalizeString_snoc (allow : bool) (d n : string) :
  plain_segment n ->
  normalizeString (d ++ "/" ++ n) allow = stem allow d ++ n.
Proof.
  intros Hn. unfold stem, normalizeString, normalize_segments.
  change ("/" ++ n) with (String slash n).
  rewrite split_char_app, (split_char_single _ _ (seg_no_slash _ Hn)).
  rewrite fold_left_app. cbn [fold_left].
  rewrite (normalize_step_plain _ _ _ Hn). cbn [rev].
  rewrite concat_snoc.
  destruct (rev (fold_left (normalize_step allow) (split_char slash d) []));
    [reflexivity |].
  rewrite append_assoc. reflexivity.
Qed.

Lemma normalizeString_plain (allow : bool) (n : string) :
  plain_segment n -> normalizeString n allow = n.
Proof.
  intros Hn. unfold normalizeString, normalize_segments.
  rewrite (split_char_single _ _ (seg_no_slash _ Hn)). cbn [fold_left].
  rewrite (normalize_step_plain _ _ _ Hn). reflexivity.
Qed.

(** Joining a directory with a plain segment appends the segment to a
    prefix that depends on the directory only. *)
Lemma join_plain (d n : string) :
  plain_segment n -> join [d; n] = join_stem d ++ n.
Proof.
  intros Hn. pose proof (seg_nonempty _ Hn) as Hne.
  unfold join, join_stem. cbn [List.filter]. unfold Js.truthy.
  apply String.eqb_neq in Hne. rewrite !Hne. cbn [negb].
  destruct (String.eqb_spec d "") as [-> | Hd]; cbn [negb].
  - cbn [String.concat]. unfold normalize. rewrite Hne.
    rewrite (seg_first _ Hn). cbn [negb].
    rewrite (normalizeString_plain _ _ Hn), Hne.
    change n with ("" ++ n) at 2. rewrite (seg_last _ Hn "").
    cbn. apply append_empty_r.
  - change (String.concat "/" [d; n]) with (d ++ "/" ++ n).
    unfold normalize.
    assert (Hj : (d ++ "/" ++ n =? "")%string = false).
    { apply String.eqb_neq. destruct d; [contradiction | discriminate]. }
    rewrite Hj.
    assert (Ha : isAbsolute (d ++ "/" ++ n) = isAbsolute d).
    { destruct d; [contradiction | reflexivity]. }
    rewrite Ha, (normalizeString_snoc _ _ _ Hn).
    assert (Hp : (stem (negb (isAbsolute d)) d ++ n =? "")%string = false).
    { apply String.eqb_neq, append_nonempty_r. apply String.eqb_neq, Hne. }
    rewrite Hp.
    rewrite <- (append_assoc d "/" n), (seg_last _ Hn).
    rewrite append_empty_r, append_assoc. reflexivity.
Qed.

(** [path.resolve] never returns the empty string. *)
Lemma resolve_truthy (cwd : string) (args : list string) :
  Js.truthy (resolve cwd args) = true.
Proof.
  unfold resolve.
  destruct (resolve_loop (rev (cwd :: args)) "") as [rp abs].
  destruct abs; [reflexivity |].
  destruct (String.eqb_spec (normalizeString rp (negb false)) "") as [E | E];
    [reflexivity |].
  unfold Js.truthy. apply negb_true_iff, String.eqb_neq. exact E.
Qed.

End PathFacts.

(** C5. Two distinct names matching [[a-zA-Z0-9-_]+] derive distinct branch
    names ([name-branch]) and distinct checkout paths (the worktrees
    directory joined with the name); equal names derive equal branch and
    path. *)
Theorem derived_identity_injective (repoPath n1 n2 : string) :
  isValidWorktreeName n1 = true ->
  isValidWorktreeName n2 = true ->
  (n1 = n2 ->
     branchForWorktree n1 = branchForWorktree n2
     /\ targetWorktreePath repoPath n1 = targetWorktreePath repoPath n2)
  /\ (n1 <> n2 ->
        branchForWorktree n1 <> branchForWorktree n2
        /\ targetWorktreePath repoPath n1 <> targetWorktreePath repoPath n2).
Proof.
  intros H1 H2. split.
  - intros ->. split; reflexivity.
  - intros Hne. split.
    + unfold branchForWorktree. intros E. apply Hne.
      exact (append_inj_r _ _ _ E).
    + unfold targetWorktreePath. intros E. apply Hne.
      rewrite !PathFacts.join_plain in E
        by (apply PathFacts.valid_name_segment; assumption).
      exact (append_inj_l _ _ _ E).
Qed.

Lemma derived_identity_injective_witness :
  isValidWorktreeName "feature1" = true
  /\ isValidWorktreeName "feature2" = true
  /\ (("feature1" : string) <> "feature2" ->
        branchForWorktree "feature1" <> branchForWorktree "feature2"
        /\ targetWorktreePath "/home/u/repo" "feature1"
           <> targetWorktreePath "/home/u/repo" "feature2").
Proof.
  split; [reflexivity |]. split; [reflexivity |].
  apply (derived_identity_injective "/home/u/repo" "feature1" "feature2");
    reflexivity.
Defined.

(** The path a lookup returns is never the empty string. *)
Lemma findBranchEntry_truthy (cwd b : string) (entries : list string) (p : string) :
  findBranchEntry cwd b entries = Some p -> Js.truthy p = true.
Proof.
  induction entries as [|entry rest IH]; [discriminate |].
  cbn [findBranchEntry].
  destruct (negb (Js.truthy (Js.trim entry))); [exact IH |].
  destruct (parseEntry (Js.split Js.LF entry)) as [cp cb].
  destruct (Js.truthy cp && (cb =? b)%string); [| exact IH].
  intros H. injection H as <-. apply PathFacts.resolve_truthy.
Qed.

Module CanonicalPaths.
Import NodePath.

Lemma split_char_no_sep (sep : ascii) (s : string) :
  Forall (fun seg => forallb (fun c => negb (Ascii.eqb c sep))
                       (list_ascii_of_string seg) = true)
    (split_char sep s).
Proof.
  induction s as [|c s IH]; cbn [split_char].
  - repeat constructor.
  - destruct (Ascii.eqb c sep) eqn:E.
    + constructor; [reflexivity | exact IH].
    + destruct (split_char sep s) as [|seg segs]; [repeat constructor; cbn; rewrite E; reflexivity |].
      inversion IH as [|? ? Hseg Hsegs]; subst.
      constructor; [| exact Hsegs].
      cbn [list_ascii_of_string forallb]. rewrite E, Hseg. reflexivity.
Qed.

Lemma split_concat (segs : list string) :
  segs <> [] ->
  Forall (fun seg => forallb (fun c => negb (Ascii.eqb c slash))
                       (list_ascii_of_string seg) = true) segs ->
  split_char slash (String.concat "/" segs) = segs.
Proof.
  induction segs as [|x segs IH]; intros Hne H; [contradiction |].
  inversion H as [|? ? Hx Hsegs]; subst.
  destruct segs as [|y segs].
  - cbn [String.concat]. apply PathFacts.split_char_single. exact Hx.
  - change (String.concat "/" (x :: y :: segs))
      with (x ++ String slash (String.concat "/" (y :: segs))).
    rewrite PathFacts.split_char_app, (PathFacts.split_char_single _ _ Hx).
    rewrite IH; [reflexivity | discriminate | exact Hsegs].
Qed.

Lemma seg_clean_no_slash (s : string) :
  seg_clean s = true ->
  forallb (fun c => negb (Ascii.eqb c slash)) (list_ascii_of_string s) = true.
Proof. unfold seg_clean. intros H. apply andb_prop in H as [_ H]. exact H. Qed.

Lemma good_stack_clean (allow : bool) (stack : list string) :
  good_stack allow stack = true -> Forall (fun s => seg_clean s = true) stack.
Proof.
  induction stack as [|top rest IH]; intros H; [constructor |].
  cbn [good_stack] in H. apply andb_prop in H as [H Hr].
  apply andb_prop in H as [Ht _]. constructor; [exact Ht | exact (IH Hr)].
Qed.

Lemma normalize_step_good (allow : bool) (stack : list string) (seg : string) :
  forallb (fun c => negb (Ascii.eqb c slash)) (list_ascii_of_string seg) = true ->
  good_stack allow stack = true ->
  good_stack allow (normalize_step allow stack seg) = true.
Proof.
  intros Hseg Hst. unfold normalize_step.
  destruct (String.eqb_spec seg "") as [-> | He]; [exact Hst |].
  destruct (String.eqb_spec seg ".") as [-> | Hd]; [exact Hst |]. cbn [orb].
  destruct (String.eqb_spec seg "..") as [-> | Hdd].
  - destruct stack as [|top rest].
    + destruct allow; reflexivity.
    + destruct (String.eqb_spec top "..") as [-> | Htop].
      * destruct allow; [| exact Hst].
        cbn [good_stack] in Hst |- *. cbn [good_stack forallb] in *.
        change ("." =? "")%string with false in *.
        apply andb_prop in Hst as [H1 H2]. apply andb_prop in H1 as [_ H1].
        change (".." =? "..")%string with true in *. cbn in H1.
        cbn. rewrite H1, H2. reflexivity.
      * cbn [good_stack] in Hst. apply andb_prop in Hst as [_ Hr]. exact Hr.
  - cbn [good_stack]. unfold seg_clean.
    apply String.eqb_neq in He, Hd, Hdd. rewrite He, Hd, Hdd, Hseg, Hst. reflexivity.
Qed.

Lemma fold_good (allow : bool) (segs : list string) (stack : list string) :
  Forall (fun seg => forallb (fun c => negb (Ascii.eqb c slash))
                       (list_ascii_of_string seg) = true) segs ->
  good_stack allow stack = true ->
  good_stack allow (fold_left (normalize_step allow) segs stack) = true.
Proof.
  intros H. revert stack. induction H as [|seg segs Hseg _ IH]; intros stack Hst;
    [exact Hst |].
  cbn [fold_left]. apply IH. apply normalize_step_good; assumption.
Qed.

(** The stack [normalizeString] ends with is well formed. *)
Lemma normalize_segments_good (allow : bool) (p : string) :
  good_stack allow (normalize_segments allow p) = true.
Proof.
  unfold normalize_segments. apply fold_good; [apply split_char_no_sep | reflexivity].
Qed.

(** Reading a well-formed stack back, segment by segment, rebuilds it. *)
Lemma refold (allow : bool) (stack : list string) :
  good_stack allow stack = true ->
  fold_left (normalize_step allow) (rev stack) [] = stack.
Proof.
  induction stack as [|top rest IH]; intros H; [reflexivity |].
  cbn [good_stack] in H. apply andb_prop in H as [H Hr].
  apply andb_prop in H as [Hc Hdd].
  cbn [rev]. rewrite fold_left_app, (IH Hr). cbn [fold_left].
  unfold normalize_step. unfold seg_clean in Hc.
  apply andb_prop in Hc as [Hc _]. apply andb_prop in Hc as [He Hd].
  apply negb_true_iff in He, Hd. rewrite He, Hd. cbn [orb].
  destruct (top =? "..")%string eqn:E; [| reflexivity].
  apply String.eqb_eq in E. subst top.
  apply andb_prop in Hdd as [-> Hall].
  destruct rest as [|r rest]; [reflexivity |].
  cbn [forallb] in Hall. apply andb_prop in Hall as [Hrr _].
  apply String.eqb_eq in Hrr. subst r. reflexivity.
Qed.

Lemma normalize_step_empty (allow : bool) (stack : list string) :
  normalize_step allow stack "" = stack.
Proof. reflexivity. Qed.

(** Normalising the text of a well-formed stack gives the stack back, also
    behind a leading slash and before a trailing one. *)
Lemma normalize_segments_fixed (allow lead trail : bool) (stack : list string) :
  good_stack allow stack = true ->
  normalize_segments allow
    ((if lead then "/" else "") ++ String.concat "/" (rev stack)
       ++ (if trail then "/" else ""))
  = stack.
Proof.
  intros H. unfold normalize_segments.
  assert (Hmid :
    forall acc, acc = [] ->
      fold_left (normalize_step allow)
        (split_char slash (String.concat "/" (rev stack))) acc = stack).
  { intros acc ->. destruct stack as [|top rest] eqn:Es; [reflexivity |].
    rewrite split_concat.
    - apply refold. exact H.
    - cbn [rev]. destruct (rev rest); discriminate.
    - apply List.Forall_rev.
      refine (List.Forall_impl _ _ (good_stack_clean _ _ H)).
      intros s. apply seg_clean_no_slash. }
  assert (Htrail :
    forall acc, acc = [] ->
      fold_left (normalize_step allow)
        (split_char slash (String.concat "/" (rev stack)
                             ++ (if trail then "/" else ""))) acc = stack).
  { intros acc ->. destruct trail.
    - change (String.concat "/" (rev stack) ++ "/")
        with (String.concat "/" (rev stack) ++ String slash "").
      rewrite PathFacts.split_char_app.
      rewrite fold_left_app, (Hmid [] eq_refl). reflexivity.
    - rewrite append_empty_r. apply Hmid. reflexivity. }
  destruct lead.
  - change ("/" ++ String.concat "/" (rev stack) ++ (if trail then "/" else ""))
      with ("" ++ String slash (String.concat "/" (rev stack)
                                  ++ (if trail then "/" else ""))).
    rewrite PathFacts.split_char_app, fold_left_app. cbn [split_char fold_left].
    rewrite normalize_step_empty. apply Htrail. reflexivity.
  - rewrite append_empty_l. apply Htrail. reflexivity.
Qed.


Lemma last_char_in (s : string) (c : ascii) :
  last_char s = Some c -> In c (list_ascii_of_string s).
Proof.
  induction s as [|x s IH]; [discriminate |].
  destruct s as [|y s].
  - intros H. injection H as <-. left. reflexivity.
  - intros H. right. apply IH. exact H.
Qed.

(** A clean segment other than [..] is a plain segment. *)
Lemma clean_plain (s : string) :
  seg_clean s = true -> s <> ".." -> plain_segment s.
Proof.
  unfold seg_clean. intros H Hdd.
  apply andb_prop in H as [H Hns]. apply andb_prop in H as [He Hd].
  apply negb_true_iff in He, Hd. apply String.eqb_neq in He, Hd.
  split; try assumption.
  - destruct s as [|c s]; [contradiction |].
    cbn [list_ascii_of_string forallb] in Hns. apply andb_prop in Hns as [Hc _].
    apply negb_true_iff in Hc. exact Hc.
  - intros a. unfold trailingSeparator.
    destruct s as [|c s]; [contradiction |].
    rewrite PathFacts.last_char_app.
    destruct (last_char (String c s)) as [x |] eqn:E; [| reflexivity].
    apply last_char_in in E. rewrite forallb_forall in Hns.
    apply negb_true_iff. exact (Hns _ E).
Qed.

Lemma plain_clean (n : string) : plain_segment n -> seg_clean n = true.
Proof.
  intros [H1 H2 H3 _ _ _]. unfold seg_clean.
  apply String.eqb_neq in H2, H3. rewrite H2, H3, H1. reflexivity.
Qed.

Lemma resolve_loop_absolute (cwd : string) (l : list string) (acc : string) :
  isAbsolute cwd = true -> snd (resolve_loop (l ++ [cwd]) acc) = true.
Proof.
  intros Hc. revert acc. induction l as [|p l IH]; intros acc.
  - cbn [app resolve_loop]. destruct cwd as [|c cwd]; [discriminate |].
    cbn [String.eqb]. rewrite Hc. reflexivity.
  - cbn [app resolve_loop]. destruct (p =? "")%string; [apply IH |].
    destruct (isAbsolute p); [reflexivity | apply IH].
Qed.

(** With an absolute working directory [path.resolve] returns a resolved
    form. *)
Lemma resolve_resolved (cwd : string) (args : list string) :
  isAbsolute cwd = true -> resolved_form (resolve cwd args).
Proof.
  intros Hc. unfold resolve. cbn [rev].
  pose proof (resolve_loop_absolute cwd (rev args) "" Hc) as Habs.
  destruct (resolve_loop (rev args ++ [cwd]) "") as [rp abs]. cbn [snd] in Habs.
  subst abs. exists (normalize_segments false rp).
  split; [apply normalize_segments_good | reflexivity].
Qed.

(** A resolved form is a fixed point of [path.resolve]. *)
Lemma resolved_fixed (cwd p : string) :
  resolved_form p -> resolve cwd [p] = p.
Proof.
  intros (stack & Hg & ->). unfold resolve. cbn [rev app resolve_loop].
  change (("/" ++ String.concat "/" (rev stack)) =? "")%string with false.
  change (isAbsolute ("/" ++ String.concat "/" (rev stack))) with true.
  cbn iota. unfold normalizeString.
  rewrite append_assoc. change ("/" ++ "") with "/".
  change (negb true) with false.
  rewrite (normalize_segments_fixed false true true stack Hg). reflexivity.
Qed.

Lemma concat_clean_relative (l : list string) :
  l <> [] -> Forall (fun s => seg_clean s = true) l ->
  isAbsolute (String.concat "/" l) = false.
Proof.
  intros Hne H. destruct l as [|x l]; [contradiction |].
  inversion H as [|? ? Hx _]; subst.
  unfold seg_clean in Hx. apply andb_prop in Hx as [Hx Hns].
  apply andb_prop in Hx as [He _]. apply negb_true_iff in He.
  destruct x as [|c x]; [discriminate |].
  cbn [list_ascii_of_string forallb] in Hns. apply andb_prop in Hns as [Hc _].
  apply negb_true_iff in Hc.
  destruct l; cbn [String.concat]; rewrite ?append_cons; exact Hc.
Qed.

Lemma rev_nonempty {A : Type} (l : list A) : l <> [] -> rev l <> [].
Proof.
  destruct l as [|x l]; [contradiction |]. intros _. cbn [rev].
  destruct (rev l); discriminate.
Qed.

Lemma canonical_absolute (abs : bool) (stack : list string) :
  stack <> [] -> good_stack (negb abs) stack = true ->
  isAbsolute ((if abs then "/" else "") ++ String.concat "/" (rev stack)) = abs.
Proof.
  intros Hne Hg. destruct abs; [reflexivity |].
  rewrite append_empty_l. apply concat_clean_relative.
  - apply rev_nonempty. exact Hne.
  - apply List.Forall_rev. exact (good_stack_clean _ _ Hg).
Qed.

Lemma canonical_nonempty (p : string) : canonical_form p -> p <> "".
Proof.
  intros (abs & stack & Hne & Hg & ->). destruct abs; [discriminate |].
  rewrite append_empty_l. intros E.
  pose proof (concat_clean_relative (rev stack) (rev_nonempty _ Hne)
                (List.Forall_rev (good_stack_clean _ _ Hg))) as H.
  destruct (rev stack) as [|x l] eqn:Er; [exact (rev_nonempty _ Hne Er) |].
  pose proof (List.Forall_rev (good_stack_clean _ _ Hg)) as Hc.
  rewrite Er in Hc. inversion Hc as [|? ? Hx _]; subst.
  unfold seg_clean in Hx. apply andb_prop in Hx as [Hx _].
  apply andb_prop in Hx as [He _]. apply negb_true_iff, String.eqb_neq in He.
  destruct x; [contradiction |]. destruct l; discriminate E.
Qed.

(** Joining anything with a plain segment gives a normalised path that is
    absolute exactly when the first argument is. *)
Lemma join_plain_stack (d n : string) :
  plain_segment n ->
  exists stack,
    stack <> [] /\ good_stack (negb (isAbsolute d)) stack = true
    /\ join [d; n]
       = (if isAbsolute d then "/" else "") ++ String.concat "/" (rev stack).
Proof.
  intros Hn. rewrite (PathFacts.join_plain d n Hn). unfold join_stem.
  pose proof (seg_not_dotdot _ Hn) as Hdd. apply String.eqb_neq in Hdd.
  destruct (String.eqb_spec d "") as [-> | Hd].
  - exists [n]. split; [discriminate |]. split.
    + cbn [good_stack negb isAbsolute]. rewrite (plain_clean _ Hn), Hdd.
      reflexivity.
    + reflexivity.
  - exists (n :: normalize_segments (negb (isAbsolute d)) d).
    split; [discriminate |]. split.
    + cbn [good_stack]. rewrite (plain_clean _ Hn), normalize_segments_good, Hdd.
      reflexivity.
    + unfold stem. cbn [rev]. rewrite PathFacts.concat_snoc, append_assoc.
      f_equal.
      destruct (rev (normalize_segments (negb (isAbsolute d)) d));
        [reflexivity | rewrite append_assoc; reflexivity].
Qed.

Lemma join_plain_canonical (d n : string) :
  plain_segment n -> canonical_form (join [d; n]).
Proof.
  intros Hn. destruct (join_plain_stack d n Hn) as (stack & H1 & H2 & H3).
  exists (isAbsolute d), stack. auto.
Qed.

(** Joining a canonical path with a plain segment appends [/segment]. *)
Lemma canonical_join (w n : string) :
  canonical_form w -> plain_segment n -> join [w; n] = w ++ "/" ++ n.
Proof.
  intros Hw Hn. pose proof (canonical_nonempty _ Hw) as Hne.
  destruct Hw as (abs & stack & Hs & Hg & ->).
  rewrite (PathFacts.join_plain _ n Hn). unfold join_stem.
  apply String.eqb_neq in Hne. rewrite Hne.
  rewrite (canonical_absolute abs stack Hs Hg). unfold stem.
  pose proof (normalize_segments_fixed (negb abs) abs false stack Hg) as Hfix.
  rewrite append_empty_r in Hfix. rewrite Hfix.
  destruct (rev stack) as [|x l] eqn:Er; [exact (False_ind _ (rev_nonempty _ Hs Er)) |].
  rewrite !append_assoc. reflexivity.
Qed.

Lemma take_segment_no_slash (l : list ascii) :
  forallb (fun c => negb (is_slash c)) (take_segment l) = true.
Proof.
  induction l as [|c l IH]; [reflexivity |]. cbn [take_segment].
  destruct (is_slash c) eqn:E; [reflexivity |].
  cbn [forallb]. rewrite E, IH. reflexivity.
Qed.

Lemma basename_no_slash (p : string) :
  forallb (fun c => negb (Ascii.eqb c slash)) (list_ascii_of_string (basename p))
  = true.
Proof.
  unfold basename. rewrite list_ascii_of_string_of_list_ascii.
  rewrite forallb_forall. intros c Hc. apply in_rev in Hc.
  pose proof (take_segment_no_slash
                (drop_slashes (rev (list_ascii_of_string p)))) as H.
  rewrite forallb_forall in H. exact (H c Hc).
Qed.

Lemma chars_app (a b : string) :
  list_ascii_of_string (a ++ b)
  = (list_ascii_of_string a ++ list_ascii_of_string b)%list.
Proof.
  induction a as [|c a IH]; [reflexivity |].
  rewrite append_cons. cbn [list_ascii_of_string app]. rewrite IH. reflexivity.
Qed.

(** The directory name with [-worktrees] appended is a plain segment. *)
Lemma worktrees_segment_plain (b : string) :
  forallb (fun c => negb (Ascii.eqb c slash)) (list_ascii_of_string b) = true ->
  plain_segment (b ++ "-worktrees").
Proof.
  intros Hb. apply clean_plain.
  - unfold seg_clean. rewrite chars_app, forallb_app, Hb.
    assert (He : (b ++ "-worktrees" =? "")%string = false).
    { apply String.eqb_neq, append_nonempty_r. discriminate. }
    assert (Hd : (b ++ "-worktrees" =? ".")%string = false).
    { apply String.eqb_neq. intros E. apply (f_equal String.length) in E.
      rewrite append_length in E. cbn in E. lia. }
    rewrite He, Hd. reflexivity.
  - intros E. apply (f_equal String.length) in E.
    rewrite append_length in E. cbn in E. lia.
Qed.


Lemma no_slash_rev (l : list ascii) : no_slash l -> no_slash (rev l).
Proof.
  unfold no_slash. rewrite !forallb_forall. intros H c Hc.
  apply H, in_rev, Hc.
Qed.

Lemma drop_slashes_segment (l r : list ascii) :
  l <> [] -> no_slash l -> drop_slashes (l ++ r) = (l ++ r)%list.
Proof.
  destruct l as [|c l]; [contradiction |]. intros _ H.
  unfold no_slash in H. cbn [forallb] in H. apply andb_prop in H as [Hc _].
  apply negb_true_iff in Hc. cbn [app drop_slashes]. rewrite Hc. reflexivity.
Qed.

Lemma take_segment_app (l r : list ascii) :
  no_slash l -> take_segment (l ++ slash :: r) = l.
Proof.
  unfold no_slash. induction l as [|c l IH]; intros H.
  - reflexivity.
  - cbn [forallb] in H. apply andb_prop in H as [Hc Hl].
    apply negb_true_iff in Hc. cbn [app take_segment]. rewrite Hc, (IH Hl).
    reflexivity.
Qed.

Lemma take_segment_all (l : list ascii) : no_slash l -> take_segment l = l.
Proof.
  unfold no_slash. induction l as [|c l IH]; intros H; [reflexivity |].
  cbn [forallb] in H. apply andb_prop in H as [Hc Hl].
  apply negb_true_iff in Hc. cbn [take_segment]. rewrite Hc, (IH Hl).
  reflexivity.
Qed.

Lemma drop_segment_app (l r : list ascii) :
  no_slash l -> drop_segment (l ++ slash :: r) = slash :: r.
Proof.
  unfold no_slash. induction l as [|c l IH]; intros H.
  - reflexivity.
  - cbn [forallb] in H. apply andb_prop in H as [Hc Hl].
    apply negb_true_iff in Hc. cbn [app drop_segment]. rewrite Hc. exact (IH Hl).
Qed.

Lemma drop_segment_all (l : list ascii) : no_slash l -> drop_segment l = [].
Proof.
  unfold no_slash. induction l as [|c l IH]; intros H; [reflexivity |].
  cbn [forallb] in H. apply andb_prop in H as [Hc Hl].
  apply negb_true_iff in Hc. cbn [drop_segment]. rewrite Hc. exact (IH Hl).
Qed.

Lemma chars_nonempty (n : string) : n <> "" -> list_ascii_of_string n <> [].
Proof. destruct n; [contradiction | discriminate]. Qed.

Lemma plain_chars (n : string) :
  plain_segment n ->
  rev (list_ascii_of_string n) <> [] /\ no_slash (rev (list_ascii_of_string n)).
Proof.
  intros Hn. split.
  - apply rev_nonempty, chars_nonempty, (seg_nonempty _ Hn).
  - apply no_slash_rev. exact (seg_no_slash _ Hn).
Qed.

(** The last segment of [w/n] is [n]. *)
Lemma basename_child (w n : string) :
  plain_segment n -> basename (w ++ "/" ++ n) = n.
Proof.
  intros Hn. destruct (plain_chars n Hn) as [Hne Hns].
  unfold basename. rewrite !chars_app, !rev_app_distr.
  change (rev (list_ascii_of_string "/")) with [slash].
  rewrite <- app_assoc. cbn [app].
  rewrite (drop_slashes_segment _ _ Hne Hns), (take_segment_app _ _ Hns).
  rewrite rev_involutive. apply string_of_list_ascii_of_string.
Qed.

(** The directory of [w/n] is [w], unless [w] is empty or the root. *)
Lemma dirname_child (w n : string) :
  plain_segment n -> w <> "" -> w <> "/" -> dirname (w ++ "/" ++ n) = w.
Proof.
  intros Hn Hw Hroot. destruct (plain_chars n Hn) as [Hne Hns].
  destruct w as [|c0 w]; [contradiction |].
  rewrite append_cons. unfold dirname.
  rewrite !chars_app, !rev_app_distr.
  change (rev (list_ascii_of_string "/")) with [slash].
  rewrite <- app_assoc. cbn [app].
  rewrite (drop_slashes_segment _ _ Hne Hns), (drop_segment_app _ _ Hns).
  destruct (rev (list_ascii_of_string w)) as [|x l] eqn:E.
  - assert (Hw' : w = "").
    { destruct w as [|y w]; [reflexivity |].
      exfalso. apply (rev_nonempty (list_ascii_of_string (String y w)));
        [discriminate | exact E]. }
    subst w. destruct (is_slash c0) eqn:Hc; [| reflexivity].
    exfalso. apply Hroot. unfold is_slash in Hc. apply Ascii.eqb_eq in Hc.
    subst c0. reflexivity.
  - rewrite <- E, rev_involutive, string_of_list_ascii_of_string. reflexivity.
Qed.

(** The directory and the last segment of a path with one segment under
    the root. *)
Lemma dirname_root_child (n : string) :
  plain_segment n -> dirname ("/" ++ n) = "/".
Proof.
  intros Hn. destruct (plain_chars n Hn) as [Hne Hns].
  rewrite append_cons, append_empty_l. unfold dirname.
  destruct (rev (list_ascii_of_string n)) as [|c l] eqn:E; [contradiction |].
  unfold no_slash in Hns. cbn [forallb] in Hns.
  apply andb_prop in Hns as [Hc Hl]. apply negb_true_iff in Hc.
  cbn [drop_slashes]. rewrite Hc. cbn [drop_segment]. rewrite Hc.
  rewrite (drop_segment_all l Hl). reflexivity.
Qed.

Lemma isAbsolute_dirname (p : string) : isAbsolute (dirname p) = isAbsolute p.
Proof.
  destruct p as [|c0 rest]; [reflexivity |]. unfold dirname.
  cbn [isAbsolute].
  destruct (drop_segment (drop_slashes (rev (list_ascii_of_string rest))))
    as [|x before].
  - destruct (is_slash c0) eqn:E; [reflexivity |]. reflexivity.
  - destruct before.
    + destruct (is_slash c0) eqn:E; [reflexivity | exact E].
    + reflexivity.
Qed.

Lemma dirname_nonempty (p : string) : dirname p <> "".
Proof.
  destruct p as [|c0 rest]; [discriminate |]. unfold dirname.
  destruct (drop_segment (drop_slashes (rev (list_ascii_of_string rest))))
    as [|x before].
  - destruct (is_slash c0); discriminate.
  - destruct before; [destruct (is_slash c0) |]; discriminate.
Qed.

Lemma canonical_not_root (w : string) : canonical_form w -> w <> "/".
Proof.
  intros (abs & stack & Hs & Hg & ->) E.
  pose proof (List.Forall_rev (good_stack_clean _ _ Hg)) as Hc.
  destruct (rev stack) as [|x l] eqn:Er; [exact (rev_nonempty _ Hs Er) |].
  inversion Hc as [|? ? Hx _]; subst.
  unfold seg_clean in Hx. apply andb_prop in Hx as [Hx Hns].
  apply andb_prop in Hx as [He _]. apply negb_true_iff, String.eqb_neq in He.
  destruct x as [|c x]; [contradiction |].
  cbn [list_ascii_of_string forallb] in Hns. apply andb_prop in Hns as [Hcs _].
  apply negb_true_iff in Hcs.
  destruct abs.
  - destruct l; cbn [String.concat] in E; rewrite ?append_cons in E;
      discriminate E.
  - rewrite append_empty_l in E.
    destruct l; cbn [String.concat] in E; rewrite ?append_cons in E;
      injection E as -> _; discriminate Hcs.
Qed.

Lemma worktrees_dir_stack (repoPath : string) :
  exists stack,
    stack <> [] /\ good_stack (negb (isAbsolute repoPath)) stack = true
    /\ getWorktreesDir repoPath
       = (if isAbsolute repoPath then "/" else "")
         ++ String.concat "/" (rev stack).
Proof.
  unfold getWorktreesDir.
  pose proof (worktrees_segment_plain _ (basename_no_slash repoPath)) as Hp.
  destruct (join_plain_stack (dirname repoPath) _ Hp) as (stack & H1 & H2 & H3).
  rewrite isAbsolute_dirname in H2, H3. exists stack. auto.
Qed.

Lemma worktrees_dir_canonical (repoPath : string) :
  canonical_form (getWorktreesDir repoPath).
Proof.
  destruct (worktrees_dir_stack repoPath) as (stack & H1 & H2 & H3).
  exists (isAbsolute repoPath), stack. auto.
Qed.

(** The worktrees directory of a resolved repository path. *)
Lemma worktrees_dir_resolved (repoPath : string) :
  resolved_form repoPath -> getWorktreesDir repoPath = repoPath ++ "-worktrees".
Proof.
  intros (stack & Hg & ->). unfold getWorktreesDir.
  destruct stack as [|last rest]; [reflexivity |].
  cbn [good_stack] in Hg. apply andb_prop in Hg as [Hg Hrest].
  apply andb_prop in Hg as [Hclean Hdd].
  assert (Hplain : plain_segment last).
  { apply clean_plain; [exact Hclean |]. intros ->.
    change (".." =? "..")%string with true in Hdd. discriminate Hdd. }
  pose proof (worktrees_segment_plain last (seg_no_slash _ Hplain)) as Hwt.
  cbn [rev]. rewrite PathFacts.concat_snoc.
  destruct (rev rest) as [|x l] eqn:Er.
  - pose proof (basename_child "" last Hplain) as Hb.
    change ("" ++ "/" ++ last) with ("/" ++ last) in Hb. rewrite Hb.
    rewrite (dirname_root_child last Hplain).
    rewrite (PathFacts.join_plain _ _ Hwt). unfold join_stem, stem.
    change ("/" =? "")%string with false. cbn iota.
    change (isAbsolute "/") with true. cbn iota.
    change (normalize_segments (negb true) "/") with (@nil string).
    cbn [rev]. rewrite append_empty_r, append_assoc. reflexivity.
  - set (w := "/" ++ String.concat "/" (x :: l)).
    assert (Hw : canonical_form w).
    { exists true, rest. split; [| split].
      - intros ->. discriminate Er.
      - exact Hrest.
      - unfold w. rewrite Er. reflexivity. }
    replace ("/" ++ String.concat "/" (x :: l) ++ "/" ++ last)
      with (w ++ "/" ++ last)
      by (unfold w; rewrite !append_assoc; reflexivity).
    rewrite (basename_child w last Hplain).
    rewrite (dirname_child w last Hplain (canonical_nonempty _ Hw)
               (canonical_not_root _ Hw)).
    rewrite (canonical_join w _ Hw Hwt). rewrite !append_assoc. reflexivity.
Qed.

End CanonicalPaths.

(** A path the scan of the listing returns went through [path.resolve]. *)
Lemma findBranchEntry_resolved (cwd b : string) (entries : list string)
    (p : string) :
  findBranchEntry cwd b entries = Some p -> exists q, p = path_resolve cwd q.
Proof.
  induction entries as [|entry rest IH]; [discriminate |].
  cbn [findBranchEntry].
  destruct (negb (Js.truthy (Js.trim entry))); [exact IH |].
  destruct (parseEntry (Js.split Js.LF entry)) as [cp cb].
  destruct (Js.truthy cp && (cb =? b)%string); [| exact IH].
  intros H. injection H as <-. exists cp. reflexivity.
Qed.

(** ** The command line *)

Lemma parseArgs_argv (cwd node script : string) (args : list string) :
  parseArgs cwd (node :: script :: args) = parseArgs_loop cwd args 5173%Z cwd.
Proof. reflexivity. Qed.

Lemma parseArgs_loop_flag (cwd a v : string) (rest : list string) (port : Z)
    (repoPath : string) :
  parseArgs_loop cwd (a :: v :: rest) port repoPath
  = if (a =? "--port")%string then
      match parseInt v with
      | Some parsedPort => parseArgs_loop cwd rest parsedPort repoPath
      | None => Exit 1 ("Invalid port: " ++ v)
      end
    else if (a =? "--repo-path")%string then
      parseArgs_loop cwd rest port (NodePath.resolve cwd [v])
    else parseArgs_loop cwd (v :: rest) port repoPath.
Proof. reflexivity. Qed.

Lemma parseArgs_loop_skip (cwd a : string) (rest : list string) (port : Z)
    (repoPath : string) :
  is_flag a = false ->
  parseArgs_loop cwd (a :: rest) port repoPath
  = parseArgs_loop cwd rest port repoPath.
Proof.
  unfold is_flag. intros H. apply orb_false_elim in H as [Hp Hr].
  destruct rest as [|v rest']; [reflexivity |].
  rewrite parseArgs_loop_flag, Hp, Hr. reflexivity.
Qed.

Lemma parseArgs_loop_plain (cwd : string) (args : list string) (port : Z)
    (repoPath : string) :
  forallb (fun a => negb (is_flag a)) args = true ->
  parseArgs_loop cwd args port repoPath = Args port repoPath.
Proof.
  induction args as [|a args IH]; [reflexivity |].
  cbn [forallb]. intros H. apply andb_prop in H as [Ha Hrest].
  apply negb_true_iff in Ha. rewrite (parseArgs_loop_skip _ _ _ _ _ Ha).
  exact (IH Hrest).
Qed.

Lemma parseArgs_loop_resolved (cwd : string) (n : nat) :
  NodePath.isAbsolute cwd = true ->
  forall (args : list string) (port : Z) (repoPath : string)
         (port' : Z) (repoPath' : string),
    (List.length args <= n)%nat ->
    resolved_form repoPath ->
    parseArgs_loop cwd args port repoPath = Args port' repoPath' ->
    resolved_form repoPath'.
Proof.
  intros Hc. induction n as [|n IH]; intros args port repoPath port' repoPath' Hn Hr.
  - destruct args; [| cbn in Hn; lia]. intros H. injection H as _ <-. exact Hr.
  - destruct args as [|a rest]; [intros H; injection H as _ <-; exact Hr |].
    destruct rest as [|v rest']; [intros H; injection H as _ <-; exact Hr |].
    rewrite parseArgs_loop_flag. cbn [List.length] in Hn.
    destruct (a =? "--port")%string.
    + destruct (parseInt v); [| discriminate].
      apply IH; [lia | exact Hr].
    + destruct (a =? "--repo-path")%string.
      * apply IH; [lia |]. apply CanonicalPaths.resolve_resolved, Hc.
      * apply IH; [cbn [List.length]; lia | exact Hr].
Qed.

(** An absolute path that [path.resolve] leaves alone is a resolved form. *)
Lemma fixed_resolved (cwd p : string) :
  NodePath.isAbsolute cwd = true -> NodePath.resolve cwd [p] = p ->
  resolved_form p.
Proof.
  intros Hc E. rewrite <- E. apply CanonicalPaths.resolve_resolved, Hc.
Qed.

(** ** More on paths and names *)

(** [path.resolve] of a normalised absolute path and a plain segment. *)
Lemma resolve_child (cwd d n : string) (stack : list string) :
  stack <> [] -> good_stack false stack = true ->
  d = "/" ++ String.concat "/" (rev stack) ->
  plain_segment n ->
  NodePath.resolve cwd [d; n] = d ++ "/" ++ n.
Proof.
  intros Hs Hg -> Hn. unfold NodePath.resolve. cbn [rev app NodePath.resolve_loop].
  pose proof (seg_nonempty _ Hn) as Hne. apply String.eqb_neq in Hne.
  rewrite Hne, (seg_first _ Hn).
  change (("/" ++ String.concat "/" (rev stack)) =? "")%string with false.
  change (NodePath.isAbsolute ("/" ++ String.concat "/" (rev stack))) with true.
  cbn iota. change (negb true) with false. unfold NodePath.normalizeString.
  assert (Hg' : good_stack false (n :: stack) = true).
  { cbn [good_stack]. rewrite (CanonicalPaths.plain_clean _ Hn), Hg.
    pose proof (seg_not_dotdot _ Hn) as Hdd. apply String.eqb_neq in Hdd.
    rewrite Hdd. reflexivity. }
  pose proof (CanonicalPaths.normalize_segments_fixed false true true
                (n :: stack) Hg') as Hfix.
  assert (Hc : String.concat "/" (rev (n :: stack))
               = String.concat "/" (rev stack) ++ "/" ++ n).
  { cbn [rev]. rewrite PathFacts.concat_snoc.
    destruct (rev stack) eqn:Er; [| reflexivity].
    exfalso. exact (CanonicalPaths.rev_nonempty _ Hs Er). }
  rewrite Hc in Hfix.
  replace (("/" ++ String.concat "/" (rev stack)) ++ "/" ++ n ++ "/" ++ "")
    with ("/" ++ (String.concat "/" (rev stack) ++ "/" ++ n) ++ "/")
    by (rewrite !append_assoc; reflexivity).
  rewrite Hfix, Hc, !append_assoc. reflexivity.
Qed.

Lemma index_html_plain : plain_segment "index.html".
Proof. apply CanonicalPaths.clean_plain; [reflexivity | discriminate]. Qed.

Lemma target_index_path (cwd repoPath name : string) :
  NodePath.isAbsolute repoPath = true ->
  isValidWorktreeName name = true ->
  NodePath.resolve cwd [targetWorktreePath repoPath name; "index.html"]
  = targetWorktreePath repoPath name ++ "/index.html".
Proof.
  intros Ha Hv. pose proof (PathFacts.valid_name_segment _ Hv) as Hn.
  destruct (CanonicalPaths.worktrees_dir_stack repoPath) as (ws & Hws & Hwg & Hwe).
  rewrite Ha in Hwg, Hwe.
  assert (Hwa : NodePath.isAbsolute (getWorktreesDir repoPath) = true).
  { rewrite Hwe. reflexivity. }
  destruct (CanonicalPaths.join_plain_stack (getWorktreesDir repoPath) name Hn)
    as (stack & Hs & Hg & He).
  rewrite Hwa in Hg, He.
  exact (resolve_child cwd _ "index.html" stack Hs Hg He index_html_plain).
Qed.

Lemma valid_name_chars (name : string) :
  isValidWorktreeName name = true ->
  forallb is_name_char (list_ascii_of_string name) = true.
Proof.
  unfold isValidWorktreeName.
  destruct (list_ascii_of_string name); [discriminate | auto].
Qed.

(** ** The porcelain listing *)

Module Porcelain.

Lemma split_go_end (sep : string) (cur : list ascii) :
  Js.split_go sep 0 cur "" = [string_of_list_ascii (rev cur)].
Proof. reflexivity. Qed.

Lemma string_of_app (a b : list ascii) :
  string_of_list_ascii (a ++ b)
  = string_of_list_ascii a ++ string_of_list_ascii b.
Proof.
  induction a as [|c a IH]; [reflexivity |].
  cbn [app string_of_list_ascii]. rewrite append_cons, IH. reflexivity.
Qed.

Lemma string_of_rev_cons (c : ascii) (cur : list ascii) (x : string) :
  string_of_list_ascii (rev (c :: cur)) ++ x
  = string_of_list_ascii (rev cur) ++ String c x.
Proof.
  cbn [rev]. rewrite string_of_app, append_assoc. reflexivity.
Qed.

(** A run without line feed is taken into the current piece. *)
Lemma split_go_line (sep' : string) (x : string) (cur : list ascii)
    (rest : string) :
  line_text x = true ->
  exists cur',
    Js.split_go (String (ascii_of_nat 10) sep') 0 cur (x ++ rest)
    = Js.split_go (String (ascii_of_nat 10) sep') 0 cur' rest
    /\ string_of_list_ascii (rev cur') = string_of_list_ascii (rev cur) ++ x.
Proof.
  unfold line_text. revert cur. induction x as [|c x IH]; intros cur H.
  - exists cur. rewrite append_empty_l, append_empty_r. auto.
  - cbn [list_ascii_of_string forallb] in H. apply andb_prop in H as [Hc Hx].
    apply negb_true_iff in Hc.
    destruct (IH (c :: cur) Hx) as (cur' & E1 & E2).
    exists cur'. split.
    + rewrite append_cons. cbn [Js.split_go Js.startsWith].
      rewrite Ascii.eqb_sym, Hc. cbn [andb]. exact E1.
    + rewrite E2. apply string_of_rev_cons.
Qed.

(** The lines of a text: splitting at single line feeds. *)
Lemma split_lines_cons (x rest : string) (cur : list ascii) :
  line_text x = true ->
  Js.split_go Js.LF 0 cur (x ++ Js.LF ++ rest)
  = (string_of_list_ascii (rev cur) ++ x) :: Js.split_go Js.LF 0 [] rest.
Proof.
  intros H.
  destruct (split_go_line "" x cur (Js.LF ++ rest) H) as (cur' & E1 & E2).
  change (String (ascii_of_nat 10) "") with Js.LF in E1. rewrite E1, <- E2.
  reflexivity.
Qed.

Lemma split_lines_last (x : string) (cur : list ascii) :
  line_text x = true ->
  Js.split_go Js.LF 0 cur x = [string_of_list_ascii (rev cur) ++ x].
Proof.
  intros H.
  destruct (split_go_line "" x cur "" H) as (cur' & E1 & E2).
  rewrite append_empty_r in E1.
  change (String (ascii_of_nat 10) "") with Js.LF in E1. rewrite E1, <- E2.
  reflexivity.
Qed.

(** The records of a text: splitting at empty lines. *)
Lemma split_entries_cons (x rest : string) (cur : list ascii) :
  entry_text x = true ->
  Js.split_go (Js.LF ++ Js.LF) 0 cur (x ++ Js.LF ++ Js.LF ++ rest)
  = (string_of_list_ascii (rev cur) ++ x)
    :: Js.split_go (Js.LF ++ Js.LF) 0 [] rest.
Proof.
  revert cur. induction x as [|c x IH]; intros cur H.
  - rewrite append_empty_l, append_empty_r. reflexivity.
  - cbn [entry_text] in H. apply andb_prop in H as [Hc Hx].
    rewrite append_cons, <- string_of_rev_cons, <- (IH (c :: cur) Hx).
    change (Js.LF ++ Js.LF)
      with (String (ascii_of_nat 10) (String (ascii_of_nat 10) "")).
    cbn [Js.split_go Js.startsWith].
    destruct (Ascii.eqb_spec c (ascii_of_nat 10)) as [-> | Hne].
    + destruct x as [|c' x]; [discriminate Hc |].
      rewrite append_cons. cbn [Js.startsWith].
      rewrite Ascii.eqb_refl, Ascii.eqb_sym.
      apply negb_true_iff in Hc. rewrite Hc. reflexivity.
    + apply not_eq_sym, Ascii.eqb_neq in Hne. rewrite Hne. reflexivity.
Qed.

Lemma line_entry_text (x : string) : line_text x = true -> entry_text x = true.
Proof.
  unfold line_text. induction x as [|c x IH]; [reflexivity |].
  cbn [list_ascii_of_string forallb entry_text]. intros H.
  apply andb_prop in H as [Hc Hx]. apply negb_true_iff in Hc.
  rewrite Hc, (IH Hx). reflexivity.
Qed.

Lemma line_text_app (a b : string) :
  line_text (a ++ b) = line_text a && line_text b.
Proof.
  unfold line_text. rewrite CanonicalPaths.chars_app. apply forallb_app.
Qed.

Lemma entry_text_skip (x rest : string) :
  line_text x = true -> entry_text (x ++ rest) = entry_text rest.
Proof.
  unfold line_text. induction x as [|c x IH]; intros H.
  - apply f_equal, append_empty_l.
  - cbn [list_ascii_of_string forallb] in H. apply andb_prop in H as [Hc Hx].
    apply negb_true_iff in Hc. rewrite append_cons. cbn [entry_text].
    rewrite Hc. exact (IH Hx).
Qed.

Lemma entry_text_next (x rest : string) :
  line_text x = true -> x <> "" ->
  entry_text (Js.LF ++ x ++ rest) = entry_text rest.
Proof.
  intros H Hne. rewrite <- (entry_text_skip x rest H).
  destruct x as [|c x]; [contradiction |].
  unfold line_text in H. cbn [list_ascii_of_string forallb] in H.
  apply andb_prop in H as [Hc _].
  rewrite append_cons. change (Js.LF ++ String c (x ++ rest))
    with (String (ascii_of_nat 10) (String c (x ++ rest))).
  cbn [entry_text]. rewrite Hc. reflexivity.
Qed.

Lemma entry_tail_line (w : Worktree) :
  line_text (entry_branch w) = true ->
  line_text match wt_branch w with
            | Some b => "branch refs/heads/" ++ b
            | None => "detached"
            end = true
  /\ match wt_branch w with
     | Some b => "branch refs/heads/" ++ b
     | None => "detached"
     end <> "".
Proof.
  unfold entry_branch. destruct (wt_branch w) as [b |]; intros H.
  - rewrite line_text_app, H. split; [reflexivity | discriminate].
  - split; [reflexivity | discriminate].
Qed.

Lemma entry_body_text (w : Worktree) :
  line_text (wt_path w) = true -> line_text (wt_head w) = true ->
  line_text (entry_branch w) = true ->
  entry_text (entry_body w) = true.
Proof.
  intros Hp Hh Hb. destruct (entry_tail_line w Hb) as [Ht Hne].
  unfold entry_body.
  rewrite <- append_assoc, entry_text_skip
    by (rewrite line_text_app, Hp; reflexivity).
  rewrite <- (append_assoc "HEAD " (wt_head w)).
  rewrite entry_text_next
    by (first [rewrite line_text_app, Hh; reflexivity | discriminate]).
  rewrite <- (append_empty_r match wt_branch w with
                             | Some b => "branch refs/heads/" ++ b
                             | None => "detached"
                             end).
  rewrite entry_text_next by assumption. reflexivity.
Qed.

Lemma porcelain_cons (w : Worktree) (l : list Worktree) :
  porcelain (w :: l) = entry_body w ++ Js.LF ++ Js.LF ++ porcelain l.
Proof.
  unfold porcelain. cbn [map String.concat].
  destruct (map (fun w => entry_body w ++ Js.LF ++ Js.LF) l) as [|x xs] eqn:E.
  - reflexivity.
  - rewrite !append_assoc. reflexivity.
Qed.

(** Splitting what the command prints at its empty lines gives the records
    and one empty piece after the last. *)
Lemma split_listing (l : list Worktree) :
  listing_ok l = true ->
  Js.split (Js.LF ++ Js.LF) (porcelain l) = (map entry_body l ++ [""])%list.
Proof.
  unfold Js.split, listing_ok. induction l as [|w l IH]; intros H; [reflexivity |].
  cbn [forallb] in H. apply andb_prop in H as [Hw Hl].
  apply andb_prop in Hw as [Hw Hb]. apply andb_prop in Hw as [Hp Hh].
  rewrite porcelain_cons.
  rewrite (split_entries_cons _ _ [] (entry_body_text w Hp Hh Hb)).
  rewrite (IH Hl). reflexivity.
Qed.

Lemma startsWith_app (a b : string) : Js.startsWith a (a ++ b) = true.
Proof.
  induction a as [|c a IH]; [reflexivity |].
  rewrite append_cons. cbn [Js.startsWith]. rewrite Ascii.eqb_refl. exact IH.
Qed.

Lemma substring_app (a b : string) : Js.substring (String.length a) (a ++ b) = b.
Proof.
  induction a as [|c a IH]; [destruct b; reflexivity |].
  rewrite append_cons. exact IH.
Qed.

(** The path and the branch the scans read from one record. *)
Lemma parse_entry_body (w : Worktree) :
  line_text (wt_path w) = true -> line_text (wt_head w) = true ->
  line_text (entry_branch w) = true ->
  parseEntry (Js.split Js.LF (entry_body w)) = (wt_path w, entry_branch w).
Proof.
  intros Hp Hh Hb. destruct (entry_tail_line w Hb) as [Ht _].
  unfold Js.split, entry_body.
  rewrite <- append_assoc, split_lines_cons
    by (rewrite line_text_app, Hp; reflexivity).
  rewrite <- (append_assoc "HEAD " (wt_head w)).
  rewrite split_lines_cons by (rewrite line_text_app, Hh; reflexivity).
  rewrite split_lines_last by exact Ht.
  cbn [rev string_of_list_ascii]. rewrite !append_empty_l.
  unfold parseEntry. cbn [fold_left].
  rewrite startsWith_app, substring_app. cbn [snd fst].
  change (Js.startsWith "worktree " ("HEAD " ++ wt_head w)) with false.
  change (Js.startsWith "branch refs/heads/" ("HEAD " ++ wt_head w)) with false.
  cbn iota. unfold entry_branch.
  destruct (wt_branch w) as [b |].
  - change (Js.startsWith "worktree " ("branch refs/heads/" ++ b)) with false.
    cbn iota. rewrite startsWith_app, substring_app. reflexivity.
  - reflexivity.
Qed.

Lemma trim_truthy (c : ascii) (r : string) :
  Js.trimStart (String c r) = String c r ->
  Js.truthy (Js.trim (String c r)) = true.
Proof.
  intros H. unfold Js.trim. rewrite H. cbn [Js.trimEnd]. rewrite H.
  reflexivity.
Qed.

Lemma entry_body_truthy (w : Worktree) :
  Js.truthy (Js.trim (entry_body w)) = true.
Proof. apply (trim_truthy "w"). reflexivity. Qed.

(** The scan of [getWorktreePathForBranch] over the records of a listing. *)
Lemma findBranchEntry_listing (cwd b : string) (l : list Worktree) :
  listing_ok l = true ->
  findBranchEntry cwd b (map entry_body l ++ [""])%list
  = option_map (fun w => path_resolve cwd (wt_path w))
      (List.find (fun w => Js.truthy (wt_path w) && (entry_branch w =? b)%string)
         l).
Proof.
  unfold listing_ok. induction l as [|w l IH]; intros H; [reflexivity |].
  cbn [forallb] in H. apply andb_prop in H as [Hw Hl].
  apply andb_prop in Hw as [Hw Hb]. apply andb_prop in Hw as [Hp Hh].
  cbn [map app findBranchEntry List.find].
  rewrite entry_body_truthy, (parse_entry_body w Hp Hh Hb). cbn [negb].
  destruct (Js.truthy (wt_path w) && (entry_branch w =? b)%string);
    [reflexivity | exact (IH Hl)].
Qed.

(** The scan of [createWorktree] over the records of a listing. *)
Lemma findPathConflict_listing (cwd target branch : string) (l : list Worktree) :
  listing_ok l = true ->
  findPathConflict cwd target branch (map entry_body l ++ [""])%list
  = option_map entry_branch
      (List.find
         (fun w => (path_resolve cwd (wt_path w) =? path_resolve cwd target)%string
                   && negb (entry_branch w =? branch)%string) l).
Proof.
  unfold listing_ok. induction l as [|w l IH]; intros H; [reflexivity |].
  cbn [forallb] in H. apply andb_prop in H as [Hw Hl].
  apply andb_prop in Hw as [Hw Hb]. apply andb_prop in Hw as [Hp Hh].
  cbn [map app findPathConflict List.find].
  rewrite entry_body_truthy, (parse_entry_body w Hp Hh Hb). cbn [negb].
  destruct ((path_resolve cwd (wt_path w) =? path_resolve cwd target)%string
            && negb (entry_branch w =? branch)%string);
    [reflexivity | exact (IH Hl)].
Qed.



End Porcelain.

(** ** Observations *)

Lemma created_mutating (o : Obs) : obs_created o = true -> obs_mutating o = true.
Proof.
  destruct o as [X e x]. destruct e as [X e | | |]; try discriminate.
  destruct e; try discriminate. cbn. destruct x; [| discriminate].
  intros ->. reflexivity.
Qed.

Lemma created_not_mkdir (dir : string) (o : Obs) :
  obs_created o = true -> obs_mkdir_at dir o = false.
Proof.
  destruct o as [X e x]. destruct e as [X e | | |]; try discriminate.
  destruct e; try discriminate. reflexivity.
Qed.

Lemma install_failed_mutating (o : Obs) :
  obs_install_failed o = true -> obs_mutating o = true.
Proof.
  destruct o as [X e x]. destruct e as [X e | | |]; try discriminate.
  destruct e; try discriminate. cbn. destruct x; [discriminate |].
  intros ->. apply orb_true_r.
Qed.

Lemma install_failed_not_mkdir (dir : string) (o : Obs) :
  obs_install_failed o = true -> obs_mkdir_at dir o = false.
Proof.
  destruct o as [X e x]. destruct e as [X e | | |]; try discriminate.
  destruct e; try discriminate. reflexivity.
Qed.

Lemma creations_app (t t' : list Obs) :
  creations (t ++ t') = (creations t ++ creations t')%list.
Proof. unfold creations, commands. rewrite omap_app. apply List.filter_app. Qed.

(** An observation that is not mutating, or is a [mkdirSync], is not a
    checkout creation. *)
Lemma creations_cons_skip (dir : string) (o : Obs) (t : list Obs) :
  negb (obs_mutating o) || obs_mkdir_at dir o = true ->
  creations (o :: t) = creations t.
Proof.
  intros H. unfold creations, commands.
  destruct o as [X e x]. destruct e as [X e | | |]; try reflexivity.
  destruct e; try reflexivity.
  cbn [omap list_omap obs_command List.filter].
  destruct (is_creation_command command) eqn:E; [| reflexivity].
  exfalso. cbn [obs_mutating obs_mkdir_at] in H. rewrite E in H. discriminate.
Qed.

Lemma creations_cons_inert (o : Obs) (t : list Obs) :
  obs_mutating o = false -> creations (o :: t) = creations t.
Proof.
  intros H. apply (creations_cons_skip ""). rewrite H. reflexivity.
Qed.

Lemma only_mkdir_creations (dir : string) (t : list Obs) :
  only_mkdir dir t = true -> creations t = [].
Proof.
  induction t as [|o t IH]; [reflexivity |].
  cbn [only_mkdir forallb]. intros H. apply andb_prop in H as [Ho Ht].
  rewrite (creations_cons_skip dir _ _ Ho). exact (IH Ht).
Qed.

Lemma inert_only_mkdir (dir : string) (t : list Obs) :
  inert t = true -> only_mkdir dir t = true.
Proof.
  induction t as [|o t IH]; [reflexivity |].
  cbn [inert only_mkdir forallb]. intros H. apply andb_prop in H as [Ho Ht].
  rewrite Ho. exact (IH Ht).
Qed.

Lemma inert_creations (t : list Obs) : inert t = true -> creations t = [].
Proof. intros H. exact (only_mkdir_creations "" t (inert_only_mkdir "" t H)). Qed.

Lemma inert_filter (t : list Obs) :
  inert t = true -> List.filter obs_mutating t = [].
Proof.
  induction t as [|o t IH]; [reflexivity |].
  cbn [inert forallb List.filter]. intros H. apply andb_prop in H as [Ho Ht].
  apply negb_true_iff in Ho. rewrite Ho. exact (IH Ht).
Qed.

(** When only the directory [dir] may have been created, every mutating
    observation is that [mkdirSync]. *)
Lemma only_mkdir_filter (dir : string) (t : list Obs) :
  only_mkdir dir t = true ->
  List.filter obs_mutating t = List.filter (obs_mkdir_at dir) t.
Proof.
  induction t as [|o t IH]; [reflexivity |].
  cbn [only_mkdir forallb List.filter]. intros H. apply andb_prop in H as [Ho Ht].
  rewrite (IH Ht).
  destruct (obs_mkdir_at dir o) eqn:Hm.
  - assert (Hmut : obs_mutating o = true).
    { destruct o as [X e x]. destruct e as [X e | | |]; try discriminate.
      destruct e; try discriminate. reflexivity. }
    rewrite Hmut. reflexivity.
  - rewrite orb_false_r in Ho. apply negb_true_iff in Ho. rewrite Ho. reflexivity.
Qed.

Lemma attempt_ok_cons (dir : string) (o : Obs) (t : list Obs)
    (r : Try Thrown Outcome) :
  obs_mutating o = false ->
  attempt_ok dir t r = true -> attempt_ok dir (o :: t) r = true.
Proof.
  intros Ho.
  assert (Hc : obs_created o = false).
  { destruct (obs_created o) eqn:E; [| reflexivity].
    apply created_mutating in E. congruence. }
  assert (Hi : obs_install_failed o = false).
  { destruct (obs_install_failed o) eqn:E; [| reflexivity].
    apply install_failed_mutating in E. congruence. }
  unfold attempt_ok, best_effort_install, conflict_discipline, inert, only_mkdir,
    install_failure_logged.
  cbn [existsb forallb]. rewrite Hc, Hi, Ho. cbn [orb negb andb].
  destruct r as [o' | e]; [| auto].
  intros H. apply andb_prop in H as [H1 H2].
  apply andb_true_intro. split; [| exact H2].
  destruct (existsb obs_created t); [| reflexivity]. cbn [implb] in *.
  apply andb_prop in H1 as [H1 H3]. rewrite H1. cbn [andb].
  destruct (existsb obs_install_failed t); [| reflexivity]. cbn [implb] in *.
  rewrite H3. apply orb_true_r.
Qed.

Lemma late_ok_cons (dir : string) (o : Obs) (t : list Obs)
    (r : Try Thrown Outcome) :
  negb (obs_mutating o) || obs_mkdir_at dir o = true ->
  attempt_ok dir t r && late r = true ->
  attempt_ok dir (o :: t) r && late r = true.
Proof.
  intros Ho H. apply andb_prop in H as [H Hl]. rewrite Hl, andb_true_r.
  assert (Hc : obs_created o = false).
  { destruct (obs_created o) eqn:E; [| reflexivity].
    rewrite (created_mutating _ E), (created_not_mkdir dir _ E) in Ho.
    discriminate. }
  assert (Hi : obs_install_failed o = false).
  { destruct (obs_install_failed o) eqn:E; [| reflexivity].
    rewrite (install_failed_mutating _ E), (install_failed_not_mkdir dir _ E) in Ho.
    discriminate. }
  revert H.
  unfold attempt_ok, best_effort_install, conflict_discipline, inert, only_mkdir,
    install_failure_logged.
  cbn [existsb forallb]. rewrite Hc, Hi, Ho. cbn [orb negb andb].
  destruct r as [o' | e]; [| auto].
  intros H. apply andb_prop in H as [H1 H2]. apply andb_true_intro. split.
  - destruct (existsb obs_created t); [| reflexivity]. cbn [implb] in *.
    apply andb_prop in H1 as [H1 H3]. rewrite H1. cbn [andb].
    destruct (existsb obs_install_failed t); [| reflexivity]. cbn [implb] in *.
    rewrite H3. apply orb_true_r.
  - destruct o'; try discriminate; auto.
Qed.

Lemma attempt_ok_app (dir : string) (t t' : list Obs) (r : Try Thrown Outcome) :
  inert t = true ->
  attempt_ok dir t' r = true -> attempt_ok dir (t ++ t') r = true.
Proof.
  induction t as [|o t IH]; intros Hi H; [exact H |].
  cbn [inert forallb] in Hi. apply andb_prop in Hi as [Ho Hi].
  rewrite <- app_comm_cons. apply attempt_ok_cons.
  - apply negb_true_iff. exact Ho.
  - apply IH; assumption.
Qed.

(** ** The calculus of [Ensures] *)

Lemma ensures_weaken {A : Type} (p : Prog A) (Q Q' : list Obs -> A -> Prop) :
  (forall t a, Q t a -> Q' t a) -> Ensures p Q -> Ensures p Q'.
Proof.
  revert Q Q'. induction p as [a | X e k IH]; intros Q Q' HQ H; cbn in *.
  - auto.
  - intros x. apply (IH x (fun t a => Q (Observed e x :: t) a)); [| apply H].
    intros t a. apply HQ.
Qed.

Lemma ensures_bind {A B : Type} (p : Prog A) (f : A -> Prog B)
    (Q : list Obs -> B -> Prop) :
  Ensures p (fun t a => Ensures (f a) (fun t' b => Q (t ++ t')%list b)) ->
  Ensures (bind p f) Q.
Proof.
  revert Q. induction p as [a | X e k IH]; intros Q H; cbn in *.
  - exact H.
  - intros x. apply IH. apply H.
Qed.

(** ** Every run of the provisioner *)

#[local] Arguments String.eqb : simpl never.
#[local] Arguments Nat.ltb : simpl never.
#[local] Arguments Js.truthy : simpl never.
#[local] Arguments Js.trim : simpl never.
#[local] Arguments Js.split : simpl never.
#[local] Arguments Js.startsWith : simpl never.
#[local] Arguments Js.show_null : simpl never.
#[local] Arguments Js.show_undefined : simpl never.
#[local] Arguments Js.or_else : simpl never.
#[local] Arguments findBranchEntry : simpl never.
#[local] Arguments findPathConflict : simpl never.
#[local] Arguments path_resolve : simpl never.
#[local] Arguments NodePath.resolve : simpl never.
#[local] Arguments NodePath.join : simpl never.
#[local] Arguments targetWorktreePath : simpl never.
#[local] Arguments branchForWorktree : simpl never.
#[local] Arguments getWorktreesDir : simpl never.
#[local] Arguments isValidWorktreeName : simpl never.
#[local] Arguments toResult : simpl never.
#[local] Arguments creations : simpl never.
#[local] Arguments commands : simpl never.
#[local] Arguments lookup_slot : simpl never.
#[local] Arguments actualReqPathForVite : simpl never.

(** The innermost term a stuck program is waiting on. *)
Ltac scrutinee t :=
  match t with
  | context [match ?x with _ => _ end] =>
      match x with
      | context [match _ with _ => _ end] => scrutinee x
      | _ => constr:(x)
      end
  end.

(** One step of symbolic execution: enter the continuation of an event for
    an arbitrary answer, or split on what the program branches on. *)
Ltac explore_step :=
  lazymatch goal with
  | |- Ensures (Ret _) _ => cbv beta delta [Ensures] iota
  | |- Ensures (Vis _ _) _ =>
      let x := fresh "x" in
      change (Ensures (Vis ?e ?k) ?Q)
        with (forall x, Ensures (k x) (fun t a => Q (Observed e x :: t) a));
      intros x; cbv beta
  | |- Ensures ?p _ =>
      first
        [ progress cbn [bind trigger console_log console_warn console_error
                        execCommand awaitExec fsCall]
        | let x := scrutinee p in destruct x eqn:? ]
  end.

Ltac explore := repeat explore_step.

(** The lookup mutates nothing, and a path it finds is not empty. *)
Lemma lookup_inert (cwd b r : string) :
  Ensures (getWorktreePathForBranch cwd b r)
    (fun t v => inert t = true /\ forall p, v = Some p -> Js.truthy p = true).
Proof.
  unfold getWorktreePathForBranch, getCurrentBranch, getCurrentBranch_catch.
  explore.
  all: split; [reflexivity |].
  all: try discriminate.
  - intros p. apply findBranchEntry_truthy.
  - intros p H. injection H as <-. apply PathFacts.resolve_truthy.
Qed.

(** The last stage issues exactly one [git worktree add]. *)
Lemma add_ok (name repoPath : string) :
  Ensures (createWorktree_add name repoPath)
    (fun t r => attempt_ok (getWorktreesDir repoPath) t r && late r = true
                /\ List.length (creations t) = 1).
Proof.
  unfold createWorktree_add, createWorktree_install.
  explore.
  all: split; reflexivity.
Qed.

Ltac side_condition :=
  cbn [obs_mkdir_at]; rewrite ?String.eqb_refl, ?orb_true_r; reflexivity.

Lemma prepare_ok (name repoPath : string) :
  Ensures (createWorktree_prepare name repoPath)
    (fun t r => attempt_ok (getWorktreesDir repoPath) t r && late r = true).
Proof.
  unfold createWorktree_prepare.
  explore.
  all: try reflexivity.
  all: try (refine (ensures_weaken _ _ _ _ (add_ok name repoPath));
            intros t r [H _];
            repeat (apply late_ok_cons; [side_condition |]); exact H).
  unfold attempt_ok, best_effort_install, conflict_discipline, only_mkdir.
  cbn [forallb existsb obs_mkdir_at]. rewrite String.eqb_refl. reflexivity.
Qed.

Lemma directory_ok (name repoPath : string) :
  Ensures (createWorktree_directory name repoPath)
    (fun t r => attempt_ok (getWorktreesDir repoPath) t r = true).
Proof.
  unfold createWorktree_directory.
  explore.
  all: try reflexivity.
  all: refine (ensures_weaken _ _ _ _ (prepare_ok name repoPath));
    intros t r H; apply andb_prop in H as [H _];
    repeat (apply attempt_ok_cons; [reflexivity |]); exact H.
Qed.

Lemma path_ok (cwd name repoPath : string) :
  Ensures (createWorktree_path cwd name repoPath)
    (fun t r => attempt_ok (getWorktreesDir repoPath) t r = true).
Proof.
  unfold createWorktree_path.
  explore.
  all: try reflexivity.
  all: refine (ensures_weaken _ _ _ _ (directory_ok name repoPath));
    intros t r H;
    repeat (apply attempt_ok_cons; [reflexivity |]); exact H.
Qed.

Lemma try_ok (cwd name repoPath : string) :
  Ensures (createWorktree_try cwd name repoPath)
    (fun t r => attempt_ok (getWorktreesDir repoPath) t r = true).
Proof.
  unfold createWorktree_try. apply ensures_bind.
  refine (ensures_weaken _ _ _ _ (lookup_inert cwd _ repoPath)).
  intros t v [Hi _].
  explore.
  all: try (apply attempt_ok_app; [exact Hi | reflexivity]).
  all: refine (ensures_weaken _ _ _ _ (path_ok cwd name repoPath));
    intros t' r H; apply attempt_ok_app; [exact Hi |];
    repeat (apply attempt_ok_cons; [reflexivity |]); exact H.
Qed.

Lemma catch_ok (dir : string) (T : list Obs) (r : Try Thrown Outcome) :
  attempt_ok dir T r = true ->
  Ensures
    match r with
    | Returned o => Ret o
    | Raised error =>
        bind (console_error "Error creating worktree:" (Some error))
          (fun _ => Ret (Failed error))
    end
    (fun t' o => best_effort_install (T ++ t') o = true
                 /\ conflict_discipline dir (T ++ t') o = true).
Proof.
  intros H. destruct r as [o | e]; explore.
  - rewrite app_nil_r. apply andb_prop in H. exact H.
  - split; [| reflexivity]. cbn [attempt_ok] in H. apply negb_true_iff in H.
    unfold best_effort_install. rewrite existsb_app, H. reflexivity.
Qed.

(** In every environment an attempt installs best-effort and respects the
    conflict discipline. *)
Lemma outcome_ok (cwd name repoPath : string) :
  Ensures (createWorktree_outcome cwd name repoPath)
    (fun t o => best_effort_install t o = true
                /\ conflict_discipline (getWorktreesDir repoPath) t o = true).
Proof.
  unfold createWorktree_outcome. explore. apply ensures_bind.
  refine (ensures_weaken _ _ _ _ (try_ok cwd name repoPath)).
  intros t r H.
  refine (catch_ok _ (_ :: t) r _).
  apply attempt_ok_cons; [reflexivity | exact H].
Qed.

(** *** The provisioner does not touch [viteServers] *)

Ltac local_tail lem :=
  refine (ensures_weaken _ _ _ _ lem);
  let H := fresh "H" in
  intros ? ? H; cbn [forallb obs_local andb]; exact H.

Lemma lookup_local (cwd b r : string) :
  Ensures (getWorktreePathForBranch cwd b r)
    (fun t _ => forallb obs_local t = true).
Proof.
  unfold getWorktreePathForBranch, getCurrentBranch, getCurrentBranch_catch.
  explore. all: reflexivity.
Qed.

Lemma add_local (name repoPath : string) :
  Ensures (createWorktree_add name repoPath)
    (fun t _ => forallb obs_local t = true).
Proof.
  unfold createWorktree_add, createWorktree_install.
  explore. all: reflexivity.
Qed.

Lemma prepare_local (name repoPath : string) :
  Ensures (createWorktree_prepare name repoPath)
    (fun t _ => forallb obs_local t = true).
Proof.
  unfold createWorktree_prepare.
  explore. all: first [reflexivity | local_tail (add_local name repoPath)].
Qed.

Lemma directory_local (name repoPath : string) :
  Ensures (createWorktree_directory name repoPath)
    (fun t _ => forallb obs_local t = true).
Proof.
  unfold createWorktree_directory.
  explore. all: first [reflexivity | local_tail (prepare_local name repoPath)].
Qed.

Lemma path_local (cwd name repoPath : string) :
  Ensures (createWorktree_path cwd name repoPath)
    (fun t _ => forallb obs_local t = true).
Proof.
  unfold createWorktree_path.
  explore. all: first [reflexivity | local_tail (directory_local name repoPath)].
Qed.

Lemma try_local (cwd name repoPath : string) :
  Ensures (createWorktree_try cwd name repoPath)
    (fun t _ => forallb obs_local t = true).
Proof.
  unfold createWorktree_try. apply ensures_bind.
  refine (ensures_weaken _ _ _ _ (lookup_local cwd _ repoPath)).
  intros t v Ht. explore.
  all: try (rewrite forallb_app, Ht; reflexivity).
  all: refine (ensures_weaken _ _ _ _ (path_local cwd name repoPath));
    intros t' r H; rewrite forallb_app, Ht;
    cbn [forallb obs_local andb]; exact H.
Qed.

Lemma outcome_local (cwd name repoPath : string) :
  Ensures (createWorktree_outcome cwd name repoPath)
    (fun t _ => forallb obs_local t = true).
Proof.
  unfold createWorktree_outcome. explore. apply ensures_bind.
  refine (ensures_weaken _ _ _ _ (try_local cwd name repoPath)).
  intros t r H. destruct r; explore.
  all: cbn [forallb obs_local andb]; rewrite forallb_app, H; reflexivity.
Qed.

Lemma createWorktree_local (cwd name repoPath : string) :
  Ensures (createWorktree cwd name repoPath)
    (fun t _ => forallb obs_local t = true).
Proof.
  unfold createWorktree. apply ensures_bind.
  refine (ensures_weaken _ _ _ _ (outcome_local cwd name repoPath)).
  intros t o H. explore. rewrite app_nil_r. exact H.
Qed.

(** *** The middleware and [viteServers] *)

Lemma local_no_set (o : Obs) : obs_local o = true -> obs_set o = None.
Proof.
  destruct o as [X e x]. destruct e; try reflexivity; discriminate.
Qed.

Lemma registry_after_no_set (t : list Obs) (m : gmap string ViteServer) :
  omap obs_set t = [] -> registry_after t m = m.
Proof.
  revert m. induction t as [|o t IH]; intros m H; [reflexivity |].
  cbn [omap list_omap] in H. cbn [registry_after fold_left].
  destruct (obs_set o); [discriminate |]. apply IH. exact H.
Qed.

Lemma local_sets (t : list Obs) : forallb obs_local t = true -> omap obs_set t = [].
Proof.
  induction t as [|o t IH]; [reflexivity |].
  cbn [forallb omap list_omap]. intros H. apply andb_prop in H as [Ho Ht].
  rewrite (local_no_set _ Ho). exact (IH Ht).
Qed.

Lemma no_set_forall (P : string -> ViteServer -> Prop) (t : list Obs) :
  omap obs_set t = [] ->
  Forall (fun o => forall name s, obs_set o = Some (name, s) -> P name s) t.
Proof.
  induction t as [|o t IH]; intros H; [constructor |].
  cbn [omap list_omap] in H. destruct (obs_set o) eqn:E; [discriminate |].
  constructor; [| exact (IH H)].
  intros name s E'. rewrite E in E'. discriminate.
Qed.

Lemma registry_after_wf (repoPath : string) (t : list Obs)
    (m : gmap string ViteServer) :
  Forall (set_ok repoPath) t ->
  registry_wf repoPath m -> registry_wf repoPath (registry_after t m).
Proof.
  intros Ht. revert m. induction Ht as [|o t Ho Ht IH]; intros m Hm; [exact Hm |].
  cbn [registry_after fold_left]. apply IH.
  destruct (obs_set o) as [[name s] |] eqn:E; [| exact Hm].
  intros name' s' Hl. destruct (decide (name = name')) as [<- | Hne].
  - rewrite lookup_insert_eq in Hl. injection Hl as <-. exact (Ho _ _ E).
  - rewrite lookup_insert_ne in Hl by exact Hne. exact (Hm _ _ Hl).
Qed.

Lemma main_install_ok (repoPath : string) :
  Ensures (main_install repoPath)
    (fun t _ => forallb obs_local t = true
                /\ omap obs_exec t = [(pnpm_cmd, repoPath)]
                /\ omap obs_create_server t = []
                /\ creations t = []).
Proof.
  unfold main_install. explore. all: repeat split; reflexivity.
Qed.

Lemma main_serve_ok (cwd : string) (req : Request)
    (worktree rootPathForVite actualReqPathForVite : string) :
  Ensures (main_serve cwd req worktree rootPathForVite actualReqPathForVite)
    (fun t _ => omap obs_set t = []
                /\ omap obs_exec t = []
                /\ omap obs_create_server t = []
                /\ creations t = []).
Proof.
  unfold main_serve. explore. all: repeat split; reflexivity.
Qed.

Lemma main_ensure_server_ok (cwd repoPath : string) (req : Request)
    (worktree rootPathForVite effectiveViteBasePath actualReqPathForVite : string) :
  Ensures (main_ensure_server cwd repoPath req worktree rootPathForVite
             effectiveViteBasePath actualReqPathForVite)
    (fun t _ =>
       Forall (stores worktree
                 {| cfg_root := rootPathForVite;
                    cfg_base := effectiveViteBasePath;
                    cfg_fs_allow := [repoPath; getWorktreesDir repoPath] |}) t
       /\ omap obs_exec t = []
       /\ creations t = []).
Proof.
  unfold main_ensure_server. explore.
  all: try (split; [| split; reflexivity];
            repeat (apply List.Forall_cons;
                    [intros name s E; cbn in E; discriminate E |]);
            apply List.Forall_nil).
  all: refine (ensures_weaken _ _ _ _
                 (main_serve_ok cwd req worktree rootPathForVite
                    actualReqPathForVite));
    intros t r (Hset & Hexec & _ & Hcre);
    (split; [| split]);
    [ repeat (apply List.Forall_cons;
              [intros name s E; cbn in E;
               first [discriminate E
                     | injection E as <- <-; split; reflexivity] |]);
      apply no_set_forall; exact Hset
    | cbn [omap list_omap obs_exec]; exact Hexec
    | repeat (rewrite creations_cons_inert by reflexivity); exact Hcre ].
Qed.

Lemma local_set_ok (repoPath : string) (t : list Obs) :
  forallb obs_local t = true -> Forall (set_ok repoPath) t.
Proof. intros H. apply no_set_forall, local_sets, H. Qed.

Lemma stores_set_ok (repoPath worktree : string) (cfg : ViteConfig)
    (t : list Obs) :
  isValidWorktreeName worktree = true ->
  cfg = config_for repoPath worktree ->
  Forall (stores worktree cfg) t -> Forall (set_ok repoPath) t.
Proof.
  intros Hv -> H. induction H as [|o t Ho Ht IH]; constructor; [| exact IH].
  intros name s E. destruct (Ho _ _ E) as [-> ->]. split; [exact Hv | reflexivity].
Qed.

Lemma get_set_ok (repoPath name : string) (x : Slot) :
  set_ok repoPath (Observed (GetServer name) x).
Proof. intros n s E. discriminate E. Qed.

Lemma console_set_ok (repoPath : string) (lvl : Level) (msg : string)
    (arg : option Thrown) (x : unit) :
  set_ok repoPath (Observed (Console lvl msg arg) x).
Proof. intros n s E. discriminate E. Qed.

(** Every write of the middleware keeps the registry well formed. *)
Lemma middleware_sets (cwd repoPath : string) (req : Request) :
  Ensures (main_middleware cwd repoPath req)
    (fun t _ => Forall (set_ok repoPath) t).
Proof.
  unfold main_middleware. explore.
  all: try (repeat (apply List.Forall_cons;
                    [first [apply get_set_ok | apply console_set_ok] |]);
            apply List.Forall_nil).
  - (* the [main] workspace *)
    apply andb_prop in Heqb as [_ Hvalid]. apply String.eqb_eq in Heqb1.
    apply ensures_bind.
    refine (ensures_weaken _ _ _ _ (main_install_ok repoPath)).
    intros t [] (Hloc & _).
    refine (ensures_weaken _ _ _ _ (main_ensure_server_ok _ _ _ _ _ _ _)).
    intros t' r (Hst & _).
    apply List.Forall_cons; [apply get_set_ok |].
    apply List.Forall_cons; [apply console_set_ok |].
    apply Forall_app. split; [apply local_set_ok; exact Hloc |].
    refine (stores_set_ok _ _ _ _ Hvalid _ Hst).
    rewrite Heqb1. reflexivity.
  - (* a worktree *)
    apply andb_prop in Heqb as [_ Hvalid].
    apply ensures_bind.
    refine (ensures_weaken _ _ _ _ (createWorktree_local cwd _ repoPath)).
    intros t res Hloc. explore.
    + apply List.Forall_cons; [apply get_set_ok |].
      apply Forall_app. split; [apply local_set_ok; exact Hloc |].
      apply List.Forall_cons; [apply console_set_ok | apply List.Forall_nil].
    + refine (ensures_weaken _ _ _ _ (main_ensure_server_ok _ _ _ _ _ _ _)).
      intros t' r (Hst & _).
      apply List.Forall_cons; [apply get_set_ok |].
      apply Forall_app. split; [apply local_set_ok; exact Hloc |].
      refine (stores_set_ok _ _ _ _ Hvalid _ Hst).
      unfold config_for. rewrite Heqb1. reflexivity.
Qed.

(** ** Runs in a given environment *)

Section Runs.

Context {W : Type} (handle : forall X : Type, ExtEvent X -> W -> X * W).
Variable cwd : string.

Lemma run_bind {A B : Type} (p : Prog A) (f : A -> Prog B) (st : State W) :
  run handle (bind p f) st
  = {| value := value (run handle (f (value (run handle p st)))
                         (final (run handle p st)));
       trace := (trace (run handle p st)
                   ++ trace (run handle (f (value (run handle p st)))
                               (final (run handle p st))))%list;
       final := final (run handle (f (value (run handle p st)))
                         (final (run handle p st))) |}.
Proof.
  revert st. induction p as [a | X e k IH]; intros st; cbn.
  - destruct (run handle (f a) st); reflexivity.
  - rewrite IH. reflexivity.
Qed.

(** What [Ensures] promises holds of the run in this environment. *)
Lemma ensures_sound {A : Type} (p : Prog A) (Q : list Obs -> A -> Prop)
    (st : State W) :
  Ensures p Q -> Q (trace (run handle p st)) (value (run handle p st)).
Proof.
  revert Q st. induction p as [a | X e k IH]; intros Q st H; cbn in *.
  - exact H.
  - apply (IH _ (fun t a => Q (Observed e (fst (step handle e st)) :: t) a)).
    apply H.
Qed.

Lemma run_createWorktree (name repoPath : string) (st : State W) :
  run handle (createWorktree cwd name repoPath) st
  = {| value := toResult name repoPath
                  (value (run handle (createWorktree_outcome cwd name repoPath) st));
       trace := trace (run handle (createWorktree_outcome cwd name repoPath) st);
       final := final (run handle (createWorktree_outcome cwd name repoPath) st) |}.
Proof.
  unfold createWorktree. rewrite run_bind. cbn. rewrite app_nil_r. reflexivity.
Qed.

Lemma execs_here (c : string * string) (o : Obs) (t : list Obs) :
  obs_exec o = Some c -> In c (omap obs_exec (o :: t)).
Proof. intros H. cbn [omap list_omap]. rewrite H. left. reflexivity. Qed.

Lemma execs_cons (c : string * string) (o : Obs) (t : list Obs) :
  In c (omap obs_exec t) -> In c (omap obs_exec (o :: t)).
Proof.
  intros H. cbn [omap list_omap]. destruct (obs_exec o); [right |]; exact H.
Qed.

Lemma execs_app_l (c : string * string) (t t' : list Obs) :
  In c (omap obs_exec t) -> In c (omap obs_exec (t ++ t')%list).
Proof. intros H. rewrite omap_app. apply in_or_app. left. exact H. Qed.

Lemma execs_app_r (c : string * string) (t t' : list Obs) :
  In c (omap obs_exec t') -> In c (omap obs_exec (t ++ t')%list).
Proof. intros H. rewrite omap_app. apply in_or_app. right. exact H. Qed.

(** Locate a command in the trace of an attempt: after the first log, in
    the part that follows the lookup. *)
Ltac find_exec :=
  apply execs_cons, execs_app_l, execs_app_r;
  repeat first [ apply execs_here; reflexivity | apply execs_cons ].

Ltac creations_norm :=
  repeat first
    [ rewrite app_nil_r
    | rewrite creations_app
    | rewrite creations_cons_inert by reflexivity
    | rewrite inert_creations by assumption ].

(** When the listing succeeds the lookup is the scan of its entries and
    nothing else: one command is run and the primary working copy is not
    asked for its branch. *)
Lemma lookup_after_listing (b repoPath : string) (st : State W) (out : ExecOutput) :
  answer handle (ExecCommand list_cmd repoPath) st = Returned out ->
  value (run handle (getWorktreePathForBranch cwd b repoPath) st)
  = findBranchEntry cwd b (Js.split (Js.LF ++ Js.LF) (stdout out))
  /\ omap obs_exec (trace (run handle (getWorktreePathForBranch cwd b repoPath) st))
     = [(list_cmd, repoPath)].
Proof.
  intros Hlist. unfold getWorktreePathForBranch. cbn. rewrite Hlist. cbn.
  split; reflexivity.
Qed.

(** C6. For a valid name whose branch no checkout holds and whose target
    path is no checkout of another branch, a target directory that exists
    and is not empty makes the attempt fail with [NonEmptyDirectory]; no
    [git worktree add] is issued. *)
Theorem directory_guard (name repoPath : string) (st : State W)
    (out : ExecOutput) (files : list string) :
  isValidWorktreeName name = true ->
  let branch := branchForWorktree name in
  let target := targetWorktreePath repoPath name in
  let lk := run handle (getWorktreePathForBranch cwd branch repoPath) st in
  let st1 := final lk in
  let st2 := after handle (ExecCommand list_cmd repoPath) st1 in
  let st3 := after handle (ExistsSync target) st2 in
  value lk = None ->
  answer handle (ExecCommand list_cmd repoPath) st1 = Returned out ->
  findPathConflict cwd target branch (Js.split (Js.LF ++ Js.LF) (stdout out)) = None ->
  answer handle (ExistsSync target) st2 = true ->
  answer handle (ReaddirSync target) st3 = Returned files ->
  files <> [] ->
  let r := run handle (createWorktree cwd name repoPath) st in
  value r = toResult name repoPath NonEmptyDirectory
  /\ success (value r) = false
  /\ creations (trace r) = [].
Proof.
  intros _ branch target lk st1 st2 st3 Hnone Hlist Hpath Hexists Hread Hfiles r.
  pose proof (ensures_sound _ _ st (lookup_inert cwd branch repoPath)) as [Hin _].
  fold lk in Hin.
  assert (Hlt : (0 <? List.length files)%nat = true)
    by (destruct files; [contradiction | reflexivity]).
  subst r. rewrite run_createWorktree. cbn [value trace].
  unfold createWorktree_outcome. cbn. rewrite run_bind.
  unfold createWorktree_try. rewrite run_bind. fold branch. fold lk.
  cbn. rewrite Hnone. cbn.
  unfold createWorktree_path. cbn. fold st1. rewrite Hlist. cbn.
  fold branch target. rewrite Hpath.
  unfold createWorktree_directory. cbn. fold target st2. rewrite Hexists. cbn.
  fold st3. rewrite Hread. cbn. rewrite Hlt. cbn.
  split; [reflexivity |]. split; [reflexivity |].
  creations_norm. reflexivity.
Qed.

(** C1. For a valid name the attempt starts with the lookup of the checkout
    that holds the derived branch. When the lookup finds one, no
    [git worktree add] is issued: the attempt succeeds if the resolved path
    found equals the resolved target path, and fails with
    [BranchCheckedOutElsewhere] otherwise. *)
Theorem branch_ownership_check (name repoPath : string) (st : State W)
    (existing : string) :
  isValidWorktreeName name = true ->
  let branch := branchForWorktree name in
  let target := targetWorktreePath repoPath name in
  let lk := run handle (getWorktreePathForBranch cwd branch repoPath) st in
  value lk = Some existing ->
  let r := run handle (createWorktree cwd name repoPath) st in
  (exists l rest,
      trace r = l :: (trace lk ++ rest)%list /\ obs_external l = false)
  /\ creations (trace r) = []
  /\ (path_resolve cwd existing = path_resolve cwd target ->
        value r = toResult name repoPath AlreadyExists
        /\ success (value r) = true)
  /\ (path_resolve cwd existing <> path_resolve cwd target ->
        value r = toResult name repoPath (BranchCheckedOutElsewhere existing)
        /\ success (value r) = false).
Proof.
  intros _ branch target lk Hfound r.
  pose proof (ensures_sound _ _ st (lookup_inert cwd branch repoPath)) as [Hin Htr].
  fold lk in Hin, Htr. specialize (Htr _ Hfound).
  subst r. rewrite run_createWorktree. cbn [value trace].
  unfold createWorktree_outcome. cbn. rewrite run_bind.
  unfold createWorktree_try. rewrite run_bind. fold branch. fold lk.
  cbn. rewrite Hfound. cbn. rewrite Htr. fold target.
  destruct (String.eqb_spec (path_resolve cwd existing) (path_resolve cwd target))
    as [E | E]; cbn.
  - split; [eexists _, _; split; [rewrite app_nil_r; reflexivity | reflexivity] |].
    split; [creations_norm; reflexivity |].
    split; [intros _; split; reflexivity | intros Hne; contradiction].
  - split; [eexists _, _; split; [rewrite app_nil_r; reflexivity | reflexivity] |].
    split; [creations_norm; reflexivity |].
    split; [intros Heq; contradiction | intros _; split; reflexivity].
Qed.

(** C10. An empty directory at the target path, after the branch and path
    checks found no conflict, does not end the attempt with
    [NonEmptyDirectory]: unless creating the worktrees directory throws, the
    base branch is verified, and if that verification passes exactly one
    [git worktree add] is issued. *)
Theorem empty_directory_proceeds (name repoPath : string) (st : State W)
    (out : ExecOutput) :
  isValidWorktreeName name = true ->
  let branch := branchForWorktree name in
  let target := targetWorktreePath repoPath name in
  let worktreesDir := getWorktreesDir repoPath in
  let lk := run handle (getWorktreePathForBranch cwd branch repoPath) st in
  let st1 := final lk in
  let st2 := after handle (ExecCommand list_cmd repoPath) st1 in
  let st3 := after handle (ExistsSync target) st2 in
  let st4 := after handle (ReaddirSync target) st3 in
  let st5 := after handle (ExistsSync worktreesDir) st4 in
  let st6 := if answer handle (ExistsSync worktreesDir) st4 then st5
             else after handle (MkdirSync worktreesDir) st5 in
  value lk = None ->
  answer handle (ExecCommand list_cmd repoPath) st1 = Returned out ->
  findPathConflict cwd target branch (Js.split (Js.LF ++ Js.LF) (stdout out)) = None ->
  answer handle (ExistsSync target) st2 = true ->
  answer handle (ReaddirSync target) st3 = Returned [] ->
  let r := run handle (createWorktree_outcome cwd name repoPath) st in
  value r <> NonEmptyDirectory
  /\ ((answer handle (ExistsSync worktreesDir) st4 = false ->
       answer handle (MkdirSync worktreesDir) st5 = Returned tt) ->
      In (verify_cmd, repoPath) (omap obs_exec (trace r))
      /\ (forall ok, answer handle (ExecCommand verify_cmd repoPath) st6 = Returned ok ->
            List.length (creations (trace r)) = 1)).
Proof.
  intros _ branch target worktreesDir lk st1 st2 st3 st4 st5 st6
    Hnone Hlist Hpath Hexists Hread r.
  pose proof (ensures_sound _ _ st (lookup_inert cwd branch repoPath)) as [Hin _].
  fold lk in Hin.
  subst r.
  unfold createWorktree_outcome. cbn. rewrite run_bind.
  unfold createWorktree_try. rewrite run_bind. fold branch. fold lk.
  cbn. rewrite Hnone. cbn.
  unfold createWorktree_path. cbn. fold st1. rewrite Hlist. cbn.
  fold branch target. rewrite Hpath.
  unfold createWorktree_directory. cbn. fold target st2. rewrite Hexists. cbn.
  fold st3. rewrite Hread. cbn. fold st4.
  change ((0 <? 0)%nat) with false. cbn iota.
  pose proof (ensures_sound _ _ st4 (prepare_ok name repoPath)) as Hlate.
  apply andb_prop in Hlate as [_ Hlate].
  split.
  - destruct (value (run handle (createWorktree_prepare name repoPath) st4))
      as [o | e]; cbn; [| discriminate].
    destruct o; try discriminate Hlate; discriminate.
  - intros Hmk. clear Hlate. subst st6.
    unfold createWorktree_prepare. cbn. fold worktreesDir.
    destruct (answer handle (ExistsSync worktreesDir) st4) eqn:Hd; cbn;
      fold st5.
    + destruct (answer handle (ExecCommand verify_cmd repoPath) st5)
        as [ok | checkError] eqn:Hv; cbn.
      * split; [find_exec |].
        intros _ _.
        pose proof (ensures_sound _ _
                      (after handle (ExecCommand verify_cmd repoPath) st5)
                      (add_ok name repoPath)) as [_ Hone].
        destruct (value (run handle (createWorktree_add name repoPath)
                           (after handle (ExecCommand verify_cmd repoPath) st5)));
          cbn; creations_norm; exact Hone.
      * split; [find_exec |]. intros ok Hok. discriminate Hok.
    + rewrite (Hmk eq_refl). cbn.
      destruct (answer handle (ExecCommand verify_cmd repoPath)
                  (after handle (MkdirSync worktreesDir) st5))
        as [ok | checkError] eqn:Hv; cbn.
      * split; [find_exec |].
        intros _ _.
        pose proof (ensures_sound _ _
                      (after handle (ExecCommand verify_cmd repoPath)
                         (after handle (MkdirSync worktreesDir) st5))
                      (add_ok name repoPath)) as [_ Hone].
        destruct (value (run handle (createWorktree_add name repoPath)
                           (after handle (ExecCommand verify_cmd repoPath)
                              (after handle (MkdirSync worktreesDir) st5))));
          cbn; creations_norm;
          rewrite (creations_cons_skip worktreesDir) by side_condition;
          creations_norm; exact Hone.
      * split; [find_exec |]. intros ok Hok. discriminate Hok.
Qed.

(** C8. Once [git worktree add] has resolved, the attempt returns success
    whatever the dependency installation does; a rejected installation is
    reported by a [console.error] and by nothing else. *)
Theorem install_failure_not_fatal (name repoPath : string) (st : State W) :
  let r := run handle (createWorktree cwd name repoPath) st in
  existsb obs_created (trace r) = true ->
  success (value r) = true
  /\ (exists addCmdOutput,
         value r = toResult name repoPath (Created addCmdOutput))
  /\ (existsb obs_install_failed (trace r) = true ->
      install_failure_logged (trace r) = true).
Proof.
  intros r Hcreated. subst r. rewrite run_createWorktree in *.
  cbn [value trace] in *.
  pose proof (ensures_sound _ _ st (outcome_ok cwd name repoPath)) as [Hb _].
  unfold best_effort_install in Hb. rewrite Hcreated in Hb. cbn [implb] in Hb.
  apply andb_prop in Hb as [Ho Hlog].
  destruct (value (run handle (createWorktree_outcome cwd name repoPath) st));
    try discriminate Ho.
  split; [reflexivity |]. split; [eexists; reflexivity |].
  intros Hfailed. rewrite Hfailed in Hlog. exact Hlog.
Qed.

(** C7, as the code has it. An attempt that ends in a conflict failure has
    issued no [git worktree add] and no [pnpm install]. Before
    [BranchCheckedOutElsewhere], [PathOccupiedByOtherBranch] and
    [NonEmptyDirectory] nothing was mutated; before [InvalidBaseBranch] the
    only possible mutation is the [mkdirSync] of the worktrees directory. *)
Theorem conflict_before_creation (name repoPath : string) (st : State W) :
  let r := run handle (createWorktree_outcome cwd name repoPath) st in
  is_conflict (value r) = true ->
  creations (trace r) = []
  /\ List.filter obs_mutating (trace r)
     = List.filter (obs_mkdir_at (getWorktreesDir repoPath)) (trace r)
  /\ ((forall checkError, value r <> InvalidBaseBranch checkError) ->
      List.filter obs_mutating (trace r) = []).
Proof.
  intros r Hconflict.
  pose proof (ensures_sound _ _ st (outcome_ok cwd name repoPath)) as [_ Hd].
  fold r in Hd. unfold conflict_discipline in Hd.
  assert (Honly : only_mkdir (getWorktreesDir repoPath) (trace r) = true).
  { destruct (value r); try discriminate Hconflict;
      try exact Hd; apply inert_only_mkdir; exact Hd. }
  split; [exact (only_mkdir_creations _ _ Honly) |].
  split; [exact (only_mkdir_filter _ _ Honly) |].
  intros Hnot. apply inert_filter.
  destruct (value r); try discriminate Hconflict; try exact Hd.
  exfalso. exact (Hnot _ eq_refl).
Qed.

(** *** The middleware *)

Lemma run_registry {A : Type} (p : Prog A) (st : State W) :
  viteServers (final (run handle p st))
  = registry_after (trace (run handle p st)) (viteServers st).
Proof.
  revert st. induction p as [a | X e k IH]; intros st; cbn; [reflexivity |].
  rewrite IH. destruct e; reflexivity.
Qed.

(** Starting from a well-formed registry (the empty one is), every request
    leaves a well-formed registry. *)
Lemma registry_wf_preserved (repoPath : string) (req : Request) (st : State W) :
  registry_wf repoPath (viteServers st) ->
  registry_wf repoPath
    (viteServers (final (run handle (main_middleware cwd repoPath req) st))).
Proof.
  intros Hwf. rewrite run_registry. apply registry_after_wf; [| exact Hwf].
  exact (ensures_sound _ _ st (middleware_sets cwd repoPath req)).
Qed.

Lemma invalid_char_invalid_name (name : string) :
  existsb (fun c => negb (is_name_char c)) (list_ascii_of_string name) = true ->
  isValidWorktreeName name = false.
Proof.
  unfold isValidWorktreeName. intros H.
  destruct (list_ascii_of_string name) as [|c cs] eqn:E; [reflexivity |].
  apply not_true_is_false. intros Hall.
  apply existsb_exists in H as (x & Hin & Hx).
  rewrite forallb_forall in Hall. rewrite (Hall x Hin) in Hx. discriminate.
Qed.

Lemma prototype_keys_valid (name : string) :
  existsb (String.eqb name) object_prototype_keys = true ->
  isValidWorktreeName name = true.
Proof.
  intros H. apply existsb_exists in H as (k & Hin & Hk).
  apply String.eqb_eq in Hk. subst k.
  assert (Hall : forallb isValidWorktreeName object_prototype_keys = true)
    by reflexivity.
  rewrite forallb_forall in Hall. exact (Hall _ Hin).
Qed.

(** A name that is not valid has no slot in a well-formed registry. *)
Lemma invalid_name_slot (repoPath name : string) (m : gmap string ViteServer) :
  registry_wf repoPath m ->
  isValidWorktreeName name = false ->
  lookup_slot m name = Undefined.
Proof.
  intros Hwf Hinv. unfold lookup_slot.
  destruct (m !! name) as [s |] eqn:E.
  - destruct (Hwf _ _ E) as [Hv _]. congruence.
  - destruct (existsb (String.eqb name) object_prototype_keys) eqn:Ek;
      [| reflexivity].
    apply prototype_keys_valid in Ek. congruence.
Qed.

(** C4. For a workspace name with a character outside ASCII letters,
    digits, dash and underscore the middleware makes no external call at
    all and passes the request to the next handler. The registry holds
    servers under valid names only ([registry_wf_preserved]). *)
Theorem invalid_name_falls_through (repoPath : string) (req : Request)
    (st : State W) :
  existsb (fun c => negb (is_name_char c))
    (list_ascii_of_string (req_worktree req)) = true ->
  registry_wf repoPath (viteServers st) ->
  let r := run handle (main_middleware cwd repoPath req) st in
  value r = Next
  /\ List.filter obs_external (trace r) = []
  /\ final r = st.
Proof.
  intros Hchar Hwf r. subst r.
  pose proof (invalid_char_invalid_name _ Hchar) as Hinv.
  pose proof (invalid_name_slot _ _ _ Hwf Hinv) as Hslot.
  unfold main_middleware. cbn. rewrite Hslot. cbn.
  rewrite Hinv, andb_false_r. cbn. repeat split.
Qed.

Lemma run_main_install (repoPath : string) (st : State W) :
  final (run handle (main_install repoPath) st)
  = after handle (ExecCommand pnpm_cmd repoPath) st.
Proof.
  unfold main_install. cbn.
  destruct (answer handle (ExecCommand pnpm_cmd repoPath) st) as [out | e]; cbn;
    [| reflexivity].
  destruct (Js.truthy (stderr out)); reflexivity.
Qed.

(** C9. Resolving [main] never issues [git worktree add]; any server
    stored for [main] is rooted at the repository path with base [/main/];
    when no server is stored yet, the only command run is [pnpm install] in
    the repository path (its failure changes nothing), [vite.createServer]
    is called once with that root and base, and the server it returns is
    stored. *)
Theorem main_workspace (repoPath : string) (req : Request) (st : State W) :
  req_worktree req = "main" ->
  registry_wf repoPath (viteServers st) ->
  let main_cfg := {| cfg_root := repoPath; cfg_base := "/main/";
                     cfg_fs_allow := [repoPath; getWorktreesDir repoPath] |} in
  let r := run handle (main_middleware cwd repoPath req) st in
  creations (trace r) = []
  /\ (forall s, viteServers (final r) !! "main" = Some s ->
                server_config s = main_cfg)
  /\ (viteServers st !! "main" = None ->
      omap obs_exec (trace r) = [(pnpm_cmd, repoPath)]
      /\ omap obs_create_server (trace r) = [main_cfg]
      /\ (forall instance,
            answer handle (CreateServer main_cfg)
              (after handle (ExecCommand pnpm_cmd repoPath) st)
            = Returned instance ->
            viteServers (final r) !! "main"
            = Some {| server_config := main_cfg;
                      server_instance := instance |})).
Proof.
  intros Hmain Hwf main_cfg r.
  assert (Hslot : viteServers st !! "main" = None ->
                  lookup_slot (viteServers st) "main" = Undefined).
  { intros Hnone. unfold lookup_slot. rewrite Hnone. reflexivity. }
  pose proof (ensures_sound _ _ st (main_install_ok repoPath))
    as (_ & Hiexec & Hicreate & Hicre).
  set (st1 := after handle (ExecCommand pnpm_cmd repoPath) st).
  pose proof (ensures_sound _ _ st1
                (main_ensure_server_ok cwd repoPath req "main" repoPath "/main/"
                   (actualReqPathForVite (req_path req))))
    as (_ & Heexec & Hecre).
  assert (Hrun : viteServers st !! "main" = None ->
            r = {| value := value (run handle
                                     (main_ensure_server cwd repoPath req "main"
                                        repoPath "/main/"
                                        (actualReqPathForVite (req_path req))) st1);
                   trace := Observed (GetServer "main") Undefined
                            :: Observed
                                 (Console LevelLog
                                    ("[Server] Handling 'main' branch. Using repo path: "
                                     ++ repoPath) None) tt
                            :: (trace (run handle (main_install repoPath) st)
                                  ++ trace (run handle
                                              (main_ensure_server cwd repoPath req
                                                 "main" repoPath "/main/"
                                                 (actualReqPathForVite (req_path req)))
                                              st1))%list;
                   final := final (run handle
                                     (main_ensure_server cwd repoPath req "main"
                                        repoPath "/main/"
                                        (actualReqPathForVite (req_path req))) st1) |}).
  { intros Hnone. subst r. unfold main_middleware. rewrite Hmain. cbn.
    rewrite (Hslot Hnone). cbn.
    change (Js.truthy "main") with true.
    change (isValidWorktreeName "main") with true.
    change ("main" =? "main")%string with true. cbn.
    rewrite run_bind, run_main_install. reflexivity. }
  split; [| split].
  - (* no creation *)
    destruct (viteServers st !! "main") as [s |] eqn:Hl.
    + subst r. unfold main_middleware. rewrite Hmain. cbn.
      unfold lookup_slot. rewrite Hl. reflexivity.
    + rewrite (Hrun eq_refl). cbn [trace].
      rewrite !creations_cons_inert by reflexivity.
      rewrite creations_app, Hicre, Hecre. reflexivity.
  - intros s Hs.
    destruct (registry_wf_preserved repoPath req st Hwf _ _ Hs) as [_ Hc].
    exact Hc.
  - intros Hnone. rewrite (Hrun Hnone). cbn [trace final].
    cbn [omap list_omap obs_exec obs_create_server].
    rewrite !omap_app, Hiexec, Hicreate, Heexec. cbn [app].
    unfold main_ensure_server. cbn. fold main_cfg.
    assert (Hslot1 : lookup_slot (viteServers st1) "main" = Undefined)
      by exact (Hslot Hnone).
    rewrite Hslot1. cbn.
    destruct (answer handle (CreateServer main_cfg) st1) as [i | e] eqn:Hc; cbn.
    + set (st2 := {| world := world (after handle (CreateServer main_cfg) st1);
                     viteServers :=
                       <["main" := {| server_config := main_cfg;
                                      server_instance := i |}]>
                         (viteServers (after handle (CreateServer main_cfg) st1)) |}).
      pose proof (ensures_sound _ _ st2
                    (main_serve_ok cwd req "main" repoPath
                       (actualReqPathForVite (req_path req))))
        as (Hsset & _ & Hscreate & _).
      split; [reflexivity |]. split; [rewrite Hscreate; reflexivity |].
      intros instance Hi. injection Hi as <-.
      rewrite run_registry, (registry_after_no_set _ _ Hsset).
      apply lookup_insert_eq.
    + split; [reflexivity |]. split; [reflexivity |].
      intros instance Hi. discriminate Hi.
Qed.

(** C2, as the code has it. The middleware keeps no table of attempts in
    flight. A request whose name has a server stored is handed to that
    server without any external call; a request for a valid name other
    than [main] that has none, and that is not the name of a member of
    [Object.prototype], starts with a provisioning attempt of its own,
    whatever other requests are suspended; a request for the name of a
    member of [Object.prototype] that has no server rejects without any
    external call. *)
Theorem no_in_flight_table (repoPath : string) (req : Request) (st : State W) :
  let name := req_worktree req in
  let r := run handle (main_middleware cwd repoPath req) st in
  (forall s, viteServers st !! name = Some s ->
     value r = Middlewares s
     /\ List.filter obs_external (trace r) = []
     /\ final r = st)
  /\ (viteServers st !! name = None ->
      isValidWorktreeName name = true ->
      name <> "main" ->
      existsb (String.eqb name) object_prototype_keys = false ->
      exists rest,
        trace r
        = Observed (GetServer name) Undefined
          :: (trace (run handle (createWorktree cwd name repoPath) st)
                ++ rest)%list)
  /\ (viteServers st !! name = None ->
      existsb (String.eqb name) object_prototype_keys = true ->
      value r = Unhandled (not_a_function "server.middlewares")
      /\ List.filter obs_external (trace r) = []
      /\ final r = st).
Proof.
  intros name r. subst r. split; [| split].
  - intros s Hs. unfold main_middleware. cbn. fold name.
    unfold lookup_slot. rewrite Hs. cbn. repeat split.
  - intros Hnone Hvalid Hnot_main Hproto.
    assert (Htruthy : Js.truthy name = true).
    { destruct name; [discriminate Hvalid | reflexivity]. }
    unfold main_middleware. cbn. fold name.
    unfold lookup_slot. rewrite Hnone, Hproto. cbn.
    rewrite Htruthy, Hvalid. cbn.
    apply String.eqb_neq in Hnot_main. rewrite Hnot_main.
    rewrite run_bind. cbn [trace]. eexists. reflexivity.
  - intros Hnone Hproto. unfold main_middleware. cbn. fold name.
    unfold lookup_slot. rewrite Hnone, Hproto. cbn. repeat split.
Qed.

End Runs.

(** ** Concrete runs *)

Lemma registry_wf_empty (repoPath : string) : registry_wf repoPath ∅.
Proof. intros name s H. rewrite lookup_empty in H. discriminate H. Qed.

(** A listing that succeeds ends the lookup, whatever it shows: when it
    shows no record bound to [feature1-branch], the lookup returns nothing
    although [git rev-parse] reports that branch for the repository path.
    Only a listing that fails makes the lookup ask for the current branch. *)
Lemma listing_ends_lookup :
  value (Sim.run (getCurrentBranch repo0) (Sim.primary_on_branch true))
  = Some "feature1-branch"
  /\ value (Sim.run (getWorktreePathForBranch cwd0 "feature1-branch" repo0)
              (Sim.primary_on_branch true))
     = None
  /\ value (Sim.run (getWorktreePathForBranch cwd0 "feature1-branch" repo0)
              (Sim.primary_on_branch false))
     = Some (path_resolve cwd0 repo0).
Proof. vm_compute. repeat split. Qed.

Lemma branch_ownership_check_witness :
  isValidWorktreeName "feature1" = true
  /\ value (run Sim.handle
              (getWorktreePathForBranch cwd0 (branchForWorktree "feature1") repo0)
              (Sim.start Sim.branch_elsewhere))
     = Some "/X"
  /\ path_resolve cwd0 "/X" <> path_resolve cwd0 (targetWorktreePath repo0 "feature1")
  /\ creations (trace (run Sim.handle (createWorktree cwd0 "feature1" repo0)
                         (Sim.start Sim.branch_elsewhere))) = []
  /\ value (run Sim.handle (createWorktree cwd0 "feature1" repo0)
              (Sim.start Sim.branch_elsewhere))
     = toResult "feature1" repo0 (BranchCheckedOutElsewhere "/X").
Proof.
  assert (Hvalid : isValidWorktreeName "feature1" = true) by reflexivity.
  assert (Hfound :
    value (run Sim.handle
             (getWorktreePathForBranch cwd0 (branchForWorktree "feature1") repo0)
             (Sim.start Sim.branch_elsewhere))
    = Some "/X") by (vm_compute; reflexivity).
  assert (Hne : path_resolve cwd0 "/X"
                <> path_resolve cwd0 (targetWorktreePath repo0 "feature1"))
    by (vm_compute; discriminate).
  destruct (branch_ownership_check Sim.handle cwd0 "feature1" repo0
              (Sim.start Sim.branch_elsewhere) "/X" Hvalid Hfound)
    as (_ & Hcre & _ & Helse).
  split; [exact Hvalid |]. split; [exact Hfound |]. split; [exact Hne |].
  split; [exact Hcre | exact (proj1 (Helse Hne))].
Defined.

Lemma directory_guard_witness :
  value (run Sim.handle (createWorktree cwd0 "feature1" repo0)
           (Sim.start (Sim.with_target ["junk"])))
  = toResult "feature1" repo0 NonEmptyDirectory
  /\ success (value (run Sim.handle (createWorktree cwd0 "feature1" repo0)
                       (Sim.start (Sim.with_target ["junk"])))) = false
  /\ creations (trace (run Sim.handle (createWorktree cwd0 "feature1" repo0)
                         (Sim.start (Sim.with_target ["junk"])))) = [].
Proof.
  apply (directory_guard Sim.handle cwd0 "feature1" repo0
           (Sim.start (Sim.with_target ["junk"]))
           {| stdout := Sim.render_list [("/home/u/repo", Some "main")];
              stderr := "" |}
           ["junk"]).
  - reflexivity.
  - vm_compute. reflexivity.
  - vm_compute. reflexivity.
  - vm_compute. reflexivity.
  - vm_compute. reflexivity.
  - vm_compute. reflexivity.
  - discriminate.
Defined.

Lemma empty_directory_proceeds_witness :
  value (run Sim.handle (createWorktree_outcome cwd0 "feature1" repo0)
           (Sim.start (Sim.with_target [])))
  <> NonEmptyDirectory
  /\ In (verify_cmd, repo0)
       (omap obs_exec
          (trace (run Sim.handle (createWorktree_outcome cwd0 "feature1" repo0)
                    (Sim.start (Sim.with_target [])))))
  /\ List.length
       (creations
          (trace (run Sim.handle (createWorktree_outcome cwd0 "feature1" repo0)
                    (Sim.start (Sim.with_target []))))) = 1.
Proof.
  destruct (empty_directory_proceeds Sim.handle cwd0 "feature1" repo0
              (Sim.start (Sim.with_target []))
              {| stdout := Sim.render_list [("/home/u/repo", Some "main")];
                 stderr := "" |})
    as [Hne Hrest].
  - reflexivity.
  - vm_compute. reflexivity.
  - vm_compute. reflexivity.
  - vm_compute. reflexivity.
  - vm_compute. reflexivity.
  - vm_compute. reflexivity.
  - split; [exact Hne |].
    destruct Hrest as [Hin Hone].
    + vm_compute. discriminate.
    + split; [exact Hin |].
      apply (Hone {| stdout := "0000000000000000000000000000000000000000" ++ Js.LF;
                     stderr := "" |}).
      vm_compute. reflexivity.
Defined.

(** C7 as stated fails: with no worktrees directory yet and a base branch
    that is not a commit, the attempt creates the directory and then ends in
    [InvalidBaseBranch]. *)
Lemma mkdir_before_invalid_base_branch :
  is_conflict (value (Sim.run (createWorktree_outcome cwd0 "feature1" repo0)
                        Sim.no_base)) = true
  /\ List.filter obs_mutating
       (trace (Sim.run (createWorktree_outcome cwd0 "feature1" repo0) Sim.no_base))
     = [Observed (Ext (MkdirSync "/home/u/repo-worktrees")) (Returned tt)].
Proof. vm_compute. split; reflexivity. Qed.

Lemma conflict_before_creation_witness :
  is_conflict (value (run Sim.handle (createWorktree_outcome cwd0 "feature1" repo0)
                        (Sim.start Sim.no_base))) = true
  /\ creations (trace (run Sim.handle (createWorktree_outcome cwd0 "feature1" repo0)
                         (Sim.start Sim.no_base))) = []
  /\ List.filter obs_mutating
       (trace (run Sim.handle (createWorktree_outcome cwd0 "feature1" repo0)
                 (Sim.start Sim.no_base)))
     = List.filter (obs_mkdir_at (getWorktreesDir repo0))
         (trace (run Sim.handle (createWorktree_outcome cwd0 "feature1" repo0)
                   (Sim.start Sim.no_base))).
Proof.
  assert (Hc : is_conflict
                 (value (run Sim.handle (createWorktree_outcome cwd0 "feature1" repo0)
                           (Sim.start Sim.no_base))) = true)
    by (vm_compute; reflexivity).
  destruct (conflict_before_creation Sim.handle cwd0 "feature1" repo0
              (Sim.start Sim.no_base) Hc) as (Hcre & Hmk & _).
  split; [exact Hc |]. split; [exact Hcre | exact Hmk].
Defined.

Lemma install_failure_not_fatal_witness :
  existsb obs_created
    (trace (run Sim.handle (createWorktree cwd0 "feature1" repo0)
              (Sim.start Sim.no_pnpm))) = true
  /\ existsb obs_install_failed
       (trace (run Sim.handle (createWorktree cwd0 "feature1" repo0)
                 (Sim.start Sim.no_pnpm))) = true
  /\ success (value (run Sim.handle (createWorktree cwd0 "feature1" repo0)
                       (Sim.start Sim.no_pnpm))) = true
  /\ install_failure_logged
       (trace (run Sim.handle (createWorktree cwd0 "feature1" repo0)
                 (Sim.start Sim.no_pnpm))) = true.
Proof.
  assert (Hc : existsb obs_created
                 (trace (run Sim.handle (createWorktree cwd0 "feature1" repo0)
                           (Sim.start Sim.no_pnpm))) = true)
    by (vm_compute; reflexivity).
  assert (Hf : existsb obs_install_failed
                 (trace (run Sim.handle (createWorktree cwd0 "feature1" repo0)
                           (Sim.start Sim.no_pnpm))) = true)
    by (vm_compute; reflexivity).
  destruct (install_failure_not_fatal Sim.handle cwd0 "feature1" repo0
              (Sim.start Sim.no_pnpm) Hc) as (Hs & _ & Hlog).
  split; [exact Hc |]. split; [exact Hf |]. split; [exact Hs | exact (Hlog Hf)].
Defined.

Lemma invalid_name_falls_through_witness :
  value (run Sim.handle (main_middleware cwd0 repo0 (Sim.request "../etc"))
           (Sim.start Sim.fresh)) = Next
  /\ List.filter obs_external
       (trace (run Sim.handle (main_middleware cwd0 repo0 (Sim.request "../etc"))
                 (Sim.start Sim.fresh))) = []
  /\ final (run Sim.handle (main_middleware cwd0 repo0 (Sim.request "../etc"))
              (Sim.start Sim.fresh)) = Sim.start Sim.fresh.
Proof.
  apply (invalid_name_falls_through Sim.handle cwd0 repo0 (Sim.request "../etc")
           (Sim.start Sim.fresh)).
  - reflexivity.
  - apply registry_wf_empty.
Defined.

Lemma main_workspace_witness :
  creations
    (trace (run Sim.handle (main_middleware cwd0 repo0 (Sim.request "main"))
              (Sim.start Sim.no_pnpm))) = []
  /\ omap obs_exec
       (trace (run Sim.handle (main_middleware cwd0 repo0 (Sim.request "main"))
                 (Sim.start Sim.no_pnpm))) = [(pnpm_cmd, repo0)]
  /\ viteServers
       (final (run Sim.handle (main_middleware cwd0 repo0 (Sim.request "main"))
                 (Sim.start Sim.no_pnpm))) !! "main"
     = Some {| server_config :=
                 {| cfg_root := repo0; cfg_base := "/main/";
                    cfg_fs_allow := [repo0; getWorktreesDir repo0] |};
               server_instance := 0 |}.
Proof.
  destruct (main_workspace Sim.handle cwd0 repo0 (Sim.request "main")
              (Sim.start Sim.no_pnpm))
    as (Hcre & _ & Hfresh).
  - reflexivity.
  - apply registry_wf_empty.
  - destruct Hfresh as (Hexec & _ & Hstore).
    + reflexivity.
    + split; [exact Hcre |]. split; [exact Hexec |].
      apply (Hstore 0). vm_compute. reflexivity.
Defined.

(** C2 as stated fails: two requests for the unresolved name [feature1],
    interleaved at their awaits, issue two [git worktree add] commands and
    receive different responses. *)
Lemma concurrent_requests_create_twice :
  List.length
    (creations
       (observed (schedule Sim.handle cwd0 repo0 (Sim.start Sim.fresh)
                    Sim.two_requests))) = 2
  /\ response (schedule Sim.handle cwd0 repo0 (Sim.start Sim.fresh)
                 Sim.two_requests) 0
     = Some (Html 200 "<html></html>")
  /\ response (schedule Sim.handle cwd0 repo0 (Sim.start Sim.fresh)
                 Sim.two_requests) 1
     = Some (Json 500 "Failed to prepare worktree 'feature1'"
               (Some "Failed to create worktree: fatal: a branch named 'feature1-branch' already exists")).
Proof. vm_compute. repeat split. Qed.

Lemma no_in_flight_table_witness :
  exists rest,
    trace (run Sim.handle (main_middleware cwd0 repo0 (Sim.request "feature1"))
             (Sim.start Sim.fresh))
    = Observed (GetServer "feature1") Undefined
      :: (trace (run Sim.handle (createWorktree cwd0 "feature1" repo0)
                   (Sim.start Sim.fresh)) ++ rest)%list.
Proof.
  apply (no_in_flight_table Sim.handle cwd0 repo0 (Sim.request "feature1")
           (Sim.start Sim.fresh)).
  - reflexivity.
  - reflexivity.
  - discriminate.
  - reflexivity.
Defined.

(** * Further properties *)

(** ** Paths *)

(** X1. When the repository path went through [path.resolve] in a process
    whose working directory is absolute, as [--repo-path] does, the
    worktrees directory is the repository path with [-worktrees] appended. *)
Theorem worktrees_dir_sibling (cwd : string) (args : list string) :
  NodePath.isAbsolute cwd = true ->
  getWorktreesDir (NodePath.resolve cwd args)
  = NodePath.resolve cwd args ++ "-worktrees".
Proof.
  intros Hc. apply CanonicalPaths.worktrees_dir_resolved.
  apply CanonicalPaths.resolve_resolved. exact Hc.
Qed.

(** X2. For a valid name and any repository path, the target path is the
    worktrees directory followed by [/] and the name: its directory is the
    worktrees directory and its last segment is the name. *)
Theorem target_is_child (repoPath name : string) :
  isValidWorktreeName name = true ->
  targetWorktreePath repoPath name = getWorktreesDir repoPath ++ "/" ++ name
  /\ NodePath.dirname (targetWorktreePath repoPath name) = getWorktreesDir repoPath
  /\ NodePath.basename (targetWorktreePath repoPath name) = name.
Proof.
  intros Hv. pose proof (PathFacts.valid_name_segment _ Hv) as Hn.
  pose proof (CanonicalPaths.worktrees_dir_canonical repoPath) as Hw.
  assert (E : targetWorktreePath repoPath name
              = getWorktreesDir repoPath ++ "/" ++ name).
  { unfold targetWorktreePath. apply CanonicalPaths.canonical_join; assumption. }
  rewrite E. split; [reflexivity |]. split.
  - apply CanonicalPaths.dirname_child; [exact Hn | |].
    + apply CanonicalPaths.canonical_nonempty, Hw.
    + apply CanonicalPaths.canonical_not_root, Hw.
  - apply CanonicalPaths.basename_child, Hn.
Qed.

Lemma resolve_target_fixed (cwd repoPath name : string) :
  NodePath.isAbsolute repoPath = true ->
  isValidWorktreeName name = true ->
  path_resolve cwd (targetWorktreePath repoPath name)
  = targetWorktreePath repoPath name.
Proof.
  intros Ha Hv. pose proof (PathFacts.valid_name_segment _ Hv) as Hn.
  apply CanonicalPaths.resolved_fixed.
  destruct (CanonicalPaths.worktrees_dir_stack repoPath) as (ws & Hws & Hwg & Hwe).
  rewrite Ha in Hwg, Hwe.
  assert (Hwa : NodePath.isAbsolute (getWorktreesDir repoPath) = true).
  { rewrite Hwe. reflexivity. }
  destruct (CanonicalPaths.join_plain_stack (getWorktreesDir repoPath) name Hn)
    as (stack & _ & Hg & He).
  rewrite Hwa in Hg, He. exists stack. split; [exact Hg | exact He].
Qed.

(** X3. For an absolute repository path and a valid name, [path.resolve]
    leaves the target path as it is, whatever the working directory of the
    process. *)
Theorem target_resolved (cwd repoPath name : string) :
  NodePath.isAbsolute repoPath = true ->
  isValidWorktreeName name = true ->
  path_resolve cwd (targetWorktreePath repoPath name)
  = targetWorktreePath repoPath name.
Proof. exact (resolve_target_fixed cwd repoPath name). Qed.

Lemma lookup_resolved (cwd b r : string) :
  NodePath.isAbsolute cwd = true ->
  Ensures (getWorktreePathForBranch cwd b r)
    (fun _ v => forall p, v = Some p -> resolved_form p).
Proof.
  intros Hc.
  unfold getWorktreePathForBranch, getCurrentBranch, getCurrentBranch_catch.
  explore.
  all: intros p H; try discriminate H.
  - apply findBranchEntry_resolved in H as [q ->].
    apply CanonicalPaths.resolve_resolved, Hc.
  - injection H as <-. apply CanonicalPaths.resolve_resolved, Hc.
Qed.

Section PathRuns.

Context {W : Type} (handle : forall X : Type, ExtEvent X -> W -> X * W).
Variable cwd : string.

(** X4. In a process whose working directory is absolute, a path the
    lookup returns is already resolved: [path.resolve] maps it to itself
    from any working directory. *)
Theorem lookup_result_resolved (b repoPath : string) (st : State W)
    (p cwd' : string) :
  NodePath.isAbsolute cwd = true ->
  value (run handle (getWorktreePathForBranch cwd b repoPath) st) = Some p ->
  path_resolve cwd' p = p.
Proof.
  intros Hc Hv. apply CanonicalPaths.resolved_fixed.
  exact (ensures_sound handle _ _ st (lookup_resolved cwd b repoPath Hc) p Hv).
Qed.

(** X5. With absolute working directory and repository path, an attempt
    whose branch is already checked out succeeds exactly when that checkout
    is at the target path itself; no path normalisation is involved in the
    comparison. *)
Theorem reuse_iff_same_path (name repoPath : string) (st : State W)
    (existing : string) :
  NodePath.isAbsolute cwd = true ->
  NodePath.isAbsolute repoPath = true ->
  isValidWorktreeName name = true ->
  value (run handle
           (getWorktreePathForBranch cwd (branchForWorktree name) repoPath) st)
  = Some existing ->
  (success (value (run handle (createWorktree cwd name repoPath) st)) = true
   <-> existing = targetWorktreePath repoPath name).
Proof.
  intros Hc Ha Hv Hfound.
  pose proof (ensures_sound handle _ _ st
                (lookup_inert cwd (branchForWorktree name) repoPath)) as [_ Htr].
  specialize (Htr _ Hfound).
  pose proof (CanonicalPaths.resolved_fixed cwd existing
                (ensures_sound handle _ _ st
                   (lookup_resolved cwd (branchForWorktree name) repoPath Hc)
                   existing Hfound)) as He.
  change (path_resolve cwd existing = existing) in He.
  pose proof (resolve_target_fixed cwd repoPath name Ha Hv) as Ht.
  rewrite run_createWorktree. cbn [value].
  unfold createWorktree_outcome. cbn. rewrite run_bind.
  unfold createWorktree_try. rewrite run_bind.
  cbn. rewrite Hfound. cbn. rewrite Htr.
  rewrite He, Ht.
  destruct (String.eqb_spec existing (targetWorktreePath repoPath name))
    as [E | E]; cbn.
  - split; [intros _; exact E | intros _; reflexivity].
  - split; [intros H; discriminate H | intros H; contradiction].
Qed.

End PathRuns.

(** ** The command line *)

(** X6. With a working directory that is absolute and normalised, the
    repository path [parseArgs] returns is absolute and normalised as well,
    whatever the arguments, and the worktrees directory is that path with
    [-worktrees] appended. *)
Theorem parseArgs_repo_path (cwd : string) (argv : list string) (port : Z)
    (repoPath : string) :
  NodePath.isAbsolute cwd = true ->
  path_resolve cwd cwd = cwd ->
  parseArgs cwd argv = Args port repoPath ->
  NodePath.isAbsolute repoPath = true
  /\ path_resolve cwd repoPath = repoPath
  /\ getWorktreesDir repoPath = repoPath ++ "-worktrees".
Proof.
  intros Hc Hfix H.
  assert (Hr : resolved_form repoPath).
  { refine (parseArgs_loop_resolved cwd _ Hc _ _ _ _ _ (le_n _) _ H).
    exact (fixed_resolved cwd cwd Hc Hfix). }
  split; [| split].
  - destruct Hr as (stack & _ & ->). reflexivity.
  - exact (CanonicalPaths.resolved_fixed cwd repoPath Hr).
  - exact (CanonicalPaths.worktrees_dir_resolved repoPath Hr).
Qed.

(** X7. A [--port] flag in flag position whose value does not start with a
    decimal integer ends the process with status 1 after logging the value,
    whatever follows on the command line. *)
Theorem parseArgs_invalid_port (cwd node script : string)
    (before after : list string) (v : string) :
  forallb (fun a => negb (is_flag a)) before = true ->
  parseInt v = None ->
  parseArgs cwd (node :: script :: before ++ "--port" :: v :: after)%list
  = Exit 1 ("Invalid port: " ++ v).
Proof.
  intros Hb Hv. rewrite parseArgs_argv.
  generalize 5173%Z, cwd at 2. revert Hb.
  induction before as [|a before IH]; intros Hb port repoPath.
  - cbn [app]. rewrite parseArgs_loop_flag.
    change ("--port" =? "--port")%string with true. cbn iota.
    rewrite Hv. reflexivity.
  - cbn [forallb] in Hb. apply andb_prop in Hb as [Ha Hb].
    apply negb_true_iff in Ha. cbn [app].
    rewrite (parseArgs_loop_skip _ _ _ _ _ Ha). exact (IH Hb port repoPath).
Qed.

(** X8. Arguments without a flag leave the defaults: port 5173 and the
    working directory as the repository path. A flag in last position
    counts as no flag. *)
Theorem parseArgs_defaults (cwd node script : string) (args : list string)
    (last : string) :
  forallb (fun a => negb (is_flag a)) args = true ->
  parseArgs cwd (node :: script :: args ++ [last])%list = Args 5173%Z cwd.
Proof.
  intros Hb. rewrite parseArgs_argv.
  generalize 5173%Z, cwd at 2 3. revert Hb.
  induction args as [|a args IH]; intros Hb port repoPath; [reflexivity |].
  cbn [forallb] in Hb. apply andb_prop in Hb as [Ha Hb].
  apply negb_true_iff in Ha. cbn [app].
  rewrite (parseArgs_loop_skip _ _ _ _ _ Ha). exact (IH Hb port repoPath).
Qed.

(** ** The commands of an attempt *)

Lemma runs_only_app (cmds : list (string * string)) (t t' : list Obs) :
  runs_only cmds t -> runs_only cmds t' -> runs_only cmds (t ++ t')%list.
Proof.
  unfold runs_only. intros H H'. rewrite omap_app. apply Forall_app. auto.
Qed.

Lemma runs_only_cons (cmds : list (string * string)) (o : Obs) (t : list Obs) :
  match obs_exec o with Some c => In c cmds | None => True end ->
  runs_only cmds t -> runs_only cmds (o :: t).
Proof.
  unfold runs_only. intros Ho Ht. cbn [omap list_omap].
  destruct (obs_exec o); [apply List.Forall_cons; assumption | exact Ht].
Qed.

Lemma runs_only_nil (cmds : list (string * string)) : runs_only cmds [].
Proof. apply List.Forall_nil. Qed.

Lemma runs_only_incl (cmds cmds' : list (string * string)) (t : list Obs) :
  incl cmds cmds' -> runs_only cmds t -> runs_only cmds' t.
Proof.
  unfold runs_only. intros Hi H. apply (List.Forall_impl _ (fun c Hc => Hi c Hc) H).
Qed.

(** A command of the trace is found in the list, or the observation is no
    command. *)
Ltac listed :=
  cbn [obs_exec];
  first [ exact I
        | unfold attempt_commands; cbn [In];
          repeat first [left; reflexivity | right] ].

Ltac runs_only_trace :=
  repeat (apply runs_only_cons; [listed |]); try apply runs_only_nil.

Ltac runs_only_tail lem :=
  refine (ensures_weaken _ _ _ _ lem);
  let H := fresh "H" in
  intros ? ? H; runs_only_trace; exact H.

Lemma lookup_commands (cwd name repoPath : string) :
  Ensures (getWorktreePathForBranch cwd (branchForWorktree name) repoPath)
    (fun t _ => runs_only (attempt_commands repoPath name) t).
Proof.
  unfold getWorktreePathForBranch, getCurrentBranch, getCurrentBranch_catch.
  explore. all: runs_only_trace.
Qed.

Lemma add_commands (name repoPath : string) :
  Ensures (createWorktree_add name repoPath)
    (fun t _ => runs_only (attempt_commands repoPath name) t).
Proof.
  unfold createWorktree_add, createWorktree_install.
  explore. all: runs_only_trace.
Qed.

Lemma prepare_commands (name repoPath : string) :
  Ensures (createWorktree_prepare name repoPath)
    (fun t _ => runs_only (attempt_commands repoPath name) t).
Proof.
  unfold createWorktree_prepare.
  explore.
  all: first [runs_only_tail (add_commands name repoPath) | runs_only_trace].
Qed.

Lemma directory_commands (name repoPath : string) :
  Ensures (createWorktree_directory name repoPath)
    (fun t _ => runs_only (attempt_commands repoPath name) t).
Proof.
  unfold createWorktree_directory.
  explore.
  all: first [runs_only_tail (prepare_commands name repoPath) | runs_only_trace].
Qed.

Lemma path_commands (cwd name repoPath : string) :
  Ensures (createWorktree_path cwd name repoPath)
    (fun t _ => runs_only (attempt_commands repoPath name) t).
Proof.
  unfold createWorktree_path.
  explore.
  all: first [runs_only_tail (directory_commands name repoPath) | runs_only_trace].
Qed.

Lemma try_commands (cwd name repoPath : string) :
  Ensures (createWorktree_try cwd name repoPath)
    (fun t _ => runs_only (attempt_commands repoPath name) t).
Proof.
  unfold createWorktree_try. apply ensures_bind.
  refine (ensures_weaken _ _ _ _ (lookup_commands cwd name repoPath)).
  intros t v Ht. explore.
  all: try (apply runs_only_app; [exact Ht | runs_only_trace]).
  all: refine (ensures_weaken _ _ _ _ (path_commands cwd name repoPath));
    intros t' r H; apply runs_only_app; [exact Ht |]; runs_only_trace; exact H.
Qed.

Lemma createWorktree_commands (cwd name repoPath : string) :
  Ensures (createWorktree cwd name repoPath)
    (fun t _ => runs_only (attempt_commands repoPath name) t).
Proof.
  unfold createWorktree, createWorktree_outcome. explore.
  apply ensures_bind. apply ensures_bind.
  refine (ensures_weaken _ _ _ _ (try_commands cwd name repoPath)).
  intros t r H. destruct r; explore.
  all: rewrite ?app_nil_r; runs_only_trace;
    try (apply runs_only_app; [exact H | runs_only_trace]); exact H.
Qed.

Lemma no_exec_runs_only (cmds : list (string * string)) (t : list Obs) :
  omap obs_exec t = [] -> runs_only cmds t.
Proof. unfold runs_only. intros ->. apply List.Forall_nil. Qed.

Lemma middleware_commands (cwd repoPath : string) (req : Request) :
  Ensures (main_middleware cwd repoPath req)
    (fun t _ =>
       runs_only ((pnpm_cmd, repoPath)
                  :: attempt_commands repoPath (req_worktree req)) t
       /\ (omap obs_exec t <> [] -> isValidWorktreeName (req_worktree req) = true)).
Proof.
  unfold main_middleware. explore.
  all: try (split; [runs_only_trace | intros H; exfalso; apply H; reflexivity]).
  - (* the [main] workspace *)
    apply andb_prop in Heqb as [_ Hvalid].
    apply ensures_bind.
    refine (ensures_weaken _ _ _ _ (main_install_ok repoPath)).
    intros t [] (_ & Hexec & _).
    refine (ensures_weaken _ _ _ _ (main_ensure_server_ok _ _ _ _ _ _ _)).
    intros t' r (_ & Hexec' & _).
    split; [| intros _; exact Hvalid].
    runs_only_trace. apply runs_only_app.
    + unfold runs_only. rewrite Hexec.
      apply List.Forall_cons; [left; reflexivity | apply List.Forall_nil].
    + apply no_exec_runs_only, Hexec'.
  - (* a worktree *)
    apply andb_prop in Heqb as [_ Hvalid].
    apply ensures_bind.
    refine (ensures_weaken _ _ _ _ (createWorktree_commands cwd _ repoPath)).
    intros t res Hcmds.
    assert (Hcmds' : runs_only ((pnpm_cmd, repoPath)
                                :: attempt_commands repoPath (req_worktree req)) t)
      by (refine (runs_only_incl _ _ _ _ Hcmds); intros c Hc; right; exact Hc).
    explore.
    + split; [| intros _; exact Hvalid].
      runs_only_trace. apply runs_only_app; [exact Hcmds' | runs_only_trace].
    + refine (ensures_weaken _ _ _ _ (main_ensure_server_ok _ _ _ _ _ _ _)).
      intros t' r (_ & Hexec' & _).
      split; [| intros _; exact Hvalid].
      runs_only_trace. apply runs_only_app; [exact Hcmds' |].
      apply no_exec_runs_only, Hexec'.
Qed.

(** ** The order of the mutations *)

Lemma mutations_app (t t' : list Obs) :
  mutations (t ++ t') = (mutations t ++ mutations t')%list.
Proof. apply omap_app. Qed.

Lemma mutations_cons_inert (o : Obs) (t : list Obs) :
  obs_mutating o = false -> mutations (o :: t) = mutations t.
Proof.
  intros H. unfold mutations. cbn [omap list_omap].
  destruct o as [X e x]. destruct e as [X e | | |]; try reflexivity.
  destruct e; try reflexivity; cbn [obs_mutating] in H.
  - apply orb_false_elim in H as [H1 H2]. cbn [obs_mutation]. rewrite H1, H2.
    reflexivity.
  - discriminate H.
Qed.

Lemma inert_mutations (t : list Obs) : inert t = true -> mutations t = [].
Proof.
  induction t as [|o t IH]; [reflexivity |].
  cbn [inert forallb]. intros H. apply andb_prop in H as [Ho Ht].
  apply negb_true_iff in Ho. rewrite (mutations_cons_inert _ _ Ho). exact (IH Ht).
Qed.

Ltac mutations_norm :=
  repeat first
    [ rewrite app_nil_r
    | rewrite mutations_app
    | rewrite mutations_cons_inert by reflexivity
    | rewrite inert_mutations by assumption ];
  cbn [app].

Lemma add_order (name repoPath : string) :
  Ensures (createWorktree_add name repoPath)
    (fun t r => add_protocol (targetWorktreePath repoPath name) (mutations t)
                  (try_created r)
                /\ mutations t <> []).
Proof.
  unfold createWorktree_add, createWorktree_install.
  explore.
  all: split; [| discriminate].
  all: first [ right; left; split; reflexivity
             | right; right; split; reflexivity ].
Qed.

Lemma prepare_order (name repoPath : string) :
  Ensures (createWorktree_prepare name repoPath)
    (fun t r => attempt_protocol repoPath name (mutations t) (try_created r)).
Proof.
  unfold createWorktree_prepare.
  explore.
  all: try (left; left; split; reflexivity).
  all: try (right; eexists; split; [reflexivity | left; split; reflexivity]).
  all: refine (ensures_weaken _ _ _ _ (add_order name repoPath));
    intros t r [H _].
  - right. exists (mutations t). split; [| exact H].
    mutations_norm. reflexivity.
  - left. mutations_norm. exact H.
Qed.

Lemma directory_order (name repoPath : string) :
  Ensures (createWorktree_directory name repoPath)
    (fun t r => attempt_protocol repoPath name (mutations t) (try_created r)).
Proof.
  unfold createWorktree_directory.
  explore.
  all: try (left; left; split; reflexivity).
  all: refine (ensures_weaken _ _ _ _ (prepare_order name repoPath));
    intros t r H; mutations_norm; exact H.
Qed.

Lemma path_order (cwd name repoPath : string) :
  Ensures (createWorktree_path cwd name repoPath)
    (fun t r => attempt_protocol repoPath name (mutations t) (try_created r)).
Proof.
  unfold createWorktree_path.
  explore.
  all: try (left; left; split; reflexivity).
  all: refine (ensures_weaken _ _ _ _ (directory_order name repoPath));
    intros t r H; mutations_norm; exact H.
Qed.

Lemma try_order (cwd name repoPath : string) :
  Ensures (createWorktree_try cwd name repoPath)
    (fun t r => attempt_protocol repoPath name (mutations t) (try_created r)).
Proof.
  unfold createWorktree_try. apply ensures_bind.
  refine (ensures_weaken _ _ _ _ (lookup_inert cwd _ repoPath)).
  intros t v [Hi _].
  explore.
  all: try (mutations_norm; left; left; split; reflexivity).
  all: refine (ensures_weaken _ _ _ _ (path_order cwd name repoPath));
    intros t' r H; mutations_norm; exact H.
Qed.

Lemma outcome_order (cwd name repoPath : string) :
  Ensures (createWorktree_outcome cwd name repoPath)
    (fun t o => attempt_protocol repoPath name (mutations t) (is_created o)).
Proof.
  unfold createWorktree_outcome. explore. apply ensures_bind.
  refine (ensures_weaken _ _ _ _ (try_order cwd name repoPath)).
  intros t r H. destruct r; explore; mutations_norm;
    rewrite ?app_nil_r; exact H.
Qed.

Lemma attempt_protocol_listed (repoPath name : string) (ms : list Mutation)
    (created : bool) :
  attempt_protocol repoPath name ms created ->
  In ms (protocol repoPath name)
  /\ (created = true <-> In AddResolved ms).
Proof.
  unfold attempt_protocol, add_protocol, protocol.
  intros [H | (ms' & -> & H)];
    destruct H as [[-> ->] | [[-> ->] | [-> ->]]]; cbn [In].
  all: split; [tauto |].
  all: split; [try discriminate; tauto |].
  all: intros H;
    repeat (destruct H as [H | H]; try discriminate H);
    try contradiction; reflexivity.
Qed.

(** ** What provisioning is made of *)

Ltac provisioning_tail lem :=
  refine (ensures_weaken _ _ _ _ lem);
  let H := fresh "H" in
  intros ? ? H; cbn [forallb obs_provisioning andb]; exact H.

Lemma lookup_provisioning (cwd b r : string) :
  Ensures (getWorktreePathForBranch cwd b r)
    (fun t _ => forallb obs_provisioning t = true).
Proof.
  unfold getWorktreePathForBranch, getCurrentBranch, getCurrentBranch_catch.
  explore. all: reflexivity.
Qed.

Lemma add_provisioning (name repoPath : string) :
  Ensures (createWorktree_add name repoPath)
    (fun t _ => forallb obs_provisioning t = true).
Proof.
  unfold createWorktree_add, createWorktree_install.
  explore. all: reflexivity.
Qed.

Lemma prepare_provisioning (name repoPath : string) :
  Ensures (createWorktree_prepare name repoPath)
    (fun t _ => forallb obs_provisioning t = true).
Proof.
  unfold createWorktree_prepare.
  explore.
  all: first [reflexivity | provisioning_tail (add_provisioning name repoPath)].
Qed.

Lemma directory_provisioning (name repoPath : string) :
  Ensures (createWorktree_directory name repoPath)
    (fun t _ => forallb obs_provisioning t = true).
Proof.
  unfold createWorktree_directory.
  explore.
  all: first [reflexivity
             | provisioning_tail (prepare_provisioning name repoPath)].
Qed.

Lemma path_provisioning (cwd name repoPath : string) :
  Ensures (createWorktree_path cwd name repoPath)
    (fun t _ => forallb obs_provisioning t = true).
Proof.
  unfold createWorktree_path.
  explore.
  all: first [reflexivity
             | provisioning_tail (directory_provisioning name repoPath)].
Qed.

Lemma try_provisioning (cwd name repoPath : string) :
  Ensures (createWorktree_try cwd name repoPath)
    (fun t _ => forallb obs_provisioning t = true).
Proof.
  unfold createWorktree_try. apply ensures_bind.
  refine (ensures_weaken _ _ _ _ (lookup_provisioning cwd _ repoPath)).
  intros t v Ht. explore.
  all: try (rewrite forallb_app, Ht; reflexivity).
  all: refine (ensures_weaken _ _ _ _ (path_provisioning cwd name repoPath));
    intros t' r H; rewrite forallb_app, Ht;
    cbn [forallb obs_provisioning andb]; exact H.
Qed.

Lemma createWorktree_provisioning (cwd name repoPath : string) :
  Ensures (createWorktree cwd name repoPath)
    (fun t _ => forallb obs_provisioning t = true).
Proof.
  unfold createWorktree, createWorktree_outcome. explore.
  apply ensures_bind. apply ensures_bind.
  refine (ensures_weaken _ _ _ _ (try_provisioning cwd name repoPath)).
  intros t r H. destruct r; explore.
  all: rewrite ?app_nil_r; cbn [forallb obs_provisioning andb];
    rewrite ?forallb_app, H; reflexivity.
Qed.

Lemma provisioning_no_server (t : list Obs) :
  forallb obs_provisioning t = true ->
  omap obs_create_server t = [] /\ omap obs_read t = [] /\ omap obs_set t = [].
Proof.
  induction t as [|o t IH]; [repeat split |].
  cbn [forallb]. intros H. apply andb_prop in H as [Ho Ht].
  destruct (IH Ht) as (H1 & H2 & H3).
  cbn [omap list_omap]. rewrite H1, H2, H3.
  destruct o as [X e x]. destruct e as [X e | | |]; try discriminate Ho;
    [| repeat split].
  destruct e; try discriminate Ho; repeat split.
Qed.

(** ** The middleware, continued *)

Lemma main_serve_status (cwd : string) (req : Request)
    (worktree rootPathForVite actualReqPathForVite : string) :
  Ensures (main_serve cwd req worktree rootPathForVite actualReqPathForVite)
    (fun t v => (response_status v = None \/ response_status v = Some 200)
                /\ omap obs_read t
                   = [NodePath.resolve cwd [rootPathForVite; "index.html"]]).
Proof.
  unfold main_serve. explore.
  all: split; [first [left; reflexivity | right; reflexivity] | reflexivity].
Qed.

Lemma main_ensure_server_status (cwd repoPath : string) (req : Request)
    (worktree rootPathForVite effectiveViteBasePath actualReqPathForVite : string) :
  Ensures (main_ensure_server cwd repoPath req worktree rootPathForVite
             effectiveViteBasePath actualReqPathForVite)
    (fun t v => (response_status v = None \/ response_status v = Some 200
                 \/ response_status v = Some 500)
                /\ Forall (fun p => p = NodePath.resolve cwd
                                          [rootPathForVite; "index.html"])
                     (omap obs_read t)).
Proof.
  unfold main_ensure_server. explore.
  all: try (split; [right; right; reflexivity | apply List.Forall_nil]).
  all: refine (ensures_weaken _ _ _ _
                 (main_serve_status cwd req worktree rootPathForVite
                    actualReqPathForVite));
    intros t r [[H | H] Hr]; (split; [tauto |]);
    cbn [omap list_omap obs_read]; rewrite Hr;
    (apply List.Forall_cons; [reflexivity | apply List.Forall_nil]).
Qed.

Lemma middleware_status (cwd repoPath : string) (req : Request) :
  Ensures (main_middleware cwd repoPath req)
    (fun t v => response_status v = None \/ response_status v = Some 200
                \/ response_status v = Some 500).
Proof.
  unfold main_middleware. explore.
  all: try (left; reflexivity).
  - (* an empty name is not valid *)
    apply andb_prop in Heqb as [Ht _]. rewrite Ht in Heqb0. discriminate Heqb0.
  - apply ensures_bind.
    refine (ensures_weaken _ _ _ _ (main_install_ok repoPath)).
    intros t [] _.
    refine (ensures_weaken _ _ _ _ (main_ensure_server_status _ _ _ _ _ _ _)).
    intros t' r [H _]. exact H.
  - apply ensures_bind.
    refine (ensures_weaken _ _ _ _ (createWorktree_local cwd _ repoPath)).
    intros t res _. explore.
    + right; right; reflexivity.
    + refine (ensures_weaken _ _ _ _ (main_ensure_server_status _ _ _ _ _ _ _)).
      intros t' r [H _]. exact H.
Qed.

Lemma writes_only_local (name : string) (t : list Obs) :
  forallb obs_local t = true -> Forall (writes_only name) t.
Proof. intros H. apply no_set_forall, local_sets, H. Qed.

Lemma stores_writes_only (worktree : string) (cfg : ViteConfig) (t : list Obs) :
  Forall (stores worktree cfg) t -> Forall (writes_only worktree) t.
Proof.
  intros H. induction H as [|o t Ho Ht IH]; constructor; [| exact IH].
  intros n s E. exact (proj1 (Ho _ _ E)).
Qed.

Lemma get_writes_only (name n : string) (x : Slot) :
  writes_only name (Observed (GetServer n) x).
Proof. intros n' s E. discriminate E. Qed.

Lemma console_writes_only (name : string) (lvl : Level) (msg : string)
    (arg : option Thrown) (x : unit) :
  writes_only name (Observed (Console lvl msg arg) x).
Proof. intros n s E. discriminate E. Qed.

(** A request writes [viteServers] under its own name only. *)
Lemma middleware_own_slot (cwd repoPath : string) (req : Request) :
  Ensures (main_middleware cwd repoPath req)
    (fun t _ => Forall (writes_only (req_worktree req)) t).
Proof.
  unfold main_middleware. explore.
  all: try (repeat (apply List.Forall_cons;
                    [first [apply get_writes_only | apply console_writes_only] |]);
            apply List.Forall_nil).
  - apply ensures_bind.
    refine (ensures_weaken _ _ _ _ (main_install_ok repoPath)).
    intros t [] (Hloc & _).
    refine (ensures_weaken _ _ _ _ (main_ensure_server_ok _ _ _ _ _ _ _)).
    intros t' r (Hst & _).
    apply List.Forall_cons; [apply get_writes_only |].
    apply List.Forall_cons; [apply console_writes_only |].
    apply Forall_app. split; [apply writes_only_local; exact Hloc |].
    exact (stores_writes_only _ _ _ Hst).
  - apply ensures_bind.
    refine (ensures_weaken _ _ _ _ (createWorktree_local cwd _ repoPath)).
    intros t res Hloc. explore.
    + apply List.Forall_cons; [apply get_writes_only |].
      apply Forall_app. split; [apply writes_only_local; exact Hloc |].
      apply List.Forall_cons; [apply console_writes_only | apply List.Forall_nil].
    + refine (ensures_weaken _ _ _ _ (main_ensure_server_ok _ _ _ _ _ _ _)).
      intros t' r (Hst & _).
      apply List.Forall_cons; [apply get_writes_only |].
      apply Forall_app. split; [apply writes_only_local; exact Hloc |].
      exact (stores_writes_only _ _ _ Hst).
Qed.

Lemma registry_after_other (name k : string) (t : list Obs)
    (m : gmap string ViteServer) :
  Forall (writes_only name) t -> k <> name ->
  registry_after t m !! k = m !! k.
Proof.
  intros Ht Hk. revert m. induction Ht as [|o t Ho Ht IH]; intros m; [reflexivity |].
  cbn [registry_after fold_left].
  change (registry_after t
            match obs_set o with
            | Some (name0, s) => <[name0:=s]> m
            | None => m
            end !! k = m !! k).
  rewrite IH. destruct (obs_set o) as [[n s] |] eqn:E; [| reflexivity].
  rewrite (Ho _ _ E). apply lookup_insert_ne. congruence.
Qed.

Lemma main_install_reads (repoPath : string) :
  Ensures (main_install repoPath) (fun t _ => omap obs_read t = []).
Proof.
  unfold main_install. explore.
  all: try (unfold console_warn, console_error, trigger; explore).
  all: reflexivity.
Qed.

(** The only file a request reads is [index.html] under the root of its
    workspace, and it reads none for a name that is not valid. *)
Lemma middleware_reads (cwd repoPath : string) (req : Request) :
  Ensures (main_middleware cwd repoPath req)
    (fun t _ =>
       Forall (fun p => p = NodePath.resolve cwd
                             [cfg_root (config_for repoPath (req_worktree req));
                              "index.html"])
         (omap obs_read t)
       /\ (omap obs_read t <> [] -> isValidWorktreeName (req_worktree req) = true)).
Proof.
  unfold main_middleware. explore.
  all: try (split; [apply List.Forall_nil | intros H; exfalso; apply H; reflexivity]).
  - apply andb_prop in Heqb as [_ Hvalid].
    apply ensures_bind.
    refine (ensures_weaken _ _ _ _ (main_install_reads repoPath)).
    intros t [] Hr.
    refine (ensures_weaken _ _ _ _ (main_ensure_server_status _ _ _ _ _ _ _)).
    intros t' r [_ Hr'].
    split; [| intros _; exact Hvalid].
    cbn [omap list_omap obs_read]. rewrite omap_app, Hr. cbn [app].
    unfold config_for. rewrite Heqb1. exact Hr'.
  - apply andb_prop in Heqb as [_ Hvalid].
    apply ensures_bind.
    refine (ensures_weaken _ _ _ _ (createWorktree_provisioning cwd _ repoPath)).
    intros t res Hp. apply provisioning_no_server in Hp as (_ & Hr & _).
    explore.
    + split; [| intros _; exact Hvalid].
      cbn [omap list_omap obs_read]. rewrite omap_app, Hr. apply List.Forall_nil.
    + refine (ensures_weaken _ _ _ _ (main_ensure_server_status _ _ _ _ _ _ _)).
      intros t' r [_ Hr'].
      split; [| intros _; exact Hvalid].
      cbn [omap list_omap obs_read]. rewrite omap_app, Hr. cbn [app].
      unfold config_for. rewrite Heqb1. exact Hr'.
Qed.

(** An attempt that ends with the worktree already in place ran the lookup
    only. *)
Lemma prepare_not_reuse (name repoPath : string) :
  Ensures (createWorktree_prepare name repoPath)
    (fun _ r => r <> Returned AlreadyExists).
Proof.
  refine (ensures_weaken _ _ _ _ (prepare_ok name repoPath)).
  intros t r H ->. apply andb_prop in H as [_ H]. discriminate H.
Qed.

Lemma directory_not_reuse (name repoPath : string) :
  Ensures (createWorktree_directory name repoPath)
    (fun _ r => r <> Returned AlreadyExists).
Proof.
  unfold createWorktree_directory. explore.
  all: try discriminate.
  all: refine (ensures_weaken _ _ _ _ (prepare_not_reuse name repoPath));
    intros t r H; exact H.
Qed.

Lemma path_not_reuse (cwd name repoPath : string) :
  Ensures (createWorktree_path cwd name repoPath)
    (fun _ r => r <> Returned AlreadyExists).
Proof.
  unfold createWorktree_path. explore.
  all: try discriminate.
  all: refine (ensures_weaken _ _ _ _ (directory_not_reuse name repoPath));
    intros t r H; exact H.
Qed.

Lemma try_reuse_inert (cwd name repoPath : string) :
  Ensures (createWorktree_try cwd name repoPath)
    (fun t r => r = Returned AlreadyExists -> inert t = true).
Proof.
  unfold createWorktree_try. apply ensures_bind.
  refine (ensures_weaken _ _ _ _ (lookup_inert cwd _ repoPath)).
  intros t v [Hi _].
  explore.
  all: try (intros _; unfold inert in *; rewrite forallb_app, Hi; reflexivity).
  all: refine (ensures_weaken _ _ _ _ (path_not_reuse cwd name repoPath));
    intros t' r H E; contradiction.
Qed.

Lemma outcome_reuse_inert (cwd name repoPath : string) :
  Ensures (createWorktree_outcome cwd name repoPath)
    (fun t o => o = AlreadyExists -> inert t = true).
Proof.
  unfold createWorktree_outcome. explore. apply ensures_bind.
  refine (ensures_weaken _ _ _ _ (try_reuse_inert cwd name repoPath)).
  intros t r H. destruct r; explore.
  - intros ->. rewrite app_nil_r. cbn [inert forallb].
    exact (H eq_refl).
  - discriminate.
Qed.

(** ** Names and request paths *)

(** X9. For a valid name the derived branch is made of letters, digits,
    dashes and underscores only: it is a valid name itself. *)
Theorem branch_name_valid (name : string) :
  isValidWorktreeName name = true ->
  isValidWorktreeName (branchForWorktree name) = true.
Proof.
  intros Hv. pose proof (valid_name_chars _ Hv) as Hc.
  unfold isValidWorktreeName in *. unfold branchForWorktree.
  rewrite CanonicalPaths.chars_app.
  destruct (list_ascii_of_string name) as [|c cs]; [discriminate Hv |].
  change ((c :: cs) ++ list_ascii_of_string "-branch")%list
    with (c :: (cs ++ list_ascii_of_string "-branch"))%list.
  change (forallb is_name_char ((c :: cs) ++ list_ascii_of_string "-branch")
          = true).
  rewrite forallb_app, Hc. reflexivity.
Qed.

(** X10. The path handed to Vite always starts with a slash and is never
    [//]; a request path that starts with a slash and is not [//] is handed
    on as it is. *)
Theorem vite_path_leading_slash (reqPath : string) :
  Js.startsWith "/" (actualReqPathForVite reqPath) = true
  /\ actualReqPathForVite reqPath <> "//"
  /\ (Js.startsWith "/" reqPath = true -> reqPath <> "//" ->
      actualReqPathForVite reqPath = reqPath).
Proof.
  unfold actualReqPathForVite.
  destruct (Js.startsWith "/" reqPath) eqn:Hs.
  - destruct (String.eqb_spec reqPath "//") as [-> | Hne].
    + repeat split; [discriminate | intros _ H; contradiction].
    + repeat split; assumption.
  - destruct (String.eqb_spec ("/" ++ reqPath) "//") as [E | Hne].
    + repeat split; [discriminate | intros H; discriminate H].
    + repeat split; [exact Hne | intros H; discriminate H].
Qed.

(** ** The branch of the primary working copy *)

Lemma current_branch_ok (repoPath : string) :
  Ensures (getCurrentBranch repoPath)
    (fun t v => v <> Some "HEAD"
                /\ inert t = true
                /\ (exists n, omap obs_exec t = firstn n (rev_parse_cmds repoPath))
                /\ (forall b, v = Some b ->
                      omap obs_exec t = rev_parse_cmds repoPath)).
Proof.
  unfold getCurrentBranch, getCurrentBranch_catch. explore.
  all: split; [try discriminate |].
  all: try (split; [reflexivity |]).
  all: try (split; [first [exists 1; reflexivity | exists 2; reflexivity] |]).
  all: try (intros b H; first [discriminate H | reflexivity]).
  destruct (String.eqb_spec (Js.trim (stdout a0)) "HEAD") as [E | E];
    [discriminate | congruence].
Qed.

(** ** Serving the page *)

Lemma main_serve_ends (cwd : string) (req : Request)
    (worktree rootPathForVite actualReqPathForVite : string) :
  Ensures (main_serve cwd req worktree rootPathForVite actualReqPathForVite)
    (serve_ok worktree).
Proof.
  unfold main_serve. explore.
  all: eexists; split; [reflexivity |]; repeat split.
Qed.

Section FurtherRuns.

Context {W : Type} (handle : forall X : Type, ExtEvent X -> W -> X * W).
Variable cwd : string.

(** X11. Whatever the environment answers, every shell command a request
    makes the middleware run is [pnpm install] in the repository or one of
    the eight commands of an attempt for the requested name, each in its
    directory; and a command is run only for a valid name. *)
Theorem middleware_command_discipline (repoPath : string) (req : Request)
    (st : State W) :
  Forall (fun c => In c ((pnpm_cmd, repoPath)
                         :: attempt_commands repoPath (req_worktree req)))
    (omap obs_exec (trace (run handle (main_middleware cwd repoPath req) st)))
  /\ (omap obs_exec (trace (run handle (main_middleware cwd repoPath req) st))
      <> [] ->
      isValidWorktreeName (req_worktree req) = true).
Proof. exact (ensures_sound handle _ _ st (middleware_commands cwd repoPath req)). Qed.

(** X12. The mutations of an attempt follow one order: at most one
    [mkdirSync], of the worktrees directory, then at most one
    [git worktree add], then [pnpm install] in the target directory exactly
    when the add resolved. The attempt ends in [Created] exactly when the add
    resolved, and an attempt that ends in [AlreadyExists] has changed
    nothing. *)
Theorem mutation_order (name repoPath : string) (st : State W) :
  In (mutations (trace (run handle (createWorktree_outcome cwd name repoPath) st)))
    (protocol repoPath name)
  /\ (is_created (value (run handle (createWorktree_outcome cwd name repoPath) st))
      = true
      <-> In AddResolved
            (mutations
               (trace (run handle (createWorktree_outcome cwd name repoPath) st))))
  /\ (value (run handle (createWorktree_outcome cwd name repoPath) st)
      = AlreadyExists ->
      mutations (trace (run handle (createWorktree_outcome cwd name repoPath) st))
      = []).
Proof.
  destruct (attempt_protocol_listed repoPath name _ _
              (ensures_sound handle _ _ st (outcome_order cwd name repoPath)))
    as [Hin Hiff].
  split; [exact Hin |]. split; [exact Hiff |].
  intros E. apply inert_mutations.
  exact (ensures_sound handle _ _ st (outcome_reuse_inert cwd name repoPath) E).
Qed.

(** X13. When provisioning fails for a valid name without a server, the
    middleware answers 500 with the message of the failure; it has called
    neither [vite.createServer] nor [readFile], and [viteServers] is as it
    was. *)
Theorem provisioning_failure_response (repoPath : string) (req : Request)
    (st : State W) :
  viteServers st !! req_worktree req = None ->
  existsb (String.eqb (req_worktree req)) object_prototype_keys = false ->
  isValidWorktreeName (req_worktree req) = true ->
  req_worktree req <> "main" ->
  success (value (run handle (createWorktree cwd (req_worktree req) repoPath) st))
  = false ->
  value (run handle (main_middleware cwd repoPath req) st)
  = Json 500 ("Failed to prepare worktree '" ++ req_worktree req ++ "'")
      (Some (message
               (value (run handle
                         (createWorktree cwd (req_worktree req) repoPath) st))))
  /\ omap obs_create_server
       (trace (run handle (main_middleware cwd repoPath req) st)) = []
  /\ omap obs_read (trace (run handle (main_middleware cwd repoPath req) st)) = []
  /\ viteServers (final (run handle (main_middleware cwd repoPath req) st))
     = viteServers st.
Proof.
  intros Hnone Hproto Hvalid Hnot_main Hfail.
  assert (Htruthy : Js.truthy (req_worktree req) = true).
  { destruct (req_worktree req); [discriminate Hvalid | reflexivity]. }
  pose proof (provisioning_no_server _
                (ensures_sound handle _ _ st
                   (createWorktree_provisioning cwd (req_worktree req) repoPath)))
    as (Hcs & Hrd & Hset).
  rewrite run_registry.
  unfold main_middleware. cbn.
  unfold lookup_slot. rewrite Hnone, Hproto. cbn.
  rewrite Htruthy, Hvalid. cbn.
  apply String.eqb_neq in Hnot_main. rewrite Hnot_main.
  rewrite run_bind. cbn [value trace]. rewrite Hfail. cbn.
  split; [reflexivity |].
  rewrite !omap_app, Hcs, Hrd.
  split; [reflexivity |]. split; [reflexivity |].
  apply registry_after_no_set. rewrite omap_app, Hset. reflexivity.
Qed.

(** X14. A name that [Object.prototype] defines ([constructor],
    [toString], [__proto__], ...) and that has no server of its own reads
    as a truthy member that is no server: the handler makes no external
    call and its promise rejects with a [TypeError]; no response is sent. *)
Theorem prototype_name_rejected (repoPath : string) (req : Request)
    (st : State W) :
  viteServers st !! req_worktree req = None ->
  existsb (String.eqb (req_worktree req)) object_prototype_keys = true ->
  value (run handle (main_middleware cwd repoPath req) st)
  = Unhandled (not_a_function "server.middlewares")
  /\ List.filter obs_external
       (trace (run handle (main_middleware cwd repoPath req) st)) = []
  /\ final (run handle (main_middleware cwd repoPath req) st) = st.
Proof.
  intros Hnone Hproto. unfold main_middleware. cbn.
  unfold lookup_slot. rewrite Hnone, Hproto. cbn. repeat split.
Qed.

(** X15. A request handled without interleaving changes [viteServers]
    at most under its own name, and only when that name had no server:
    servers of other names and a server already stored are left as they
    are. *)
Theorem own_slot_only (repoPath : string) (req : Request) (st : State W)
    (k : string) :
  k <> req_worktree req \/ viteServers st !! k <> None ->
  viteServers (final (run handle (main_middleware cwd repoPath req) st)) !! k
  = viteServers st !! k.
Proof.
  intros H. destruct (decide (k = req_worktree req)) as [-> | Hk].
  - destruct H as [H | H]; [contradiction |].
    destruct (viteServers st !! req_worktree req) as [s |] eqn:Hs;
      [| contradiction].
    unfold main_middleware. cbn. unfold lookup_slot. rewrite Hs. cbn. exact Hs.
  - rewrite run_registry.
    apply (registry_after_other (req_worktree req)); [| exact Hk].
    exact (ensures_sound handle _ _ st (middleware_own_slot cwd repoPath req)).
Qed.

(** X16. The middleware answers with status 200 or 500 or hands the
    request on; the 400 answer of the source is never given. *)
Theorem response_statuses (repoPath : string) (req : Request) (st : State W) :
  response_status (value (run handle (main_middleware cwd repoPath req) st))
  = None
  \/ response_status (value (run handle (main_middleware cwd repoPath req) st))
     = Some 200
  \/ response_status (value (run handle (main_middleware cwd repoPath req) st))
     = Some 500.
Proof. exact (ensures_sound handle _ _ st (middleware_status cwd repoPath req)). Qed.

(** X17. With an absolute repository path, the only file a request for a
    worktree reads is [index.html] in the target directory of its name,
    whatever the working directory of the process. *)
Theorem reads_index_html (repoPath : string) (req : Request) (st : State W) :
  NodePath.isAbsolute repoPath = true ->
  req_worktree req <> "main" ->
  Forall (fun p => p = targetWorktreePath repoPath (req_worktree req)
                       ++ "/index.html")
    (omap obs_read (trace (run handle (main_middleware cwd repoPath req) st))).
Proof.
  intros Ha Hm.
  destruct (ensures_sound handle _ _ st (middleware_reads cwd repoPath req))
    as [Hf Hv].
  destruct (omap obs_read
              (trace (run handle (main_middleware cwd repoPath req) st)))
    as [|p ps] eqn:E; [apply List.Forall_nil |].
  specialize (Hv ltac:(discriminate)).
  refine (List.Forall_impl _ _ Hf). intros q ->.
  unfold config_for. apply String.eqb_neq in Hm. rewrite Hm. cbn [cfg_root].
  exact (target_index_path cwd repoPath (req_worktree req) Ha Hv).
Qed.


(** X18. When [git worktree list --porcelain] prints the records of the
    checkouts [l], the lookup returns the resolved path of the first record
    that has a path and whose branch is the one asked for (a detached record
    has the empty branch), and nothing when there is none. *)
Theorem lookup_scans_listing (b repoPath : string) (st : State W)
    (l : list Worktree) (err : string) :
  listing_ok l = true ->
  answer handle (ExecCommand list_cmd repoPath) st
  = Returned {| stdout := porcelain l; stderr := err |} ->
  value (run handle (getWorktreePathForBranch cwd b repoPath) st)
  = option_map (fun w => path_resolve cwd (wt_path w))
      (List.find (fun w => Js.truthy (wt_path w) && (entry_branch w =? b)%string)
         l).
Proof.
  intros Hl Hlist.
  rewrite (proj1 (lookup_after_listing handle cwd b repoPath st _ Hlist)).
  cbn [stdout]. rewrite (Porcelain.split_listing l Hl).
  apply Porcelain.findBranchEntry_listing, Hl.
Qed.

(** X19. [getCurrentBranch] only reads: it runs the two [git rev-parse]
    commands in the repository, the second only after the first, and
    nothing else; it never returns [HEAD] as a branch, and it returns a
    branch only after both commands ran. *)
Theorem current_branch_result (repoPath : string) (st : State W) :
  value (run handle (getCurrentBranch repoPath) st) <> Some "HEAD"
  /\ List.filter obs_mutating (trace (run handle (getCurrentBranch repoPath) st))
     = []
  /\ (exists n,
        omap obs_exec (trace (run handle (getCurrentBranch repoPath) st))
        = firstn n (rev_parse_cmds repoPath))
  /\ (forall b,
        value (run handle (getCurrentBranch repoPath) st) = Some b ->
        omap obs_exec (trace (run handle (getCurrentBranch repoPath) st))
        = rev_parse_cmds repoPath).
Proof.
  destruct (ensures_sound handle _ _ st (current_branch_ok repoPath))
    as (H1 & H2 & H3 & H4).
  split; [exact H1 |]. split; [exact (inert_filter _ H2) |].
  split; [exact H3 | exact H4].
Qed.

(** X20. Serving the page of a workspace reads [viteServers] once and ends
    in one of two ways: with status 200 and the page [transformIndexHtml]
    returned, or with [next(e)], where [e] went through [ssrFixStacktrace]
    exactly when the name has a server of its own. *)
Theorem serve_outcomes (req : Request)
    (worktree rootPathForVite path : string) (st : State W) :
  serve_ok worktree
    (trace (run handle (main_serve cwd req worktree rootPathForVite path) st))
    (value (run handle (main_serve cwd req worktree rootPathForVite path) st)).
Proof.
  exact (ensures_sound handle _ _ st
           (main_serve_ends cwd req worktree rootPathForVite path)).
Qed.

Lemma lookup_slot_own (m : gmap string ViteServer) (name : string)
    (s : ViteServer) :
  lookup_slot m name = OwnServer s -> m !! name = Some s.
Proof.
  unfold lookup_slot. destruct (m !! name) as [s' |].
  - intros H. injection H as ->. reflexivity.
  - destruct (existsb (String.eqb name) object_prototype_keys); discriminate.
Qed.

Lemma lookup_slot_none (m : gmap string ViteServer) (name : string) :
  m !! name = None ->
  existsb (String.eqb name) object_prototype_keys = false ->
  lookup_slot m name = Undefined.
Proof. unfold lookup_slot. intros -> ->. reflexivity. Qed.

(** X21. When [vite.createServer] fails for a name without a server, the
    middleware answers 500 with the message of the error ([Unknown error]
    when it is empty); nothing is stored and no file is read. *)
Theorem create_server_failure (repoPath : string) (req : Request)
    (worktree rootPathForVite base path : string) (st : State W)
    (error : JsErr) :
  viteServers st !! worktree = None ->
  existsb (String.eqb worktree) object_prototype_keys = false ->
  answer handle
    (CreateServer {| cfg_root := rootPathForVite; cfg_base := base;
                     cfg_fs_allow := [repoPath; getWorktreesDir repoPath] |}) st
  = Raised error ->
  value (run handle (main_ensure_server cwd repoPath req worktree rootPathForVite
                       base path) st)
  = Json 500
      ("Failed to process request: "
       ++ (if Js.truthy (err_message error) then err_message error
           else "Unknown error")) None
  /\ viteServers
       (final (run handle (main_ensure_server cwd repoPath req worktree
                             rootPathForVite base path) st))
     = viteServers st
  /\ omap obs_read
       (trace (run handle (main_ensure_server cwd repoPath req worktree
                             rootPathForVite base path) st)) = [].
Proof.
  intros Hnone Hproto Hfail.
  unfold main_ensure_server. cbn.
  rewrite (lookup_slot_none _ _ Hnone Hproto). cbn. rewrite Hfail. cbn.
  split; [| split; reflexivity].
  unfold Js.or_else, Js.show_undefined.
  destruct (Js.truthy (err_message error)); reflexivity.
Qed.

Lemma serve_cached (req : Request) (worktree rootPathForVite path : string)
    (st : State W) (status : nat) (body : string) :
  value (run handle (main_serve cwd req worktree rootPathForVite path) st)
  = Html status body ->
  exists s,
    viteServers
      (final (run handle (main_serve cwd req worktree rootPathForVite path) st))
    !! worktree = Some s.
Proof.
  intros H.
  pose proof (ensures_sound handle _ _ st
                (main_serve_ok cwd req worktree rootPathForVite path))
    as (Hset & _).
  rewrite run_registry, (registry_after_no_set _ _ Hset).
  unfold main_serve in H. cbn in H.
  destruct (lookup_slot (viteServers st) worktree) as [s | |] eqn:Hs.
  - exists s. exact (lookup_slot_own _ _ _ Hs).
  - exfalso.
    repeat match type of H with
           | context [match ?x with _ => _ end] => destruct x; cbn in H
           end; discriminate H.
  - exfalso.
    repeat match type of H with
           | context [match ?x with _ => _ end] => destruct x; cbn in H
           end; discriminate H.
Qed.

Lemma ensure_cached (repoPath : string) (req : Request)
    (worktree rootPathForVite base path : string) (st : State W)
    (status : nat) (body : string) :
  value (run handle (main_ensure_server cwd repoPath req worktree rootPathForVite
                       base path) st)
  = Html status body ->
  exists s,
    viteServers
      (final (run handle (main_ensure_server cwd repoPath req worktree
                            rootPathForVite base path) st))
    !! worktree = Some s.
Proof.
  unfold main_ensure_server. cbn.
  destruct (slot_truthy (lookup_slot (viteServers st) worktree)).
  - apply serve_cached.
  - cbn.
    match goal with
    | |- context [match ?x with Returned _ => _ | Raised _ => _ end] =>
        destruct x as [i | e]
    end; cbn.
    + apply serve_cached.
    + discriminate.
Qed.

(** X22. After a request was answered with a page, a server is stored
    under its name: a later request for that name, with no other request in
    between, is handed to a stored server without any external call. *)
Theorem served_then_cached (repoPath : string) (req req' : Request)
    (st : State W) (status : nat) (body : string) :
  value (run handle (main_middleware cwd repoPath req) st) = Html status body ->
  req_worktree req' = req_worktree req ->
  exists s,
    value (run handle (main_middleware cwd repoPath req')
             (final (run handle (main_middleware cwd repoPath req) st)))
    = Middlewares s
    /\ List.filter obs_external
         (trace (run handle (main_middleware cwd repoPath req')
                   (final (run handle (main_middleware cwd repoPath req) st))))
       = []
    /\ final (run handle (main_middleware cwd repoPath req')
                (final (run handle (main_middleware cwd repoPath req) st)))
       = final (run handle (main_middleware cwd repoPath req) st).
Proof.
  intros H Hname.
  assert (Hs : exists s,
             viteServers (final (run handle (main_middleware cwd repoPath req) st))
             !! req_worktree req = Some s).
  { revert H. unfold main_middleware. cbn.
    destruct (lookup_slot (viteServers st) (req_worktree req)); cbn;
      try discriminate.
    destruct (Js.truthy (req_worktree req) && isValidWorktreeName (req_worktree req))
      eqn:Hv; cbn; [| discriminate].
    destruct (negb (Js.truthy (req_worktree req))); cbn; [discriminate |].
    destruct (req_worktree req =? "main")%string eqn:Hm; cbn.
    - rewrite run_bind. cbn [value final]. apply ensure_cached.
    - rewrite run_bind. cbn [value final].
      destruct (negb (success
                        (value (run handle
                                  (createWorktree cwd (req_worktree req) repoPath)
                                  st)))); cbn; [discriminate |].
      apply ensure_cached. }
  destruct Hs as [s Hs]. exists s.
  unfold main_middleware at 1 3 5. cbn. rewrite Hname.
  unfold lookup_slot. rewrite Hs. cbn. repeat split.
Qed.

(** *** Interleaved requests *)

Lemma advance_registry {A : Type} (p : Prog A) (st : State W) :
  viteServers (final (advance handle p st))
  = registry_after (trace (advance handle p st)) (viteServers st).
Proof.
  revert st. induction p as [a | X e k IH]; intros st; cbn; [reflexivity |].
  destruct (is_await e); cbn; [reflexivity |].
  rewrite IH. destruct e; reflexivity.
Qed.

Lemma resume_registry {A : Type} (p : Prog A) (st : State W) :
  viteServers (final (resume handle p st))
  = registry_after (trace (resume handle p st)) (viteServers st).
Proof.
  destruct p as [a | X e k]; cbn; [reflexivity |].
  rewrite advance_registry. destruct e; reflexivity.
Qed.

(** What is promised of a program is promised of what is left of it after
    it ran to its next [await]. *)
Lemma advance_ensures {A : Type} (p : Prog A) (Q : list Obs -> A -> Prop)
    (st : State W) :
  Ensures p Q ->
  Ensures (value (advance handle p st))
    (fun t a => Q (trace (advance handle p st) ++ t)%list a).
Proof.
  revert Q st. induction p as [a | X e k IH]; intros Q st H.
  - exact H.
  - cbn [advance]. destruct (is_await e).
    + exact H.
    + cbn [value trace].
      exact (IH _ (fun t a => Q (Observed e (fst (step handle e st)) :: t) a)
               _ (H _)).
Qed.

Lemma resume_ensures {A : Type} (p : Prog A) (Q : list Obs -> A -> Prop)
    (st : State W) :
  Ensures p Q ->
  Ensures (value (resume handle p st))
    (fun t a => Q (trace (resume handle p st) ++ t)%list a).
Proof.
  destruct p as [a | X e k]; intros H.
  - exact H.
  - cbn [resume value trace].
    exact (advance_ensures _
             (fun t a => Q (Observed e (fst (step handle e st)) :: t) a)
             _ (H _)).
Qed.

Lemma advance_writes {A : Type} (p : Prog A) (P : Obs -> Prop) (st : State W) :
  Ensures p (fun t _ => Forall P t) ->
  Forall P (trace (advance handle p st))
  /\ Ensures (value (advance handle p st)) (fun t _ => Forall P t).
Proof.
  intros H. apply (advance_ensures p _ st) in H. split.
  - apply (ensures_sound handle _ _ (final (advance handle p st))) in H.
    apply Forall_app in H. exact (proj1 H).
  - refine (ensures_weaken _ _ _ _ H). intros t a Ht.
    apply Forall_app in Ht. exact (proj2 Ht).
Qed.

Lemma resume_writes {A : Type} (p : Prog A) (P : Obs -> Prop) (st : State W) :
  Ensures p (fun t _ => Forall P t) ->
  Forall P (trace (resume handle p st))
  /\ Ensures (value (resume handle p st)) (fun t _ => Forall P t).
Proof.
  intros H. apply (resume_ensures p _ st) in H. split.
  - apply (ensures_sound handle _ _ (final (resume handle p st))) in H.
    apply Forall_app in H. exact (proj1 H).
  - refine (ensures_weaken _ _ _ _ H). intros t a Ht.
    apply Forall_app in Ht. exact (proj2 Ht).
Qed.

Lemma act_registry_wf (repoPath : string) (pl : Pool W) (a : Action) :
  registry_wf repoPath (viteServers (shared pl))
  /\ Forall (fun p => Ensures p (fun t _ => Forall (set_ok repoPath) t))
       (requests pl) ->
  registry_wf repoPath (viteServers (shared (act handle cwd repoPath pl a)))
  /\ Forall (fun p => Ensures p (fun t _ => Forall (set_ok repoPath) t))
       (requests (act handle cwd repoPath pl a)).
Proof.
  intros [Hwf Hreqs]. destruct a as [req | i]; cbn [act].
  - destruct (advance_writes _ _ (shared pl) (middleware_sets cwd repoPath req))
      as [Ht Hrest].
    cbn [shared requests]. split.
    + rewrite advance_registry. apply registry_after_wf; assumption.
    + apply Forall_app. split; [exact Hreqs |].
      apply List.Forall_cons; [exact Hrest | apply List.Forall_nil].
  - destruct (requests pl !! i) as [p |] eqn:Hp; [| split; assumption].
    pose proof (Forall_lookup_1 _ _ _ _ Hreqs Hp) as Hens.
    destruct (resume_writes _ _ (shared pl) Hens) as [Ht Hrest].
    cbn [shared requests]. split.
    + rewrite resume_registry. apply registry_after_wf; assumption.
    + apply Forall_insert; assumption.
Qed.

(** X23. However the requests interleave at their awaits, [viteServers]
    holds servers under valid names only, each with the root, the base and
    the allowed directories of the workspace of its name. *)
Theorem registry_wf_interleaved (repoPath : string) (st : State W)
    (acts : list Action) :
  registry_wf repoPath (viteServers st) ->
  registry_wf repoPath
    (viteServers (shared (schedule handle cwd repoPath st acts))).
Proof.
  intros Hwf. unfold schedule.
  assert (Hinv :
    registry_wf repoPath
      (viteServers (shared {| requests := []; observed := []; shared := st |}))
    /\ Forall (fun p => Ensures p (fun t _ => Forall (set_ok repoPath) t))
         (requests {| requests := []; observed := []; shared := st |}))
    by (split; [exact Hwf | apply List.Forall_nil]).
  revert Hinv.
  generalize {| requests := []; observed := []; shared := st |}.
  induction acts as [|a acts IH]; intros pl Hinv; [exact (proj1 Hinv) |].
  cbn [fold_left]. apply IH. apply act_registry_wf. exact Hinv.
Qed.

End FurtherRuns.

(** X24. Over the records of the checkouts [l], the second scan of an
    attempt returns the branch of the first record that resolves to the
    target path and is bound to another branch; a detached record at the
    target path counts, with the empty branch. *)
Theorem path_conflict_scan (cwd target branch : string) (l : list Worktree) :
  listing_ok l = true ->
  findPathConflict cwd target branch (Js.split (Js.LF ++ Js.LF) (porcelain l))
  = option_map entry_branch
      (List.find
         (fun w => (path_resolve cwd (wt_path w) =? path_resolve cwd target)%string
                   && negb (entry_branch w =? branch)%string) l).
Proof.
  intros Hl. rewrite (Porcelain.split_listing l Hl).
  apply Porcelain.findPathConflict_listing, Hl.
Qed.

(** ** Concrete runs, continued *)


Lemma worktrees_dir_sibling_witness :
  getWorktreesDir (NodePath.resolve "/home/u" ["repo"])
  = NodePath.resolve "/home/u" ["repo"] ++ "-worktrees".
Proof. apply (worktrees_dir_sibling "/home/u" ["repo"]). reflexivity. Defined.

Lemma target_is_child_witness :
  targetWorktreePath repo0 "feature1" = getWorktreesDir repo0 ++ "/" ++ "feature1"
  /\ NodePath.dirname (targetWorktreePath repo0 "feature1") = getWorktreesDir repo0
  /\ NodePath.basename (targetWorktreePath repo0 "feature1") = "feature1".
Proof. apply (target_is_child repo0 "feature1"). reflexivity. Defined.

Lemma target_resolved_witness :
  path_resolve "/tmp" (targetWorktreePath repo0 "feature1")
  = targetWorktreePath repo0 "feature1".
Proof.
  apply (target_resolved "/tmp" repo0 "feature1"); reflexivity.
Defined.

Lemma lookup_result_resolved_witness : path_resolve "/tmp" "/X" = "/X".
Proof.
  apply (lookup_result_resolved Sim.handle cwd0 (branchForWorktree "feature1")
           repo0 (Sim.start Sim.branch_elsewhere) "/X" "/tmp").
  - reflexivity.
  - vm_compute. reflexivity.
Defined.

Lemma reuse_iff_same_path_witness :
  success (value (run Sim.handle (createWorktree cwd0 "feature1" repo0)
                    (Sim.start Sim.branch_elsewhere))) = true
  <-> "/X" = targetWorktreePath repo0 "feature1".
Proof.
  apply (reuse_iff_same_path Sim.handle cwd0 "feature1" repo0
           (Sim.start Sim.branch_elsewhere) "/X").
  - reflexivity.
  - reflexivity.
  - reflexivity.
  - vm_compute. reflexivity.
Defined.

Lemma parseArgs_repo_path_witness :
  NodePath.isAbsolute "/home/u/repo" = true
  /\ path_resolve "/home/u" "/home/u/repo" = "/home/u/repo"
  /\ getWorktreesDir "/home/u/repo" = "/home/u/repo" ++ "-worktrees".
Proof.
  apply (parseArgs_repo_path "/home/u"
           ["node"; "cli.js"; "--repo-path"; "repo"; "--port"; "8080"]
           8080%Z "/home/u/repo").
  - reflexivity.
  - vm_compute. reflexivity.
  - vm_compute. reflexivity.
Defined.

Lemma parseArgs_invalid_port_witness :
  parseArgs "/home/u"
    ["node"; "cli.js"; "--verbose"; "--port"; "http"; "--repo-path"; "repo"]
  = Exit 1 ("Invalid port: " ++ "http").
Proof.
  apply (parseArgs_invalid_port "/home/u" "node" "cli.js" ["--verbose"]
           ["--repo-path"; "repo"] "http").
  - reflexivity.
  - reflexivity.
Defined.

Lemma parseArgs_defaults_witness :
  parseArgs "/home/u" ["node"; "cli.js"; "--verbose"; "--port"]
  = Args 5173%Z "/home/u".
Proof.
  apply (parseArgs_defaults "/home/u" "node" "cli.js" ["--verbose"] "--port").
  reflexivity.
Defined.

Lemma middleware_command_discipline_witness :
  isValidWorktreeName "feature1" = true.
Proof.
  apply (middleware_command_discipline Sim.handle cwd0 repo0
           (Sim.request "feature1") (Sim.start Sim.fresh)).
  vm_compute. discriminate.
Defined.

Lemma mutation_order_witness :
  In AddResolved
    (mutations
       (trace (run Sim.handle (createWorktree_outcome cwd0 "feature1" repo0)
                 (Sim.start Sim.fresh)))).
Proof.
  apply (mutation_order Sim.handle cwd0 "feature1" repo0 (Sim.start Sim.fresh)).
  vm_compute. reflexivity.
Defined.

Lemma provisioning_failure_response_witness :
  value (run Sim.handle (main_middleware cwd0 repo0 (Sim.request "feature1"))
           (Sim.start Sim.branch_elsewhere))
  = Json 500 ("Failed to prepare worktree '" ++ "feature1" ++ "'")
      (Some (message
               (value (run Sim.handle (createWorktree cwd0 "feature1" repo0)
                         (Sim.start Sim.branch_elsewhere)))))
  /\ omap obs_create_server
       (trace (run Sim.handle (main_middleware cwd0 repo0 (Sim.request "feature1"))
                 (Sim.start Sim.branch_elsewhere))) = []
  /\ omap obs_read
       (trace (run Sim.handle (main_middleware cwd0 repo0 (Sim.request "feature1"))
                 (Sim.start Sim.branch_elsewhere))) = []
  /\ viteServers
       (final (run Sim.handle (main_middleware cwd0 repo0 (Sim.request "feature1"))
                 (Sim.start Sim.branch_elsewhere)))
     = viteServers (Sim.start Sim.branch_elsewhere).
Proof.
  apply (provisioning_failure_response Sim.handle cwd0 repo0
           (Sim.request "feature1") (Sim.start Sim.branch_elsewhere)).
  - reflexivity.
  - reflexivity.
  - reflexivity.
  - discriminate.
  - vm_compute. reflexivity.
Defined.

Lemma prototype_name_rejected_witness :
  value (run Sim.handle (main_middleware cwd0 repo0 (Sim.request "constructor"))
           (Sim.start Sim.fresh))
  = Unhandled (not_a_function "server.middlewares")
  /\ List.filter obs_external
       (trace (run Sim.handle
                 (main_middleware cwd0 repo0 (Sim.request "constructor"))
                 (Sim.start Sim.fresh))) = []
  /\ final (run Sim.handle (main_middleware cwd0 repo0 (Sim.request "constructor"))
              (Sim.start Sim.fresh))
     = Sim.start Sim.fresh.
Proof.
  apply (prototype_name_rejected Sim.handle cwd0 repo0 (Sim.request "constructor")
           (Sim.start Sim.fresh)).
  - reflexivity.
  - reflexivity.
Defined.

Lemma own_slot_only_witness :
  viteServers
    (final (run Sim.handle (main_middleware cwd0 repo0 (Sim.request "feature1"))
              (Sim.start Sim.fresh))) !! "main"
  = viteServers (Sim.start Sim.fresh) !! "main".
Proof.
  apply (own_slot_only Sim.handle cwd0 repo0 (Sim.request "feature1")
           (Sim.start Sim.fresh) "main").
  left. discriminate.
Defined.

Lemma registry_wf_interleaved_witness :
  registry_wf repo0
    (viteServers
       (shared (schedule Sim.handle cwd0 repo0 (Sim.start Sim.fresh)
                  Sim.two_requests))).
Proof.
  apply (registry_wf_interleaved Sim.handle cwd0 repo0 (Sim.start Sim.fresh)
           Sim.two_requests).
  apply registry_wf_empty.
Defined.

Lemma reads_index_html_witness :
  Forall (fun p => p = targetWorktreePath repo0 "feature1" ++ "/index.html")
    (omap obs_read
       (trace (run Sim.handle (main_middleware cwd0 repo0 (Sim.request "feature1"))
                 (Sim.start Sim.fresh)))).
Proof.
  apply (reads_index_html Sim.handle cwd0 repo0 (Sim.request "feature1")
           (Sim.start Sim.fresh)).
  - reflexivity.
  - discriminate.
Defined.

Lemma lookup_scans_listing_witness :
  value (run Sim.handle (getWorktreePathForBranch cwd0 "feature1-branch" repo0)
           (Sim.start Sim.branch_elsewhere))
  = option_map (fun w => path_resolve cwd0 (wt_path w))
      (List.find (fun w => Js.truthy (wt_path w)
                           && (entry_branch w =? "feature1-branch")%string)
         [{| wt_path := "/home/u/repo";
             wt_head := "0000000000000000000000000000000000000000";
             wt_branch := Some "main" |};
          {| wt_path := "/X";
             wt_head := "0000000000000000000000000000000000000000";
             wt_branch := Some "feature1-branch" |}]).
Proof.
  apply (lookup_scans_listing Sim.handle cwd0 "feature1-branch" repo0
           (Sim.start Sim.branch_elsewhere)
           [{| wt_path := "/home/u/repo";
               wt_head := "0000000000000000000000000000000000000000";
               wt_branch := Some "main" |};
            {| wt_path := "/X";
               wt_head := "0000000000000000000000000000000000000000";
               wt_branch := Some "feature1-branch" |}] "").
  - reflexivity.
  - vm_compute. reflexivity.
Defined.

Lemma path_conflict_scan_witness :
  findPathConflict cwd0 "/home/u/repo-worktrees/feature1" "feature1-branch"
    (Js.split (Js.LF ++ Js.LF)
       (porcelain
          [{| wt_path := "/home/u/repo"; wt_head := "3f2a9c1";
              wt_branch := Some "main" |};
           {| wt_path := "/home/u/repo-worktrees/feature1"; wt_head := "3f2a9c1";
              wt_branch := None |}]))
  = option_map entry_branch
      (List.find
         (fun w => (path_resolve cwd0 (wt_path w)
                    =? path_resolve cwd0 "/home/u/repo-worktrees/feature1")%string
                   && negb (entry_branch w =? "feature1-branch")%string)
         [{| wt_path := "/home/u/repo"; wt_head := "3f2a9c1";
             wt_branch := Some "main" |};
          {| wt_path := "/home/u/repo-worktrees/feature1"; wt_head := "3f2a9c1";
             wt_branch := None |}]).
Proof.
  apply (path_conflict_scan cwd0 "/home/u/repo-worktrees/feature1"
           "feature1-branch"
           [{| wt_path := "/home/u/repo"; wt_head := "3f2a9c1";
               wt_branch := Some "main" |};
            {| wt_path := "/home/u/repo-worktrees/feature1"; wt_head := "3f2a9c1";
               wt_branch := None |}]).
  reflexivity.
Defined.

Lemma branch_name_valid_witness :
  isValidWorktreeName (branchForWorktree "feature1") = true.
Proof. apply (branch_name_valid "feature1"). reflexivity. Defined.

Lemma vite_path_leading_slash_witness :
  actualReqPathForVite "/src/main.ts" = "/src/main.ts".
Proof.
  apply (vite_path_leading_slash "/src/main.ts").
  - reflexivity.
  - discriminate.
Defined.

Lemma current_branch_result_witness :
  omap obs_exec (trace (run Sim.handle (getCurrentBranch repo0)
                          (Sim.start Sim.fresh)))
  = rev_parse_cmds repo0.
Proof.
  apply (current_branch_result Sim.handle repo0 (Sim.start Sim.fresh)) with "main".
  vm_compute. reflexivity.
Defined.

Lemma create_server_failure_witness :
  value (run Sim.handle
           (main_ensure_server cwd0 repo0 (Sim.request "main") "main" repo0
              "/main/" "/") (Sim.start no_vite))
  = Json 500 "Failed to process request: failed to load config" None
  /\ viteServers
       (final (run Sim.handle
                 (main_ensure_server cwd0 repo0 (Sim.request "main") "main" repo0
                    "/main/" "/") (Sim.start no_vite)))
     = viteServers (Sim.start no_vite)
  /\ omap obs_read
       (trace (run Sim.handle
                 (main_ensure_server cwd0 repo0 (Sim.request "main") "main" repo0
                    "/main/" "/") (Sim.start no_vite))) = [].
Proof.
  apply (create_server_failure Sim.handle cwd0 repo0 (Sim.request "main") "main"
           repo0 "/main/" "/" (Sim.start no_vite)
           {| err_name := "Error"; err_message := "failed to load config" |}).
  - reflexivity.
  - reflexivity.
  - vm_compute. reflexivity.
Defined.

Lemma served_then_cached_witness :
  exists s,
    value (run Sim.handle (main_middleware cwd0 repo0 (Sim.request "feature1"))
             (final (run Sim.handle
                       (main_middleware cwd0 repo0 (Sim.request "feature1"))
                       (Sim.start Sim.fresh))))
    = Middlewares s
    /\ List.filter obs_external
         (trace (run Sim.handle
                   (main_middleware cwd0 repo0 (Sim.request "feature1"))
                   (final (run Sim.handle
                             (main_middleware cwd0 repo0 (Sim.request "feature1"))
                             (Sim.start Sim.fresh)))))
       = []
    /\ final (run Sim.handle (main_middleware cwd0 repo0 (Sim.request "feature1"))
                (final (run Sim.handle
                          (main_middleware cwd0 repo0 (Sim.request "feature1"))
                          (Sim.start Sim.fresh))))
       = final (run Sim.handle
                  (main_middleware cwd0 repo0 (Sim.request "feature1"))
                  (Sim.start Sim.fresh)).
Proof.
  apply (served_then_cached Sim.handle cwd0 repo0 (Sim.request "feature1")
           (Sim.request "feature1") (Sim.start Sim.fresh) 200 "<html></html>").
  - vm_compute. reflexivity.
  - reflexivity.
Defined.
